(** * PPP manager: a shallow embedding of [ppp_manager.py] and its properties

    The development follows the layout of the Python module:
    - text helpers ([_norm], the two regular expressions of [_clean_number]);
    - the numeric normaliser ([_clean_number], [_clean_int]) over IEEE-754
      binary64 values, taken from the standard library's [SpecFloat];
    - the insertion-ordered dictionary used as the cache, whose values are
      records carrying an object identity;
    - the CSV layer ([load_data], [save_data], the deleted-items archive);
    - the menu operations ([_find], [update_country], [combined_ppp],
      [delete_entry], [merge_deleted_back]).

    Python strings are modelled as [string]; a character is a code point
    below 256 and is classified as Python classifies the Latin-1 range. *)

From Stdlib Require Import Bool Arith ZArith Lia List String Ascii.
From Stdlib Require Import Permutation Sorted.
From Stdlib Require Import Floats.SpecFloat.
From Stdlib Require DecimalString DecimalPos DecimalN DecimalZ DecimalFacts.
Import ListNotations.

Local Open Scope string_scope.
Local Open Scope Z_scope.
Local Open Scope list_scope.

(* ================================================================== *)
(** ** Exceptions *)

Inductive exn : Type :=
| ValueError
| OverflowError.

Inductive result (A : Type) : Type :=
| Ok (a : A)
| Raise (e : exn).
Arguments Ok {A} a.
Arguments Raise {A} e.

Definition bind {A B : Type} (r : result A) (k : A -> result B) : result B :=
  match r with
  | Ok a => k a
  | Raise e => Raise e
  end.

Notation "'let*' x ':=' c1 'in' c2" := (bind c1 (fun x => c2))
  (at level 61, x pattern, c1 at next level, right associativity).

Fixpoint mapM {A B : Type} (f : A -> result B) (l : list A) : result (list B) :=
  match l with
  | [] => Ok []
  | x :: r =>
      let* y := f x in
      let* ys := mapM f r in
      Ok (y :: ys)
  end.

(* ================================================================== *)
(** ** Characters and strings *)

Definition code (c : ascii) : Z := Z.of_nat (nat_of_ascii c).

Definition chr (z : Z) : ascii := ascii_of_nat (Z.to_nat z).

(** [str.isspace] on one character; also the class [\s] of [re]. *)
Definition py_isspace (c : ascii) : bool :=
  let n := code c in
  ((9 <=? n) && (n <=? 13)) || ((28 <=? n) && (n <=? 32))
  || (n =? 133) || (n =? 160).

(** The white space [float()] skips at both ends of its argument. *)
Definition float_isspace (c : ascii) : bool :=
  let n := code c in
  ((9 <=? n) && (n <=? 13)) || (n =? 32) || (n =? 133) || (n =? 160).

(** The class [\d] of [re], and the digits of [0-9]. *)
Definition is_digit (c : ascii) : bool :=
  let n := code c in (48 <=? n) && (n <=? 57).

(** [str.lower] on one character. *)
Definition lower_char (c : ascii) : ascii :=
  let n := code c in
  if ((65 <=? n) && (n <=? 90))
     || ((192 <=? n) && (n <=? 222) && negb (n =? 215))
  then chr (n + 32) else c.

Fixpoint lower (s : string) : string :=
  match s with
  | EmptyString => EmptyString
  | String c r => String (lower_char c) (lower r)
  end.

Fixpoint lstrip_by (sp : ascii -> bool) (s : string) : string :=
  match s with
  | EmptyString => EmptyString
  | String c r => if sp c then lstrip_by sp r else s
  end.

Fixpoint rstrip_by (sp : ascii -> bool) (s : string) : string :=
  match s with
  | EmptyString => EmptyString
  | String c r =>
      match rstrip_by sp r with
      | EmptyString => if sp c then EmptyString else String c EmptyString
      | r' => String c r'
      end
  end.

Definition strip_by (sp : ascii -> bool) (s : string) : string :=
  lstrip_by sp (rstrip_by sp s).

(** [s.strip()] *)
Definition strip (s : string) : string := strip_by py_isspace s.

Fixpoint filter_str (p : ascii -> bool) (s : string) : string :=
  match s with
  | EmptyString => EmptyString
  | String c r => if p c then String c (filter_str p r) else filter_str p r
  end.

Fixpoint forall_str (p : ascii -> bool) (s : string) : bool :=
  match s with
  | EmptyString => true
  | String c r => p c && forall_str p r
  end.

(** [s.replace(c, "")] for a one-character [c]. *)
Definition remove_char (c : ascii) (s : string) : string :=
  filter_str (fun x => negb (Ascii.eqb x c)) s.

(** Truth value of a string: the empty string is false. *)
Definition truthy (s : string) : bool :=
  match s with
  | EmptyString => false
  | _ => true
  end.

(** [a or b] on strings. *)
Definition or_str (a b : string) : string := if truthy a then a else b.

(** Values that reach the helpers: [None], a string, an int or a float. *)
Inductive pyval : Type :=
| PNone
| PStr (s : string)
| PInt (n : Z)
| PFloat (f : spec_float).

(** [x or ""] where [x] is a string or [None], as after [row.get]. *)
Definition or_empty (x : option string) : string :=
  match x with
  | Some s => s
  | None => ""
  end.

(** [src/ppp_manager.py], [_norm]: [(s or "").strip().lower()]. *)
Definition _norm (s : string) : string := lower (strip s).

(* ================================================================== *)
(** ** Binary64 numbers *)

Definition prec : Z := 53.
Definition emax : Z := 1024.

Definition is_finite (f : spec_float) : bool :=
  match f with
  | S754_zero _ | S754_finite _ _ _ => true
  | _ => false
  end.

(** Truth value of a float: zero of either sign is false. *)
Definition float_truthy (f : spec_float) : bool :=
  match f with
  | S754_zero _ => false
  | _ => true
  end.

(** The binary64 nearest to [(-1)^neg * m * 10^e10], ties to even. *)
Definition dec2float (neg : bool) (m : Z) (e10 : Z) : spec_float :=
  match m with
  | Zpos p =>
      if 0 <=? e10
      then binary_round prec emax neg (p * Z.to_pos (10 ^ e10)) 0
      else
        let '(q, e, l) :=
          SFdiv_core_binary prec emax (Zpos p) 0 (10 ^ (- e10)) 0 in
        binary_round_aux prec emax neg q e l
  | _ => S754_zero neg
  end.

(** The binary64 nearest to an integer. *)
Definition Z2F (n : Z) : spec_float :=
  dec2float (n <? 0) (Z.abs n) 0.

(** [float(n)] for an int [n]. *)
Definition float_of_int (n : Z) : result spec_float :=
  match Z2F n with
  | S754_infinity _ => Raise OverflowError
  | f => Ok f
  end.

(** [int(f)] for a float [f]: truncation towards zero. *)
Definition int_of_float (f : spec_float) : result Z :=
  match f with
  | S754_nan => Raise ValueError
  | S754_infinity _ => Raise OverflowError
  | S754_zero _ => Ok 0
  | S754_finite s m e => Ok (cond_Zopp s (Z.shiftl (Zpos m) e))
  end.

(** Float addition, [a + b]. *)
Definition fadd (a b : spec_float) : spec_float := SFadd prec emax a b.

(* ================================================================== *)
(** ** [float(str)] *)

Definition digit_of_char (c : ascii) : option (Decimal.uint -> Decimal.uint) :=
  match code c with
  | 48 => Some Decimal.D0 | 49 => Some Decimal.D1 | 50 => Some Decimal.D2 | 51 => Some Decimal.D3
  | 52 => Some Decimal.D4 | 53 => Some Decimal.D5 | 54 => Some Decimal.D6 | 55 => Some Decimal.D7
  | 56 => Some Decimal.D8 | 57 => Some Decimal.D9
  | _ => None
  end.

(** Longest prefix of the form [digit (["_"] digit)*] given that a digit has
    just been read: returns the digits read and the rest of the text. *)
Fixpoint scan_digits (s : string) : Decimal.uint * string :=
  match s with
  | String c r =>
      match digit_of_char c with
      | Some d => let '(u, rest) := scan_digits r in (d u, rest)
      | None =>
          if Ascii.eqb c "_"
          then
            match r with
            | String c' r' =>
                match digit_of_char c' with
                | Some d => let '(u, rest) := scan_digits r' in (d u, rest)
                | None => (Decimal.Nil, s)
                end
            | EmptyString => (Decimal.Nil, s)
            end
          else (Decimal.Nil, s)
      end
  | EmptyString => (Decimal.Nil, s)
  end.

(** [digitpart ::= digit (["_"] digit)*]; [None] when no digit starts [s]. *)
Definition scan_digitpart (s : string) : option (Decimal.uint * string) :=
  match s with
  | String c r =>
      match digit_of_char c with
      | Some d => let '(u, rest) := scan_digits r in Some (d u, rest)
      | None => None
      end
  | EmptyString => None
  end.

Definition scan_sign (s : string) : bool * string :=
  match s with
  | String c r =>
      if Ascii.eqb c "-" then (true, r)
      else if Ascii.eqb c "+" then (false, r)
      else (false, s)
  | EmptyString => (false, s)
  end.

(** [exponent ::= ("e" | "E") [sign] digitpart], or nothing at the end. *)
Definition scan_exponent (s : string) : option Z :=
  match s with
  | EmptyString => Some 0
  | String c r =>
      if Ascii.eqb c "e" || Ascii.eqb c "E"
      then
        let '(neg, r1) := scan_sign r in
        match scan_digitpart r1 with
        | Some (u, EmptyString) =>
            Some (if neg then - Z.of_uint u else Z.of_uint u)
        | _ => None
        end
      else None
  end.

(** [number ::= [digitpart] "." digitpart | digitpart ["."]], then the
    exponent: the decimal mantissa and the power of ten. *)
Definition scan_number (s : string) : option (Z * Z) :=
  match scan_digitpart s with
  | Some (ip, String c r) =>
      if Ascii.eqb c "."
      then
        match scan_digitpart r with
        | Some (fp, rest) =>
            match scan_exponent rest with
            | Some x =>
                Some (Z.of_uint (Decimal.app ip fp),
                      x - Z.of_nat (Decimal.nb_digits fp))
            | None => None
            end
        | None =>
            match scan_exponent r with
            | Some x => Some (Z.of_uint ip, x)
            | None => None
            end
        end
      else
        match scan_exponent (String c r) with
        | Some x => Some (Z.of_uint ip, x)
        | None => None
        end
  | Some (ip, EmptyString) => Some (Z.of_uint ip, 0)
  | None =>
      match s with
      | String c r =>
          if Ascii.eqb c "."
          then
            match scan_digitpart r with
            | Some (fp, rest) =>
                match scan_exponent rest with
                | Some x => Some (Z.of_uint fp, x - Z.of_nat (Decimal.nb_digits fp))
                | None => None
                end
            | None => None
            end
          else None
      | EmptyString => None
      end
  end.

(** [float(s)] for a string [s]; [ValueError] when [s] is no float literal. *)
Definition float_of_string (s : string) : result spec_float :=
  let '(neg, body) := scan_sign (strip_by float_isspace s) in
  let low := lower body in
  if String.eqb low "inf" || String.eqb low "infinity"
  then Ok (S754_infinity neg)
  else if String.eqb low "nan" then Ok S754_nan
  else
    match scan_number body with
    | Some (m, e10) => Ok (dec2float neg m e10)
    | None => Raise ValueError
    end.

(* ================================================================== *)
(** ** [str(int)] and [format(int, ",")] *)

(** [str(n)] for an int [n]. *)
Definition str_of_int (n : Z) : string :=
  DecimalString.NilZero.string_of_int (Z.to_int n).

(** Thousands separators in a string of digits. *)
Fixpoint group3 (s : string) : string :=
  match s with
  | EmptyString => EmptyString
  | String c r =>
      let k := String.length r in
      if (Nat.eqb (Nat.modulo k 3) 0) && negb (Nat.eqb k 0)
      then String c (String "," (group3 r))
      else String c (group3 r)
  end.

(** [f"{n:,}"] for an int [n]. *)
Definition fmt_grouped (n : Z) : string :=
  if n <? 0
  then String "-" (group3 (str_of_int (Z.abs n)))
  else group3 (str_of_int n).

(* ================================================================== *)
(** ** The numeric normaliser *)

(** The class [[\d,.\-eE$,\s]] of the first regular expression. *)
Definition amount_char (c : ascii) : bool :=
  is_digit c || Ascii.eqb c "," || Ascii.eqb c "." || Ascii.eqb c "-"
  || Ascii.eqb c "e" || Ascii.eqb c "E" || Ascii.eqb c "$" || py_isspace c.

(** [re.match(r"^[\d,.\-eE$,\s]+$", s)] as a truth value. *)
Definition amount_re (s : string) : bool :=
  truthy s && forall_str amount_char s.

(** The characters kept by [re.sub(r"[^0-9.\-eE]", "", s)]. *)
Definition keep_char (c : ascii) : bool :=
  is_digit c || Ascii.eqb c "." || Ascii.eqb c "-"
  || Ascii.eqb c "e" || Ascii.eqb c "E".

(** The last two lines of [_clean_number]. *)
Definition clean_fallback (s : string) : result spec_float :=
  let s' := filter_str keep_char s in
  if truthy s' then float_of_string s' else Ok (S754_zero false).

(** [_clean_number] on a string, from [s = str(text or "").strip()] on. *)
Definition clean_number_str (text : string) : result spec_float :=
  let s := strip text in
  if amount_re s
  then
    let s1 := remove_char "$" (remove_char " " (remove_char "," s)) in
    match float_of_string s1 with
    | Ok f => Ok f
    | Raise ValueError => clean_fallback s1
    | Raise e => Raise e
    end
  else clean_fallback s.

(** [src/ppp_manager.py], [_clean_number]. *)
Definition _clean_number (text : pyval) : result spec_float :=
  match text with
  | PInt n => float_of_int n
  | PFloat f => Ok f
  | PStr s => clean_number_str s
  | PNone => clean_number_str ""
  end.

(** [str(text)] for the values a CSV row or [input()] gives. *)
Definition str_of_cell (text : option string) : string :=
  match text with
  | Some s => s
  | None => "None"
  end.

(** [src/ppp_manager.py], [_clean_int]: any exception gives 0. *)
Definition _clean_int (text : option string) : Z :=
  match float_of_string (strip (str_of_cell text)) with
  | Ok f =>
      match int_of_float f with
      | Ok n => n
      | Raise _ => 0
      end
  | Raise _ => 0
  end.

(* ================================================================== *)
(** ** Records and the cache *)

(** One entry of the cache.  [oid] is the identity of the Python dict
    object: [v is e] holds exactly when the two have the same [oid]. *)
Record entry : Type := mk_entry {
  oid : nat;
  name : string;
  ppp : spec_float;
  rank : Z;
  slug : string;
  date : string;
  region : string
}.

(** [v is e] *)
Definition is_ (v e : entry) : bool := Nat.eqb (oid v) (oid e).

(** A Python [dict] with string keys: bindings in insertion order. *)
Definition dict (V : Type) : Type := list (string * V).

Fixpoint dict_get {V : Type} (k : string) (d : dict V) : option V :=
  match d with
  | [] => None
  | (k', v) :: r => if String.eqb k' k then Some v else dict_get k r
  end.

Definition dict_mem {V : Type} (k : string) (d : dict V) : bool :=
  match dict_get k d with
  | Some _ => true
  | None => false
  end.

(** [d[k] = v]: an existing key keeps its place, a new key goes last. *)
Fixpoint dict_set {V : Type} (k : string) (v : V) (d : dict V) : dict V :=
  match d with
  | [] => [(k, v)]
  | (k', v') :: r =>
      if String.eqb k' k then (k', v) :: r else (k', v') :: dict_set k v r
  end.

(** [d.pop(k, None)] *)
Fixpoint dict_pop {V : Type} (k : string) (d : dict V) : dict V :=
  match d with
  | [] => []
  | (k', v') :: r =>
      if String.eqb k' k then r else (k', v') :: dict_pop k r
  end.

Definition dict_keys {V : Type} (d : dict V) : list string := map fst d.
Definition dict_values {V : Type} (d : dict V) : list V := map snd d.

Definition str_in (k : string) (l : list string) : bool :=
  existsb (String.eqb k) l.

(* ================================================================== *)
(** ** What a run depends on besides the files and the lines typed *)

(** Three things decide what the program does and are fixed neither by
    its text nor by the rows of its files:
    - [key_order a b]: the set built by adding the key [a] and then the
      different key [b] is iterated with [b] first.  Python iterates a set
      of strings in the order of their hashes, which are drawn when the
      process starts;
    - [archive_open]: the last line of the archive found at the start has
      no newline at its end;
    - [glued last row]: what a reader gets in place of the row [last] and
      the row [row] once the text of [row] has been appended to a file
      whose last line, read as [last], has no newline.  The two texts
      stand on one line, and what its cells are depends on the text of
      that line, which the cells do not fix. *)
Class Env : Type := mk_env {
  key_order : string -> string -> bool;
  archive_open : bool;
  glued : list string -> list string -> list (list string)
}.

(** A run where the name key comes first in every set, the archive ends
    with a newline, and a glued line reads as the cells of the two rows,
    the last cell of the one joined with the first cell of the other. *)
Definition name_first : Env :=
  {| key_order := fun _ _ => false;
     archive_open := false;
     glued := fun last row =>
       [removelast last
          ++ [(List.last last "" ++ hd "" row)%string] ++ tl row] |}.

Section Run.

Context {env : Env}.

(** [src/ppp_manager.py], [_make_index_keys]: the set of keys, in the
    order in which it is iterated. *)
Definition _make_index_keys (name_ slug_ : string) : list string :=
  let ks := if truthy name_ then [_norm name_] else [] in
  if truthy slug_ && negb (str_in (_norm slug_) ks)
  then
    match ks with
    | [k] => if key_order k (_norm slug_) then [_norm slug_; k]
             else [k; _norm slug_]
    | _ => ks ++ [_norm slug_]
    end
  else ks.

(** [for k in keys: cache[k] = entry] *)
Definition index_entry (keys : list string) (e : entry) (cache : dict entry)
  : dict entry :=
  fold_left (fun c k => dict_set k e c) keys cache.

(* ================================================================== *)
(** ** Schemas and CSV tables *)

Record schema : Type := mk_schema {
  has_slug : bool;
  has_date : bool;
  has_region : bool;
  fieldnames : list string
}.

Definition CIA_FIELDS : list string :=
  ["name"; "slug"; "value"; "date_of_information"; "ranking"; "region"].

Definition SIMPLE_FIELDS : list string := ["country"; "ppp"; "rank"].

(** The initial value of the global [CURRENT_SCHEMA]. *)
Definition default_schema : schema := mk_schema false false false SIMPLE_FIELDS.

Definition cia_schema : schema := mk_schema true true true CIA_FIELDS.

Fixpoint strings_eqb (a b : list string) : bool :=
  match a, b with
  | [], [] => true
  | x :: a', y :: b' => String.eqb x y && strings_eqb a' b'
  | _, _ => false
  end.

(** [src/ppp_manager.py], [_current_fieldnames]. *)
Definition _current_fieldnames (sch : schema) : list string :=
  if strings_eqb (fieldnames sch) CIA_FIELDS then fieldnames sch
  else SIMPLE_FIELDS.

(** A CSV file as the [csv] module sees it: its rows of cells, the header
    row first. *)
Definition table : Type := list (list string).

(** [reader.fieldnames or []] *)
Definition csv_fieldnames (t : table) : list string :=
  match t with
  | [] => []
  | h :: _ => h
  end.

Definition is_nil {A : Type} (l : list A) : bool :=
  match l with
  | [] => true
  | _ => false
  end.

(** The data rows a [DictReader] yields: blank rows are skipped. *)
Definition csv_rows (t : table) : list (list string) :=
  match t with
  | [] => []
  | _ :: r => filter (fun row => negb (is_nil row)) r
  end.

(** [row.get(key)] on the dict a [DictReader] builds from a row: the cell of
    the last column called [key]; [None] when there is no such column or
    the row is too short to have that cell. *)
Fixpoint row_get (fields row : list string) (key : string) : option string :=
  match fields with
  | [] => None
  | f :: fs =>
      if str_in key fs then row_get fs (tl row) key
      else if String.eqb f key then hd_error row
      else None
  end.

(** [row.get(k1) or row.get(k2) or ... or ""] *)
Fixpoint get_or (fields row : list string) (keys : list string) : string :=
  match keys with
  | [] => ""
  | k :: ks =>
      match row_get fields row k with
      | Some (String c r) => String c r
      | _ => get_or fields row ks
      end
  end.

(** The schema test of [load_data] and [load_deleted]. *)
Definition cia_like (headers : list string) : bool :=
  let lowered := map (fun h => lower (strip h)) headers in
  forallb (fun f => str_in f lowered) CIA_FIELDS.

(* ================================================================== *)
(** ** Loading *)

(** The rows of a CIA-schema file, in order; [nid] is the next fresh object
    identity. *)
Fixpoint load_cia_rows (fields : list string) (rows : list (list string))
    (cache : dict entry) (nid : nat) : result (dict entry * nat) :=
  match rows with
  | [] => Ok (cache, nid)
  | row :: rest =>
      let name_ := get_or fields row ["name"; "Name"] in
      let slug_ := get_or fields row ["slug"; "Slug"] in
      let value := get_or fields row ["value"; "Value"] in
      let date_ :=
        get_or fields row ["date_of_information"; "Date_of_information"] in
      let ranking := get_or fields row ["ranking"; "Ranking"] in
      let region_ := get_or fields row ["region"; "Region"] in
      let* p := _clean_number (PStr value) in
      let e := {| oid := nid; name := strip name_; ppp := p;
                  rank := _clean_int (Some ranking); slug := strip slug_;
                  date := strip date_; region := strip region_ |} in
      load_cia_rows fields rest
        (index_entry (_make_index_keys name_ slug_) e cache) (S nid)
  end.

(** The rows of a simple-schema file. *)
Fixpoint load_simple_rows (fields : list string) (rows : list (list string))
    (cache : dict entry) (nid : nat) : result (dict entry * nat) :=
  match rows with
  | [] => Ok (cache, nid)
  | row :: rest =>
      let name_ := get_or fields row ["country"; "Country"; "name"] in
      let ppp_ := get_or fields row ["ppp"; "PPP"; "value"; "PPP (Int$)"] in
      let rank_ := get_or fields row ["rank"; "Rank"; "ranking"] in
      let* p := _clean_number (PStr ppp_) in
      let e := {| oid := nid; name := strip name_; ppp := p;
                  rank := _clean_int (Some rank_); slug := "";
                  date := ""; region := "" |} in
      load_simple_rows fields rest (dict_set (_norm name_) e cache) (S nid)
  end.

(** [src/ppp_manager.py], [load_data]: from the file ([None] when it does
    not exist), the schema in force and the next identity, to the cache, the
    schema detected and the next identity. *)
Definition load_data (file : option table) (sch : schema) (nid : nat)
  : result (dict entry * schema * nat) :=
  match file with
  | None => Ok ([], sch, nid)
  | Some t =>
      let headers := csv_fieldnames t in
      if cia_like headers
      then
        let* (cache, nid') := load_cia_rows headers (csv_rows t) [] nid in
        Ok (cache, cia_schema, nid')
      else
        let* (cache, nid') := load_simple_rows headers (csv_rows t) [] nid in
        Ok (cache, default_schema, nid')
  end.

(* ================================================================== *)
(** ** Saving *)

(** The key [save_data] deduplicates on. *)
Definition dedup_key (v : entry) : string :=
  or_str (_norm (name v)) (_norm (slug v)).

(** The loop that fills [unique]. *)
Fixpoint save_unique (vals : list entry) (unique : dict entry) : dict entry :=
  match vals with
  | [] => unique
  | v :: r =>
      let key := dedup_key v in
      if truthy key && negb (dict_mem key unique)
      then save_unique r (dict_set key v unique)
      else save_unique r unique
  end.

(** The sort key [(x.get("rank", 0) or 10**12, _norm(x.get("name")))]. *)
Definition sort_key (x : entry) : Z * string :=
  (if rank x =? 0 then 10 ^ 12 else rank x, _norm (name x)).

(** Order on the sort keys: tuples compare field by field, strings by code
    point. *)
Definition key_leb (a b : Z * string) : bool :=
  (fst a <? fst b) || ((fst a =? fst b) && String.leb (snd a) (snd b)).

(** [sorted(..., key=...)] is stable: an element goes before the first
    element after it that is not smaller. *)
Fixpoint insert_sorted (x : entry) (l : list entry) : list entry :=
  match l with
  | [] => [x]
  | y :: r =>
      if key_leb (sort_key x) (sort_key y) then x :: l
      else y :: insert_sorted x r
  end.

Definition sorted_rows (l : list entry) : list entry :=
  fold_right insert_sorted [] l.

(** What [save_data] writes after the header, in order. *)
Definition save_rows (cache : dict entry) : list entry :=
  sorted_rows (dict_values (save_unique (dict_values cache) [])).

(** The row of an entry under the CIA header. *)
Definition cia_row (e : entry) : result (list string) :=
  let* v := (if float_truthy (ppp e)
             then let* n := int_of_float (ppp e) in Ok (fmt_grouped n)
             else Ok "0") in
  Ok [name e; slug e; v; date e; str_of_int (rank e); region e].

(** The row of an entry under the simple header. *)
Definition simple_row (e : entry) : result (list string) :=
  let* n := int_of_float (ppp e) in
  Ok [name e; str_of_int n; str_of_int (rank e)].

Definition format_row (fields : list string) (e : entry) : result (list string) :=
  if strings_eqb fields CIA_FIELDS then cia_row e else simple_row e.

(** Rows are written one at a time: an exception leaves the rows written
    before it in the file. *)
Fixpoint write_rows (fmt : entry -> result (list string)) (es : list entry)
  : list (list string) * result unit :=
  match es with
  | [] => ([], Ok tt)
  | e :: r =>
      match fmt e with
      | Ok row => let '(rows, st) := write_rows fmt r in (row :: rows, st)
      | Raise x => ([], Raise x)
      end
  end.

(** The file [save_data] leaves behind and how it ended. *)
Definition save_table (sch : schema) (cache : dict entry) : table * result unit :=
  let fields := _current_fieldnames sch in
  let '(rows, st) := write_rows (format_row fields) (save_rows cache) in
  (fields :: rows, st).

(** The file [rewrite_deleted] leaves behind and how it ended. *)
Definition rewrite_table (sch : schema) (items : list entry) : table * result unit :=
  let fields := _current_fieldnames sch in
  let '(rows, st) := write_rows (format_row fields) items in
  (fields :: rows, st).

(** The rows of an archive once the text of [row] has been appended to
    it, when its last line had no newline. *)
Definition glue_row (t : table) (row : list string) : table :=
  match t with
  | [] => [row]
  | _ => removelast t ++ glued (List.last t []) row
  end.

(** The file [append_deleted] leaves behind, whether its last line is
    without a newline, and how it ended.  The file is opened for
    appending: a header is written to a new file before the row is built,
    and the row is written after what the file holds, on the last line of
    it when that line is [open]. *)
Definition append_table (sch : schema) (e : entry) (file : option table)
    (open : bool) : option table * bool * result unit :=
  let fields := _current_fieldnames sch in
  match file with
  | None =>
      match format_row fields e with
      | Ok row => (Some [fields; row], false, Ok tt)
      | Raise x => (Some [fields], false, Raise x)
      end
  | Some t =>
      match format_row fields e with
      | Ok row =>
          (Some (if open then glue_row t row else t ++ [row]), false, Ok tt)
      | Raise x => (Some t, open, Raise x)
      end
  end.

(** The items of [load_deleted], each a new object. *)
Fixpoint load_deleted_rows (cia : bool) (fields : list string)
    (rows : list (list string)) (nid : nat) : result (list entry * nat) :=
  match rows with
  | [] => Ok ([], nid)
  | row :: rest =>
      let* e :=
        (if cia
         then
           let* p := _clean_number
                       (match row_get fields row "value" with
                        | Some s => PStr s
                        | None => PNone
                        end) in
           Ok {| oid := nid;
                 name := strip (or_empty (row_get fields row "name"));
                 ppp := p;
                 rank := _clean_int (row_get fields row "ranking");
                 slug := strip (or_empty (row_get fields row "slug"));
                 date := strip (or_empty (row_get fields row "date_of_information"));
                 region := strip (or_empty (row_get fields row "region")) |}
         else
           let* p := _clean_number
                       (match row_get fields row "ppp" with
                        | Some s => PStr s
                        | None => PNone
                        end) in
           Ok {| oid := nid;
                 name := strip (get_or fields row ["country"; "name"]);
                 ppp := p;
                 rank := _clean_int (row_get fields row "rank");
                 slug := ""; date := ""; region := "" |}) in
      let* (items, nid') := load_deleted_rows cia fields rest (S nid) in
      Ok (e :: items, nid')
  end.

(** [src/ppp_manager.py], [load_deleted]. *)
Definition load_deleted (file : option table) (nid : nat)
  : result (list entry * nat) :=
  match file with
  | None => Ok ([], nid)
  | Some t =>
      let headers := csv_fieldnames t in
      load_deleted_rows (cia_like headers) headers (csv_rows t) nid
  end.

(* ================================================================== *)
(** ** The process state and the menu operations *)

Record world : Type := mk_world {
  cache : dict entry;            (* the dict [main] passes around *)
  CURRENT_SCHEMA : schema;       (* the module global *)
  data_file : option table;      (* DATA_FILE, [None] when absent *)
  deleted_file : option table;   (* DELETED_FILE *)
  next_id : nat;                 (* identity of the next object created *)
  deleted_open : bool            (* the last line of DELETED_FILE has no
                                    newline *)
}.

Definition set_cache (c : dict entry) (w : world) : world :=
  mk_world c (CURRENT_SCHEMA w) (data_file w) (deleted_file w) (next_id w)
    (deleted_open w).

Definition set_data_file (f : option table) (w : world) : world :=
  mk_world (cache w) (CURRENT_SCHEMA w) f (deleted_file w) (next_id w)
    (deleted_open w).

Definition set_deleted_file (f : option table) (open : bool) (w : world) : world :=
  mk_world (cache w) (CURRENT_SCHEMA w) (data_file w) f (next_id w) open.

Definition set_next_id (n : nat) (w : world) : world :=
  mk_world (cache w) (CURRENT_SCHEMA w) (data_file w) (deleted_file w) n
    (deleted_open w).

(** [save_data(cache)] on the process state. *)
Definition save_data (w : world) : world * result unit :=
  let '(t, st) := save_table (CURRENT_SCHEMA w) (cache w) in
  (set_data_file (Some t) w, st).

(** [append_deleted(entry)] on the process state. *)
Definition append_deleted (e : entry) (w : world) : world * result unit :=
  let '(f, open, st) :=
    append_table (CURRENT_SCHEMA w) e (deleted_file w) (deleted_open w) in
  (set_deleted_file f open w, st).

(** [rewrite_deleted(items)] on the process state. *)
Definition rewrite_deleted (items : list entry) (w : world) : world * result unit :=
  let '(t, st) := rewrite_table (CURRENT_SCHEMA w) items in
  (set_deleted_file (Some t) false w, st).

(** [src/ppp_manager.py], [_find]. *)
Definition find_match (key : string) (v : entry) : bool :=
  String.eqb (_norm (name v)) key || String.eqb (_norm (slug v)) key.

Definition _find (cache : dict entry) (query : string) : option entry :=
  let key := _norm query in
  match dict_get key cache with
  | Some v => Some v
  | None => find (find_match key) (dict_values cache)
  end.

(** [src/ppp_manager.py], [update_country]; the arguments are the lines
    [input()] returns, the last three being read only under the schema
    flags. *)
Definition update_country (name_in ppp_in rank_in slug_in date_in region_in : string)
    (w : world) : world * result unit :=
  let name_ := strip name_in in
  match _clean_number (PStr (strip ppp_in)) with
  | Raise x => (w, Raise x)
  | Ok p =>
      let rank_ := _clean_int (Some (strip rank_in)) in
      let sch := CURRENT_SCHEMA w in
      let slug_ := if has_slug sch then strip slug_in else "" in
      let date_ := if has_date sch then strip date_in else "" in
      let region_ := if has_region sch then strip region_in else "" in
      let e := {| oid := next_id w; name := name_; ppp := p; rank := rank_;
                  slug := slug_; date := date_; region := region_ |} in
      let w1 := set_next_id (S (next_id w))
                  (set_cache (index_entry (_make_index_keys name_ slug_) e (cache w)) w) in
      save_data w1
  end.

(** [input().split(",")] *)
Fixpoint split_commas (s : string) : list string :=
  match s with
  | EmptyString => [EmptyString]
  | String c r =>
      if Ascii.eqb c ","
      then EmptyString :: split_commas r
      else
        match split_commas r with
        | [] => [String c EmptyString]
        | h :: t => String c h :: t
        end
  end.

(** The loop of [combined_ppp]: [total], [picked] and [missing] as they
    stand after the queries [names]. *)
Fixpoint combined_loop (cache : dict entry) (names : list string)
    (total : spec_float) (picked missing : list string)
  : spec_float * list string * list string :=
  match names with
  | [] => (total, picked, missing)
  | x :: r =>
      let q := strip x in
      if negb (truthy q) then combined_loop cache r total picked missing
      else
        match _find cache q with
        | Some e =>
            combined_loop cache r (fadd total (ppp e)) (picked ++ [name e]) missing
        | None => combined_loop cache r total picked (missing ++ [q])
        end
  end.

(** The total, the names found and the queries missed, from the start. *)
Definition combined_total (cache : dict entry) (names : list string)
  : spec_float * list string * list string :=
  combined_loop cache names (S754_zero false) [] [].

(** [", ".join(l)] *)
Definition join_comma (l : list string) : string := String.concat ", " l.

(** [src/ppp_manager.py], [combined_ppp]: the lines printed. *)
Definition combined_ppp (cache : dict entry) (line : string) : result (list string) :=
  let '(total, picked, missing) := combined_total cache (split_commas line) in
  let* body :=
    (if negb (is_nil picked)
     then
       let* n := int_of_float total in
       Ok [("Countries: " ++ join_comma picked)%string;
           ("Combined PPP: " ++ fmt_grouped n)%string]
     else Ok ["No valid countries found."]) in
  Ok ([""; "--- Combined PPP ---"] ++ body
      ++ (if negb (is_nil missing)
          then [("Missing: " ++ join_comma missing)%string] else [])
      ++ [""]).

(** What [delete_entry] reports. *)
Inductive delete_outcome : Type :=
| NotFound
| Deleted (e : entry).

(** [to_delete_keys = [k for k, v in cache.items() if v is e]] *)
Definition keys_of_object (e : entry) (cache : dict entry) : list string :=
  map fst (filter (fun kv => is_ (snd kv) e) cache).

Definition pop_all (keys : list string) (cache : dict entry) : dict entry :=
  fold_left (fun c k => dict_pop k c) keys cache.

(** [src/ppp_manager.py], [delete_entry]; [q_in] is the line read. *)
Definition delete_entry (q_in : string) (w : world) : world * result delete_outcome :=
  match _find (cache w) (strip q_in) with
  | None => (w, Ok NotFound)
  | Some e =>
      let w1 := set_cache (pop_all (keys_of_object e (cache w)) (cache w)) w in
      match append_deleted e w1 with
      | (w2, Raise x) => (w2, Raise x)
      | (w2, Ok _) =>
          match save_data w2 with
          | (w3, Raise x) => (w3, Raise x)
          | (w3, Ok _) => (w3, Ok (Deleted e))
          end
      end
  end.

(** The test [_find(cache, name) or (slug and _find(cache, slug))]. *)
Definition restore_conflict (cache : dict entry) (e : entry) : bool :=
  match _find cache (name e) with
  | Some _ => true
  | None =>
      truthy (slug e)
      && match _find cache (slug e) with
         | Some _ => true
         | None => false
         end
  end.

(** The loop of [merge_deleted_back]: the cache, the names restored and the
    items kept. *)
Fixpoint merge_loop (items : list entry) (cache : dict entry)
    (restored : list string) (keep_deleted : list entry)
  : dict entry * list string * list entry :=
  match items with
  | [] => (cache, restored, keep_deleted)
  | e :: r =>
      if restore_conflict cache e
      then merge_loop r cache restored (keep_deleted ++ [e])
      else
        merge_loop r (index_entry (_make_index_keys (name e) (slug e)) e cache)
          (restored ++ [name e]) keep_deleted
  end.

(** [src/ppp_manager.py], [merge_deleted_back]: the names restored, or
    [None] when there was nothing to merge. *)
Definition merge_deleted_back (w : world) : world * result (option (list string)) :=
  match load_deleted (deleted_file w) (next_id w) with
  | Raise x => (w, Raise x)
  | Ok (deleted_items, nid) =>
      let w0 := set_next_id nid w in
      if is_nil deleted_items then (w0, Ok None)
      else
        let '(cache', restored, keep_deleted) :=
          merge_loop deleted_items (cache w0) [] [] in
        let w1 := set_cache cache' w0 in
        match save_data w1 with
        | (w2, Raise x) => (w2, Raise x)
        | (w2, Ok _) =>
            match rewrite_deleted keep_deleted w2 with
            | (w3, Raise x) => (w3, Raise x)
            | (w3, Ok _) => (w3, Ok (Some restored))
            end
        end
  end.

(** [main] up to the menu: the state after [cache = load_data()]. *)
Definition start (file : option table) (deleted : option table)
  : result world :=
  let* (c, sch, nid) := load_data file default_schema 0%nat in
  Ok (mk_world c sch file deleted nid
        (match deleted with
         | Some _ => archive_open
         | None => false
         end)).


(* ================================================================== *)
(** ** The read-only menu operations *)

(** [src/ppp_manager.py], [_print_entry]: the lines printed; the line of
    the PPP needs [int] of the float. *)
Definition _print_entry (sch : schema) (e : entry) : result (list string) :=
  let* n := int_of_float (ppp e) in
  Ok ([""; "--- Entry ---"; ("Name   : " ++ name e)%string]
      ++ (if has_slug sch then [("Slug   : " ++ slug e)%string] else [])
      ++ [("PPP    : " ++ fmt_grouped n)%string;
          ("Rank   : " ++ str_of_int (rank e))%string]
      ++ (if has_date sch then [("Date   : " ++ date e)%string] else [])
      ++ (if has_region sch then [("Region : " ++ region e)%string] else [])
      ++ [""]).

(** [src/ppp_manager.py], [show_country]; [line] is the line read. *)
Definition show_country (sch : schema) (cache : dict entry) (line : string)
  : result (list string) :=
  match _find cache (strip line) with
  | Some e => _print_entry sch e
  | None => Ok ["Country not found."; ""]
  end.

(** [a > b] and [a < b] on floats. *)
Definition fgt (a b : spec_float) : bool := SFltb b a.
Definition flt (a b : spec_float) : bool := SFltb a b.

(** The last line [compare_two] prints for two records. *)
Definition compare_verdict (A B : entry) : string :=
  if fgt (ppp A) (ppp B) then ("=> " ++ name A ++ " has higher PPP.")%string
  else if flt (ppp A) (ppp B) then ("=> " ++ name B ++ " has higher PPP.")%string
  else "=> Both have equal PPP.".

(** The line [compare_two] prints for one record. *)
Definition compare_line (e : entry) : result string :=
  let* n := int_of_float (ppp e) in
  Ok (name e ++ ": PPP=" ++ fmt_grouped n ++ ", Rank=" ++ str_of_int (rank e))%string.

(** [src/ppp_manager.py], [compare_two]; the arguments are the two lines
    read. *)
Definition compare_two (cache : dict entry) (a_in b_in : string)
  : result (list string) :=
  match _find cache (strip a_in), _find cache (strip b_in) with
  | Some A, Some B =>
      let* la := compare_line A in
      let* lb := compare_line B in
      Ok [""; "--- Comparison ---"; la; lb; compare_verdict A B; ""]
  | _, _ => Ok ["One or both countries not found."; ""]
  end.

(* ================================================================== *)
(** ** The menu loop *)

(** How a run of [main] ends: the user quits, an exception leaves [main],
    or [input()] finds the standard input exhausted. *)
Inductive exit_status : Type :=
| Quit
| Crashed (x : exn)
| EndOfInput.

(** One turn of the menu after the choice has been read: the lines left on
    the standard input and the state, or the way the run ended. *)
Definition menu_turn (choice : string) (stdin : list string) (w : world)
  : (list string * world) + (world * exit_status) :=
  if String.eqb choice "1" then
    match stdin with
    | q :: rest =>
        match show_country (CURRENT_SCHEMA w) (cache w) q with
        | Ok _ => inl (rest, w)
        | Raise x => inr (w, Crashed x)
        end
    | [] => inr (w, EndOfInput)
    end
  else if String.eqb choice "2" then
    match stdin with
    | name_in :: ppp_in :: rest =>
        match _clean_number (PStr (strip ppp_in)) with
        | Raise x => inr (w, Crashed x)
        | Ok _ =>
            let sch := CURRENT_SCHEMA w in
            let opt (flag : bool) (l : list string) : option (string * list string) :=
              if flag then
                match l with
                | x :: l' => Some (x, l')
                | [] => None
                end
              else Some ("", l) in
            match rest with
            | rank_in :: rest1 =>
                match opt (has_slug sch) rest1 with
                | Some (slug_in, rest2) =>
                    match opt (has_date sch) rest2 with
                    | Some (date_in, rest3) =>
                        match opt (has_region sch) rest3 with
                        | Some (region_in, rest4) =>
                            match update_country name_in ppp_in rank_in
                                    slug_in date_in region_in w with
                            | (w', Ok _) => inl (rest4, w')
                            | (w', Raise x) => inr (w', Crashed x)
                            end
                        | None => inr (w, EndOfInput)
                        end
                    | None => inr (w, EndOfInput)
                    end
                | None => inr (w, EndOfInput)
                end
            | [] => inr (w, EndOfInput)
            end
        end
    | _ => inr (w, EndOfInput)
    end
  else if String.eqb choice "3" then
    match stdin with
    | a :: b :: rest =>
        match compare_two (cache w) a b with
        | Ok _ => inl (rest, w)
        | Raise x => inr (w, Crashed x)
        end
    | _ => inr (w, EndOfInput)
    end
  else if String.eqb choice "4" then
    match stdin with
    | line :: rest =>
        match combined_ppp (cache w) line with
        | Ok _ => inl (rest, w)
        | Raise x => inr (w, Crashed x)
        end
    | [] => inr (w, EndOfInput)
    end
  else if String.eqb choice "5" then
    match stdin with
    | q :: rest =>
        match delete_entry q w with
        | (w', Ok _) => inl (rest, w')
        | (w', Raise x) => inr (w', Crashed x)
        end
    | [] => inr (w, EndOfInput)
    end
  else if String.eqb choice "6" then
    match merge_deleted_back w with
    | (w', Ok _) => inl (stdin, w')
    | (w', Raise x) => inr (w', Crashed x)
    end
  else if String.eqb choice "7" then inr (w, Quit)
  else inl (stdin, w).

(** The [while True] loop of [main]; every turn reads at least the line of
    the choice, so [fuel] above the number of lines is never used up. *)
Fixpoint menu_loop (fuel : nat) (stdin : list string) (w : world)
  : world * exit_status :=
  match fuel with
  | O => (w, EndOfInput)
  | S fuel' =>
      match stdin with
      | [] => (w, EndOfInput)
      | line :: rest =>
          match menu_turn (strip line) rest w with
          | inl (rest', w') => menu_loop fuel' rest' w'
          | inr r => r
          end
      end
  end.

(** [src/ppp_manager.py], [main]: from the two files and the lines typed,
    to the final state and the way the run ended; [None] when [load_data]
    itself raised. *)
Definition main (file deleted : option table) (stdin : list string)
  : option (world * exit_status) :=
  match start file deleted with
  | Ok w => Some (menu_loop (S (List.length stdin)) stdin w)
  | Raise _ => None
  end.

(* ================================================================== *)
(** ** [reverse.py] *)

Definition LF : ascii := "010"%char.
Definition CR : ascii := "013"%char.

(** What [open(path, "r")] hands over for the text of a file: with
    universal newlines, ["\r\n"] and a lone ["\r"] are read as ["\n"]. *)
Fixpoint universal_newlines (s : string) : string :=
  match s with
  | EmptyString => EmptyString
  | String c r =>
      if Ascii.eqb c CR
      then
        match r with
        | String c' r' =>
            if Ascii.eqb c' LF then String LF (universal_newlines r')
            else String LF (universal_newlines r)
        | EmptyString => String LF EmptyString
        end
      else String c (universal_newlines r)
  end.

(** [f.readlines()]: the lines, each with its ["\n"]; the last line has
    none when the text does not end with one. *)
Fixpoint readlines (s : string) : list string :=
  match s with
  | EmptyString => []
  | String c r =>
      if Ascii.eqb c LF then String c EmptyString :: readlines r
      else
        match readlines r with
        | l :: ls => String c l :: ls
        | [] => [String c EmptyString]
        end
  end.

(** [line.split()]: the maximal runs of characters that are not white
    space. *)
Fixpoint split_ws (s : string) : list string :=
  match s with
  | EmptyString => []
  | String c r =>
      if py_isspace c then split_ws r
      else
        match r with
        | String c' _ =>
            if py_isspace c' then String c EmptyString :: split_ws r
            else
              match split_ws r with
              | w :: ws => String c w :: ws
              | [] => [String c EmptyString]
              end
        | EmptyString => [String c EmptyString]
        end
  end.

Definition sum_nat (l : list nat) : nat := fold_right Nat.add 0%nat l.

(** What [reverse_file] leaves in the output file and the two counts it
    prints. *)
Record reversed : Type := mk_reversed {
  output : string;
  char_count : nat;
  word_count : nat
}.

(** [src/reverse.py], [reverse_file], from the text of the input file. *)
Definition reverse_file (input : string) : reversed :=
  let lines := readlines (universal_newlines input) in
  {| output := String.concat "" (rev lines);
     char_count := sum_nat (map String.length lines);
     word_count := sum_nat (map (fun line => List.length (split_ws line)) lines) |}.

(* ================================================================== *)
(** * Vocabulary of the statements *)

(** The queries [combined_ppp] looks up: stripped, blanks left out. *)
Definition live_queries (names : list string) : list string :=
  filter truthy (map strip names).

(** The records found for a list of queries, in order. *)
Definition hits (store : dict entry) (qs : list string) : list entry :=
  flat_map (fun q => match _find store q with
                     | Some e => [e]
                     | None => []
                     end) qs.

(** The queries that find nothing, in order. *)
Definition misses (store : dict entry) (qs : list string) : list string :=
  filter (fun q => match _find store q with
                   | Some _ => false
                   | None => true
                   end) qs.

(** The cache is a dict: no key occurs twice. *)
Definition wf_dict {V : Type} (d : dict V) : Prop := NoDup (dict_keys d).

(** Two records [A] and [B] of a simple-schema store. *)
Definition rec_A : entry := mk_entry 0 "A" (Z2F 100) 1 "" "" "".
Definition rec_B : entry := mk_entry 1 "B" (Z2F 250) 2 "" "" "".
Definition store_AB : dict entry := [("a", rec_A); ("b", rec_B)].

(** A CIA-schema file whose first row has a slug and no name. *)
Definition nameless_file : table :=
  [CIA_FIELDS;
   [""; "s"; "5"; "2020"; "1"; "EU"];
   ["N"; ""; "7"; "2021"; "2"; "AS"]].

Definition nameless_v0 : entry := mk_entry 0 "" (Z2F 5) 1 "s" "2020" "EU".
Definition nameless_v1 : entry := mk_entry 1 "N" (Z2F 7) 2 "" "2021" "AS".
Definition nameless_store : dict entry :=
  [("s", nameless_v0); ("n", nameless_v1)].

(** A process started without files, under the CIA schema. *)
Definition empty_cia_world : world := mk_world [] cia_schema None None 0 false.

(** Two updates that share the slug [france-x]. *)
Definition world_france : world :=
  fst (update_country "France" "3,636,000,000,000" "10" "france-x" "2024" "Europe"
         empty_cia_world).

Definition world_france_germany : world :=
  fst (update_country "Germany" "5,000,000,000,000" "5" "france-x" "2024" "Europe"
         world_france).

Definition rec_france : entry :=
  mk_entry 0 "France" (Z2F 3636000000000) 10 "france-x" "2024" "Europe".

Definition rec_germany : entry :=
  mk_entry 1 "Germany" (Z2F 5000000000000) 5 "france-x" "2024" "Europe".

(** A CIA-schema file with two rows of the same name. *)
Definition twin_file : table :=
  [CIA_FIELDS;
   ["X"; "a"; "100"; "2020"; "1"; "EU"];
   ["X"; "b"; "250"; "2021"; "2"; "AS"]].





(** The test "has the dedup key [k]". *)
Definition has_key (k : string) (x : entry) : bool :=
  String.eqb (dedup_key x) k.

Definition all_finite (es : list entry) : Prop :=
  forall e, In e es -> is_finite (ppp e) = true.

(** What the dict [unique] of [save_data] satisfies throughout its loop. *)
Definition unique_ok (u : dict entry) : Prop :=
  wf_dict u /\ forall k v, In (k, v) u -> k = dedup_key v /\ k <> "".

(** The three results of the loop of [merge_deleted_back] from empty
    lists. *)
Definition cache_after (items : list entry) (c : dict entry) : dict entry :=
  fst (fst (merge_loop items c [] [])).

Definition restored_after (items : list entry) (c : dict entry) : list string :=
  snd (fst (merge_loop items c [] [])).

Definition kept_after (items : list entry) (c : dict entry) : list entry :=
  snd (merge_loop items c [] []).




(** A float is within the binary64 format: at most 53 bits of mantissa and
    an exponent of at most 971. *)
Definition in_format (f : spec_float) : Prop :=
  match f with
  | S754_finite _ m e => Zpos (digits2_pos m) <= 53 /\ e <= 971
  | _ => True
  end.

(** The triple of a record the round trip is about. *)
Definition triple (e : entry) : string * spec_float * Z :=
  (name e, ppp e, rank e).

(** [float(int(f))]: what a [ppp] becomes once written and read back. *)
Definition trunc_float (f : spec_float) : spec_float :=
  match int_of_float f with
  | Ok n => Z2F n
  | Raise _ => f
  end.

Definition truncated (e : entry) : string * spec_float * Z :=
  (name e, trunc_float (ppp e), rank e).

(** The keys a record is indexed under, from the fields it stores. *)
Definition index_keys (e : entry) : list string :=
  _make_index_keys (name e) (slug e).

(** Every record of the cache is bound under each of its own keys and under
    no other key. *)
Definition keyed_ok (c : dict entry) : Prop :=
  forall k v, dict_get k c = Some v ->
    In k (index_keys v)
    /\ forall k', In k' (index_keys v) -> dict_get k' c = Some v.

(** What [load_data] guarantees of the records it builds. *)
Definition shaped (simple : bool) (e : entry) : Prop :=
  strip (name e) = name e
  /\ strip (slug e) = slug e
  /\ (exists t, rank e = _clean_int t)
  /\ (simple = true -> slug e = "").

(** The record read back from the row written for [e]. *)
Definition reloaded (cia : bool) (e : entry) (nid : nat) : entry :=
  if cia
  then mk_entry nid (strip (name e)) (trunc_float (ppp e))
         (_clean_int (Some (str_of_int (rank e))))
         (strip (slug e)) (strip (date e)) (strip (region e))
  else mk_entry nid (strip (name e)) (trunc_float (ppp e))
         (_clean_int (Some (str_of_int (rank e)))) "" "" "".

(** The cache read back from the rows written for [es]. *)
Fixpoint reload_fold (cia : bool) (es : list entry) (c : dict entry) (nid : nat)
  : dict entry :=
  match es with
  | [] => c
  | e :: r =>
      reload_fold cia r (index_entry (index_keys e) (reloaded cia e nid) c) (S nid)
  end.

(** A simple-schema file with a row without a name. *)
Definition blank_name_file : table :=
  [SIMPLE_FIELDS; ["France"; "100"; "1"]; [""; "7"; "2"]].

(** A simple-schema file with headers and numbers in tolerated forms. *)
Definition tolerant_file : table :=
  [["Country"; "PPP"; "Rank"];
   [" France "; "$3,636,000,000,000"; "10"];
   ["Germany"; "5.5e12"; "0"];
   ["Italy"; "12.9"; "3.0"]].

(** The store [load_data] builds from [tolerant_file]. *)
Definition tolerant_store : dict entry :=
  [("france", mk_entry 0 "France" (Z2F 3636000000000) 10 "" "" "");
   ("germany", mk_entry 1 "Germany" (Z2F 5500000000000) 0 "" "" "");
   ("italy", mk_entry 2 "Italy" (S754_finite false 7262054399134925 (-49)) 3 "" "" "")].



(** Case analysis on the integer comparisons of a goal. *)
Ltac zbool :=
  repeat match goal with
    | |- context [(?a <=? ?b)%Z] => destruct (Z.leb_spec a b)
    | |- context [(?a =? ?b)%Z] => destruct (Z.eqb_spec a b)
    end;
  simpl; try reflexivity; try lia.


(** Object identities in a cache: every record was created before [n], and
    two records with the same identity are the same record. *)
Definition ids_ok (c : dict entry) (n : nat) : Prop :=
  (forall v, In v (dict_values c) -> (oid v < n)%nat)
  /\ (forall v1 v2, In v1 (dict_values c) -> In v2 (dict_values c) ->
                    oid v1 = oid v2 -> v1 = v2).

(** Case analysis on a character: its eight bits. *)
Ltac ascii_cases c :=
  destruct c as [[] [] [] [] [] [] [] []].


(** A number [_clean_number] can return for a text: not NaN, and within
    binary64. *)
Definition sound_number (f : spec_float) : Prop :=
  f <> S754_nan /\ in_format f.

(** A record as the program builds it: text fields without blanks around
    them, a number that is not NaN, and a rank that is read back as
    itself from its decimal text. *)
Definition entry_ok (e : entry) : Prop :=
  strip (name e) = name e
  /\ strip (slug e) = slug e
  /\ strip (date e) = date e
  /\ strip (region e) = region e
  /\ sound_number (ppp e)
  /\ _clean_int (Some (str_of_int (rank e))) = rank e.

(** A key is the normalised name or the normalised slug of the record it
    is bound to. *)
Definition binding_ok (k : string) (v : entry) : Prop :=
  k = _norm (name v) \/ k = _norm (slug v).

(** The cache as the program keeps it. *)
Definition store_ok (c : dict entry) : Prop :=
  wf_dict c
  /\ forall k v, dict_get k c = Some v -> binding_ok k v /\ entry_ok v.


(** A simple-schema store whose second record has an infinite [ppp], as
    read from the text ["1e999"]. *)
Definition store_huge : dict entry :=
  [("a", rec_A);
   ("huge", mk_entry 1 "Huge" (S754_infinity false) 2 "" "" "");
   ("b", mk_entry 2 "B" (Z2F 250) 3 "" "" "")].

Definition world_huge : world := mk_world store_huge default_schema None None 3 false.

(** The file [store_huge] is read from. *)
Definition huge_file : table :=
  [SIMPLE_FIELDS; ["A"; "100"; "1"]; ["Huge"; "1e999"; "2"]; ["B"; "250"; "3"]].

(** The report of [compare_two] with its two description lines exchanged. *)
Definition swap_report (out : list string) : list string :=
  match out with
  | [x; h; la; lb; v; z] => [x; h; lb; la; v; z]
  | _ => out
  end.

(** The data file holds what [save_data] writes for the cache, and that
    save went through. *)
Definition in_sync (w : world) : Prop :=
  exists t, save_table (CURRENT_SCHEMA w) (cache w) = (t, Ok tt)
            /\ data_file w = Some t.

(** Neither the cache nor the data file has changed since [w0]. *)
Definition untouched (w0 w : world) : Prop :=
  cache w = cache w0 /\ data_file w = data_file w0.

(** Lines typed at the menu: add Spain, show it, delete Italy, restore the
    archive, quit. *)
Definition demo_input : list string :=
  ["2"; "Spain"; "2,000"; "12"; " 1 "; " spain "; "5"; "italy"; "6"; "7"].



(** A line as [readlines] returns it when it is terminated: characters
    other than the newline, then one newline. *)
Fixpoint is_line (l : string) : bool :=
  match l with
  | EmptyString => false
  | String c r => if Ascii.eqb c LF then negb (truthy r) else is_line r
  end.

(** The text is empty or ends with a newline. *)
Fixpoint complete_lines (s : string) : bool :=
  match s with
  | EmptyString => true
  | String c r =>
      match r with
      | EmptyString => Ascii.eqb c LF
      | String _ _ => complete_lines r
      end
  end.

(** The text has no carriage return. *)
Definition no_cr (s : string) : bool :=
  forall_str (fun c => negb (Ascii.eqb c CR)) s.

(** [len(s.split())] *)
Definition words (s : string) : nat := List.length (split_ws s).

(** The character [c] before the text [r] begins a word of its own. *)
Definition starts_word (c : ascii) (r : string) : bool :=
  negb (py_isspace c)
  && match r with
     | EmptyString => true
     | String c' _ => py_isspace c'
     end.

(** A file with the six CIA columns, the first spelled in capitals. *)
Definition capitals_file : table :=
  [["NAME"; "slug"; "value"; "date_of_information"; "ranking"; "region"];
   ["France"; "fr"; "3,636"; "2024"; "10"; "Europe"]].

(** The cells [load_data] reads from a row of a simple-schema file. *)
Definition simple_name (fields row : list string) : string :=
  get_or fields row ["country"; "Country"; "name"].

Definition simple_ppp (fields row : list string) : string :=
  get_or fields row ["ppp"; "PPP"; "value"; "PPP (Int$)"].

Definition simple_rank (fields row : list string) : string :=
  get_or fields row ["rank"; "Rank"; "ranking"].

(** A simple-schema file with the same country twice, in different
    case. *)
Definition twice_file : table :=
  [SIMPLE_FIELDS; ["France"; "100"; "1"]; ["Spain"; "7"; "3"];
   [" FRANCE"; "250"; "2"]].
(* ================================================================== *)
(** * Properties *)

(** ** Strings *)

Lemma truthy_false (s : string) : truthy s = false <-> s = "".
Proof. destruct s; simpl; split; congruence. Qed.

Lemma truthy_true (s : string) : truthy s = true <-> s <> "".
Proof. destruct s; simpl; split; congruence. Qed.

Lemma lower_empty (s : string) : lower s = "" <-> s = "".
Proof. destruct s; simpl; split; congruence. Qed.

Lemma norm_blank (q : string) : strip q = "" -> _norm q = "".
Proof. unfold _norm. intros ->. reflexivity. Qed.

Lemma norm_empty_iff (s : string) : _norm s = "" <-> strip s = "".
Proof. unfold _norm. apply lower_empty. Qed.

(** ** Lists *)

Lemma find_ext_in {A : Type} (f g : A -> bool) (l : list A) :
  (forall x, In x l -> f x = g x) -> find f l = find g l.
Proof.
  induction l as [|x r IH]; intros H; simpl; [reflexivity|].
  rewrite (H x (or_introl eq_refl)).
  destruct (g x); [reflexivity|]. apply IH. intros y Hy. apply H. now right.
Qed.

(** ** Stripping *)

Section Strip.

Variable sp : ascii -> bool.

Lemma lstrip_idem (s : string) : lstrip_by sp (lstrip_by sp s) = lstrip_by sp s.
Proof.
  induction s as [|c r IH]; simpl; [reflexivity|].
  destruct (sp c) eqn:E; [exact IH|]. simpl. now rewrite E.
Qed.

Lemma rstrip_cons (c : ascii) (r : string) :
  rstrip_by sp (String c r)
  = match rstrip_by sp r with
    | EmptyString => if sp c then EmptyString else String c EmptyString
    | r' => String c r'
    end.
Proof. reflexivity. Qed.

Lemma rstrip_idem (s : string) : rstrip_by sp (rstrip_by sp s) = rstrip_by sp s.
Proof.
  induction s as [|c r IH]; [reflexivity|].
  rewrite rstrip_cons.
  destruct (rstrip_by sp r) as [|c' r'] eqn:E.
  - destruct (sp c) eqn:Ec; [reflexivity|].
    rewrite rstrip_cons. simpl. now rewrite Ec.
  - rewrite rstrip_cons, IH. reflexivity.
Qed.

Lemma rstrip_head (c : ascii) (r : string) :
  sp c = false -> exists r', rstrip_by sp (String c r) = String c r'.
Proof.
  intros E. simpl. destruct (rstrip_by sp r) as [|c' r'].
  - rewrite E. now exists "".
  - now exists (String c' r').
Qed.

Lemma strip_commute (s : string) :
  rstrip_by sp (lstrip_by sp s) = lstrip_by sp (rstrip_by sp s).
Proof.
  induction s as [|c r IH]; [reflexivity|].
  cbn [lstrip_by]. destruct (sp c) eqn:E.
  - rewrite IH. cbn [rstrip_by].
    destruct (rstrip_by sp r) as [|c' r'] eqn:Er.
    + rewrite E. reflexivity.
    + cbn [lstrip_by]. now rewrite E.
  - destruct (rstrip_head c r E) as [r' Hr]. rewrite Hr.
    cbn [lstrip_by]. now rewrite E.
Qed.

Lemma strip_by_idem (s : string) : strip_by sp (strip_by sp s) = strip_by sp s.
Proof.
  unfold strip_by.
  rewrite (strip_commute (rstrip_by sp s)), rstrip_idem, lstrip_idem.
  reflexivity.
Qed.

End Strip.

Lemma strip_idem (s : string) : strip (strip s) = strip s.
Proof. apply strip_by_idem. Qed.

Lemma norm_strip (s : string) : _norm (strip s) = _norm s.
Proof. unfold _norm. now rewrite strip_idem. Qed.

Lemma strip_empty : strip "" = "".
Proof. reflexivity. Qed.

(** ** The dictionary *)

Section Dict.

Context {V : Type}.
Implicit Types (d : dict V) (k : string) (v : V).

Lemma dict_get_set_same k v d : dict_get k (dict_set k v d) = Some v.
Proof.
  induction d as [|[k' v'] r IH]; simpl.
  - now rewrite String.eqb_refl.
  - destruct (String.eqb k' k) eqn:E; simpl; rewrite E; auto.
Qed.

Lemma dict_get_set_other k k' v d :
  k' <> k -> dict_get k' (dict_set k v d) = dict_get k' d.
Proof.
  intros N. induction d as [|[k0 v0] r IH]; simpl.
  - apply String.eqb_neq in N. rewrite String.eqb_sym. now rewrite N.
  - destruct (String.eqb k0 k) eqn:E; simpl.
    + apply String.eqb_eq in E. subst k0.
      assert (E' : String.eqb k k' = false)
        by (apply String.eqb_neq; congruence).
      now rewrite E'.
    + destruct (String.eqb k0 k'); auto.
Qed.

Lemma dict_get_none_keys k d : dict_get k d = None <-> ~ In k (dict_keys d).
Proof.
  induction d as [|[k0 v0] r IH]; simpl.
  - split; auto.
  - destruct (String.eqb k0 k) eqn:E.
    + apply String.eqb_eq in E. split; [discriminate|]. intros H.
      exfalso. apply H. now left.
    + apply String.eqb_neq in E. rewrite IH. split.
      * intros H [H1|H1]; auto.
      * intros H H1. apply H. now right.
Qed.

Lemma dict_get_in k v d : dict_get k d = Some v -> In (k, v) d.
Proof.
  induction d as [|[k0 v0] r IH]; simpl; [discriminate|].
  destruct (String.eqb k0 k) eqn:E.
  - apply String.eqb_eq in E. intros [= ->]. left. now subst.
  - intros H. right. auto.
Qed.

Lemma dict_get_in_values k v d : dict_get k d = Some v -> In v (dict_values d).
Proof.
  intros H. apply dict_get_in in H. unfold dict_values.
  apply in_map_iff. now exists (k, v).
Qed.

Lemma in_dict_get k v d : wf_dict d -> In (k, v) d -> dict_get k d = Some v.
Proof.
  unfold wf_dict. induction d as [|[k0 v0] r IH]; simpl; [tauto|].
  intros W H. inversion W as [|? ? Hn W']; subst.
  destruct H as [H|H].
  - inversion H; subst. now rewrite String.eqb_refl.
  - destruct (String.eqb k0 k) eqn:E.
    + apply String.eqb_eq in E. subst k0. exfalso. apply Hn.
      unfold dict_keys. apply in_map_iff. now exists (k, v).
    + auto.
Qed.

Lemma dict_keys_set k v d :
  dict_keys (dict_set k v d)
  = if dict_mem k d then dict_keys d else dict_keys d ++ [k].
Proof.
  unfold dict_mem. induction d as [|[k0 v0] r IH]; simpl; [reflexivity|].
  destruct (String.eqb k0 k) eqn:E; simpl; [reflexivity|].
  rewrite IH. destruct (dict_get k r); reflexivity.
Qed.

Lemma dict_values_set_new k v d :
  dict_get k d = None -> dict_values (dict_set k v d) = dict_values d ++ [v].
Proof.
  induction d as [|[k0 v0] r IH]; simpl; [reflexivity|].
  destruct (String.eqb k0 k) eqn:E; [discriminate|].
  intros H. simpl. now rewrite IH.
Qed.

Lemma dict_set_new k v d :
  dict_get k d = None -> dict_set k v d = d ++ [(k, v)].
Proof.
  induction d as [|[k0 v0] r IH]; simpl; [reflexivity|].
  destruct (String.eqb k0 k) eqn:E; [discriminate|].
  intros H. now rewrite IH.
Qed.

Lemma wf_dict_set k v d : wf_dict d -> wf_dict (dict_set k v d).
Proof.
  unfold wf_dict. intros W. rewrite dict_keys_set.
  unfold dict_mem. destruct (dict_get k d) eqn:E; [assumption|].
  apply dict_get_none_keys in E.
  apply NoDup_rev in W. rewrite <- (rev_involutive (dict_keys d ++ [k])).
  apply NoDup_rev. rewrite rev_app_distr. simpl. constructor; auto.
  now rewrite <- in_rev.
Qed.

Lemma dict_get_pop_other k k' d :
  k' <> k -> dict_get k' (dict_pop k d) = dict_get k' d.
Proof.
  intros N. induction d as [|[k0 v0] r IH]; simpl; [reflexivity|].
  destruct (String.eqb k0 k) eqn:E; simpl.
  - apply String.eqb_eq in E. subst k0.
    assert (E' : String.eqb k k' = false)
      by (apply String.eqb_neq; congruence).
    now rewrite E'.
  - destruct (String.eqb k0 k'); auto.
Qed.

Lemma dict_pop_absent k d : ~ In k (dict_keys d) -> dict_pop k d = d.
Proof.
  induction d as [|[k0 v0] r IH]; simpl; [reflexivity|].
  intros H. destruct (String.eqb k0 k) eqn:E.
  - apply String.eqb_eq in E. exfalso. apply H. now left.
  - f_equal. apply IH. intros H1. apply H. now right.
Qed.

(** Filtering on the values keeps a dict a dict. *)
Lemma wf_dict_filter (P : string * V -> bool) d :
  wf_dict d -> wf_dict (filter P d).
Proof.
  unfold wf_dict. induction d as [|[k0 v0] r IH]; simpl; [auto|].
  intros W. inversion W as [|? ? Hn W']; subst.
  destruct (P (k0, v0)); simpl; auto.
  constructor; auto. intros H. apply Hn.
  unfold dict_keys in *. apply in_map_iff in H.
  destruct H as [[k1 v1] [H1 H2]]. apply filter_In in H2.
  apply in_map_iff. exists (k1, v1). tauto.
Qed.

Lemma dict_get_filter (P : V -> bool) k d :
  dict_get k (filter (fun kv => P (snd kv)) d)
  = match dict_get k d with
    | Some v => if P v then Some v else
                  dict_get k (filter (fun kv => P (snd kv))
                                (dict_pop k d))
    | None => None
    end.
Proof.
  induction d as [|[k0 v0] r IH]; simpl; [reflexivity|].
  destruct (String.eqb k0 k) eqn:E.
  - destruct (P v0) eqn:EP; simpl; [now rewrite E | reflexivity].
  - destruct (P v0) eqn:EP; simpl.
    + rewrite E, IH. destruct (dict_get k r); [|reflexivity].
      destruct (P v); [reflexivity|]. now rewrite EP; simpl; rewrite E.
    + rewrite IH. destruct (dict_get k r); [|reflexivity].
      destruct (P v); [reflexivity|]. now rewrite EP.
Qed.

Lemma dict_get_filter_wf (P : V -> bool) k d :
  wf_dict d ->
  dict_get k (filter (fun kv => P (snd kv)) d)
  = match dict_get k d with
    | Some v => if P v then Some v else None
    | None => None
    end.
Proof.
  unfold wf_dict. induction d as [|[k0 v0] r IH]; simpl; [reflexivity|].
  intros W. inversion W as [|? ? Hn W']; subst.
  destruct (String.eqb k0 k) eqn:E.
  - apply String.eqb_eq in E. subst k0.
    destruct (P v0) eqn:EP; simpl.
    + now rewrite String.eqb_refl.
    + rewrite (IH W').
      assert (G : dict_get k r = None) by now apply dict_get_none_keys.
      now rewrite G.
  - destruct (P v0) eqn:EP; simpl; [rewrite E|]; now apply IH.
Qed.

End Dict.

Lemma wf_start_nil {V : Type} : wf_dict (@nil (string * V)).
Proof. constructor. Qed.

(** ** Indexing a record *)

Lemma index_entry_get_in (keys : list string) (e : entry) (c : dict entry) (k : string) :
  In k keys -> dict_get k (index_entry keys e c) = Some e.
Proof.
  unfold index_entry. revert c.
  induction keys as [|k0 r IH]; intros c H; simpl; [destruct H|].
  destruct (in_dec string_dec k r) as [Hr|Hr].
  - now apply IH.
  - destruct H as [->|H]; [|contradiction].
    clear IH. revert c. induction r as [|k1 r IH]; intros c; simpl.
    + apply dict_get_set_same.
    + assert (N : k <> k1) by (intros ->; apply Hr; now left).
      assert (Hr' : ~ In k r) by (intros H; apply Hr; now right).
      specialize (IH Hr').
      change (fold_left (fun c0 k0 => dict_set k0 e c0) r
                (dict_set k1 e (dict_set k e c)))
        with (index_entry r e (dict_set k1 e (dict_set k e c))).
      assert (G : forall c0, dict_get k c0 = Some e ->
                  dict_get k (index_entry r e c0) = Some e).
      { clear - Hr'. unfold index_entry. induction r as [|k2 r IH]; intros c0 H; simpl; auto.
        apply IH.
        - intros H1. apply Hr'. now right.
        - rewrite dict_get_set_other; auto. intros ->. apply Hr'. now left. }
      apply G. rewrite dict_get_set_other by auto. apply dict_get_set_same.
Qed.

Lemma index_entry_get_out (keys : list string) (e : entry) (c : dict entry) (k : string) :
  ~ In k keys -> dict_get k (index_entry keys e c) = dict_get k c.
Proof.
  unfold index_entry. revert c.
  induction keys as [|k0 r IH]; intros c H; simpl; [reflexivity|].
  rewrite IH by (intros H1; apply H; now right).
  apply dict_get_set_other. intros ->. apply H. now left.
Qed.

Lemma wf_index_entry (keys : list string) (e : entry) (c : dict entry) :
  wf_dict c -> wf_dict (index_entry keys e c).
Proof.
  unfold index_entry. revert c.
  induction keys as [|k0 r IH]; intros c W; simpl; auto.
  apply IH. now apply wf_dict_set.
Qed.

Lemma make_index_keys_in (n s k : string) :
  In k (_make_index_keys n s)
  <-> (n <> "" /\ k = _norm n) \/ (s <> "" /\ k = _norm s).
Proof.
  unfold _make_index_keys.
  destruct n as [|c n]; simpl truthy; cbn iota.
  - destruct s as [|c s]; simpl; [intuition congruence|].
    split.
    + intros [H|[]]. right. split; [discriminate|auto].
    + intros [[H _]|[_ H]]; [congruence|]. now left.
  - destruct s as [|c' s]; cbn [truthy andb].
    + simpl. split.
      * intros [H|[]]. left. split; [discriminate|auto].
      * intros [[_ H]|[H _]]; [now left|congruence].
    + unfold str_in. cbn [existsb]. rewrite orb_false_r.
      destruct (String.eqb (_norm (String c' s)) (_norm (String c n))) eqn:E; simpl.
      * apply String.eqb_eq in E. rewrite E. split.
        -- intros [H|[]]. left. split; [discriminate|auto].
        -- intros [[_ H]|[_ H]]; now left.
      * destruct (key_order _ _); split.
        -- intros [H|[H|[]]]; [right|left]; (split; [discriminate|auto]).
        -- intros [[_ H]|[_ H]]; simpl; auto.
        -- intros [H|[H|[]]]; [left|right]; (split; [discriminate|auto]).
        -- intros [[_ H]|[_ H]]; simpl; auto.
Qed.

(** ** Lookup *)

Lemma find_in_values (c : dict entry) (q : string) (v : entry) :
  _find c q = Some v -> In v (dict_values c).
Proof.
  unfold _find. destruct (dict_get (_norm q) c) as [u|] eqn:E.
  - intros [= <-]. now apply dict_get_in_values in E.
  - intros H. now apply find_some in H.
Qed.

Lemma find_direct (c : dict entry) (q : string) (v : entry) :
  dict_get (_norm q) c = Some v -> _find c q = Some v.
Proof. unfold _find. now intros ->. Qed.


(** ** The aggregate sum *)

Section Combined.

Variable store : dict entry.

Lemma combined_loop_spec (names : list string) :
  forall total picked missing,
    combined_loop store names total picked missing =
    (fold_left fadd (map ppp (hits store (live_queries names))) total,
     picked ++ map name (hits store (live_queries names)),
     missing ++ misses store (live_queries names)).
Proof.
  unfold live_queries.
  induction names as [|x r IH]; intros total picked missing; simpl.
  - now rewrite !List.app_nil_r.
  - destruct (truthy (strip x)) eqn:Hq; simpl.
    + unfold hits, misses in *. simpl.
      destruct (_find store (strip x)) as [e|] eqn:Hf; simpl.
      * rewrite IH. now rewrite <- List.app_assoc.
      * rewrite IH. now rewrite <- List.app_assoc.
    + apply IH.
Qed.

Lemma hits_none (qs : list string) :
  (forall q, In q qs -> _find store q = None) -> hits store qs = [].
Proof.
  induction qs as [|q r IH]; intros H; simpl; [reflexivity|].
  rewrite (H q (or_introl eq_refl)). simpl. apply IH.
  intros q' Hq'. apply H. now right.
Qed.

Lemma misses_all (qs : list string) :
  (forall q, In q qs -> _find store q = None) -> misses store qs = qs.
Proof.
  induction qs as [|q r IH]; intros H; simpl; [reflexivity|].
  rewrite (H q (or_introl eq_refl)). f_equal. apply IH.
  intros q' Hq'. apply H. now right.
Qed.

End Combined.

(** C9.  A query that is empty or blank once stripped is skipped by
    [combined_ppp]: dropping it from the list of queries changes neither
    the total, nor the names found, nor the queries reported missing. *)
Theorem combined_skips_blank_queries
    (store : dict entry) (pre post : list string) (x : string) :
  strip x = "" ->
  combined_total store (pre ++ x :: post) = combined_total store (pre ++ post)
  /\ ~ In (strip x) (live_queries (pre ++ x :: post)).
Proof.
  intros Hx. split.
  - unfold combined_total. rewrite !combined_loop_spec. unfold live_queries.
    rewrite !map_app, !filter_app. simpl. now rewrite Hx.
  - unfold live_queries. rewrite filter_In. rewrite Hx. simpl.
    intros [_ H]. discriminate.
Qed.

(** C7, amended.  The loop of [combined_ppp] is a total function of the
    store and the queries.  It sums [ppp] over the queries that find a
    record, collects the names found, and collects the stripped, not
    lower-cased, text of the queries that find nothing, all in the order
    given; when no query finds a record the total is zero, nothing is
    found, and the report is printed without an exception.  With records
    [A] (100) and [B] (250) the queries [A, B, C] give 350, [A; B] and
    [C]. *)
Theorem combined_total_spec (store : dict entry) (names : list string) :
  combined_total store names =
    (fold_left fadd (map ppp (hits store (live_queries names))) (S754_zero false),
     map name (hits store (live_queries names)),
     misses store (live_queries names))
  /\ ((forall q, In q (live_queries names) -> _find store q = None) ->
      combined_total store names = (S754_zero false, [], live_queries names))
  /\ (forall line,
        (forall q, In q (live_queries (split_commas line)) -> _find store q = None) ->
        exists out, combined_ppp store line = Ok out)
  /\ combined_total store_AB ["A"; "B"; "C"] = (Z2F 350, ["A"; "B"], ["C"]).
Proof.
  assert (E : forall l, combined_total store l =
    (fold_left fadd (map ppp (hits store (live_queries l))) (S754_zero false),
     map name (hits store (live_queries l)),
     misses store (live_queries l))).
  { intros l. unfold combined_total. now rewrite combined_loop_spec. }
  split; [apply E|]. split; [|split].
  - intros H. rewrite E, hits_none, misses_all by assumption. reflexivity.
  - intros line H. unfold combined_ppp.
    rewrite E, hits_none, misses_all by assumption. simpl.
    eexists. reflexivity.
  - vm_compute. reflexivity.
Qed.

(** ** Lookup with a blank query *)

Lemma find_blank (store : dict entry) (q : string) :
  strip q = "" -> dict_get "" store = None ->
  _find store q = find (find_match "") (dict_values store).
Proof.
  intros Hq Hk. unfold _find. rewrite (norm_blank q Hq), Hk. reflexivity.
Qed.

(** C10, amended.  In a store with a record whose slug is empty and with no
    empty key, a query that is empty or blank finds a record: the first one,
    in iteration order, whose normalised name or normalised slug is empty.
    When no record has an empty normalised name, that is the first record
    with an empty normalised slug. *)
Theorem find_blank_returns_record (store : dict entry) (q : string) :
  (exists v, In v (dict_values store) /\ slug v = "") ->
  dict_get "" store = None ->
  strip q = "" ->
  exists v,
    _find store q = Some v
    /\ In v (dict_values store)
    /\ find (find_match "") (dict_values store) = Some v
    /\ (_norm (name v) = "" \/ _norm (slug v) = "")
    /\ ((forall u, In u (dict_values store) -> _norm (name u) <> "") ->
        find (fun u => String.eqb (_norm (slug u)) "") (dict_values store)
        = Some v).
Proof.
  intros [v0 [Hin Hs]] Hk Hq.
  rewrite (find_blank store q Hq Hk).
  destruct (find (find_match "") (dict_values store)) as [v|] eqn:Hf.
  - exists v. destruct (find_some _ _ Hf) as [Hv Hm].
    repeat split; auto.
    + unfold find_match in Hm. apply orb_true_iff in Hm.
      destruct Hm as [Hm|Hm]; apply String.eqb_eq in Hm; auto.
    + intros Hn. rewrite <- Hf. apply find_ext_in.
      intros u Hu. unfold find_match.
      assert (E : String.eqb (_norm (name u)) "" = false).
      { apply String.eqb_neq. now apply Hn. }
      now rewrite E.
  - exfalso. apply (find_none _ _ Hf) in Hin.
    unfold find_match in Hin. rewrite Hs in Hin.
    rewrite orb_true_r in Hin. discriminate.
Qed.

(** ** The numeric normaliser on the documented inputs *)

(** C1.  [_clean_number] gives zero on the malformed texts [""] and
    ["n/a"], but on ["none"] the fallback keeps the letter [e] and the
    second call of [float] raises [ValueError], which nothing catches. *)
Theorem clean_number_raises_on_none :
  _clean_number (PStr "") = Ok (S754_zero false)
  /\ _clean_number (PStr "n/a") = Ok (S754_zero false)
  /\ _clean_number (PStr "none") = Raise ValueError.
Proof. vm_compute. auto. Qed.

(** Other texts on which [_clean_number] raises. *)
Lemma clean_number_raises_more :
  _clean_number (PStr "-") = Raise ValueError
  /\ _clean_number (PStr "N.A.") = Raise ValueError
  /\ _clean_number (PStr "1.2.3") = Raise ValueError
  /\ _clean_number (PStr "unavailable") = Raise ValueError.
Proof. vm_compute. auto. Qed.

(** C2, amended.  ["27,700,000,000,000"] and ["27.7e12"] are both read as
    the float 27700000000000, exactly; ["$33,598,000,000,000"] is read as
    the float 33598000000000; the int 27700000000000 is converted to the
    same float as the two texts, and a float is returned as it is. *)
Theorem clean_number_documented_forms :
  _clean_number (PStr "27,700,000,000,000") = Ok (Z2F 27700000000000)
  /\ _clean_number (PStr "27.7e12") = Ok (Z2F 27700000000000)
  /\ _clean_number (PStr "$33,598,000,000,000") = Ok (Z2F 33598000000000)
  /\ _clean_number (PInt 27700000000000) = Ok (Z2F 27700000000000)
  /\ (forall f, _clean_number (PFloat f) = Ok f)
  /\ int_of_float (Z2F 27700000000000) = Ok 27700000000000
  /\ int_of_float (Z2F 33598000000000) = Ok 33598000000000.
Proof.
  repeat split; try (vm_compute; reflexivity).
Qed.

(** ** Saving: deduplication and order *)


Lemma format_row_finite (fields : list string) (e : entry) :
  is_finite (ppp e) = true -> exists row, format_row fields e = Ok row.
Proof.
  unfold format_row, cia_row, simple_row.
  destruct (ppp e) as [s|s| |s m x]; simpl; try discriminate; intros _;
    destruct (strings_eqb fields CIA_FIELDS); eexists; reflexivity.
Qed.





Lemma insert_sorted_perm (x : entry) (l : list entry) :
  Permutation (insert_sorted x l) (x :: l).
Proof.
  induction l as [|y r IH]; simpl; [reflexivity|].
  destruct (key_leb (sort_key x) (sort_key y)); [reflexivity|].
  rewrite IH. apply perm_swap.
Qed.

Lemma sorted_rows_perm (l : list entry) : Permutation (sorted_rows l) l.
Proof.
  induction l as [|x r IH]; simpl; [reflexivity|].
  rewrite insert_sorted_perm. now constructor.
Qed.



Lemma save_unique_ok (vals : list entry) :
  forall u, unique_ok u -> unique_ok (save_unique vals u).
Proof.
  induction vals as [|v r IH]; intros u U; simpl; [assumption|].
  destruct (truthy (dedup_key v)) eqn:T; simpl; [|auto].
  unfold dict_mem. destruct (dict_get (dedup_key v) u) eqn:G; simpl; [auto|].
  apply IH. destruct U as [W K]. split.
  - now apply wf_dict_set.
  - intros k x H. rewrite (dict_set_new _ _ _ G) in H.
    apply in_app_or in H. destruct H as [H|[H|[]]]; [auto|].
    inversion H; subst. split; [reflexivity|]. now apply truthy_true.
Qed.

Lemma save_unique_get (vals : list entry) :
  forall u k,
    dict_get k (save_unique vals u)
    = match dict_get k u with
      | Some v => Some v
      | None => if truthy k then find (has_key k) vals else None
      end.
Proof.
  induction vals as [|v r IH]; intros u k; simpl.
  - destruct (dict_get k u); [reflexivity|]. now destruct (truthy k).
  - unfold has_key at 1.
    destruct (String.eqb (dedup_key v) k) eqn:E.
    + apply String.eqb_eq in E. subst k.
      destruct (truthy (dedup_key v)) eqn:T; simpl.
      * unfold dict_mem. destruct (dict_get (dedup_key v) u) eqn:G; simpl.
        -- now rewrite IH, G.
        -- now rewrite IH, dict_get_set_same.
      * rewrite IH, T. reflexivity.
    + apply String.eqb_neq in E.
      destruct (truthy (dedup_key v) && negb (dict_mem (dedup_key v) u)).
      * rewrite IH, dict_get_set_other by congruence. reflexivity.
      * apply IH.
Qed.

Lemma unique_keys_values (u : dict entry) :
  unique_ok u -> map dedup_key (dict_values u) = dict_keys u.
Proof.
  intros [_ K]. unfold dict_values, dict_keys. rewrite map_map.
  apply map_ext_in. intros [k v] H. destruct (K k v H) as [-> _]. reflexivity.
Qed.

Lemma find_has_key_unique (k : string) (l : list entry) (v : entry) :
  NoDup (map dedup_key l) -> In v l -> dedup_key v = k ->
  find (has_key k) l = Some v.
Proof.
  induction l as [|x r IH]; intros N H E; [destruct H|].
  simpl in N. inversion N as [|? ? Hn N']; subst.
  simpl. unfold has_key at 1. destruct H as [->|H].
  - now rewrite String.eqb_refl.
  - destruct (String.eqb (dedup_key x) (dedup_key v)) eqn:E.
    + apply String.eqb_eq in E. exfalso. apply Hn. rewrite E.
      now apply in_map.
    + auto.
Qed.

Lemma find_has_key_none (k : string) (l : list entry) :
  (forall v, In v l -> dedup_key v <> k) -> find (has_key k) l = None.
Proof.
  induction l as [|x r IH]; intros H; simpl; [reflexivity|].
  unfold has_key at 1.
  assert (E : String.eqb (dedup_key x) k = false).
  { apply String.eqb_neq. apply H. now left. }
  rewrite E. apply IH. intros v Hv. apply H. now right.
Qed.

(** With distinct keys, [find] by key does not depend on the order. *)
Lemma find_has_key_perm (k : string) (l l' : list entry) :
  NoDup (map dedup_key l) -> Permutation l l' ->
  find (has_key k) l = find (has_key k) l'.
Proof.
  intros N P.
  assert (N' : NoDup (map dedup_key l')).
  { eapply Permutation_NoDup; [|exact N]. now apply Permutation_map. }
  destruct (find (has_key k) l) as [v|] eqn:F.
  - destruct (find_some _ _ F) as [Hin Hk]. apply String.eqb_eq in Hk.
    symmetry. apply find_has_key_unique; auto.
    eapply Permutation_in; eassumption.
  - symmetry. apply find_has_key_none. intros v Hv E.
    assert (Hin : In v l) by (eapply Permutation_in; [symmetry|]; eassumption).
    pose proof (find_none _ _ F v Hin) as Hf.
    unfold has_key in Hf. apply String.eqb_neq in Hf. contradiction.
Qed.

Lemma dict_get_find_values (u : dict entry) (k : string) :
  unique_ok u -> dict_get k u = find (has_key k) (dict_values u).
Proof.
  intros U. pose proof (unique_keys_values u U) as KV. destruct U as [W K].
  destruct (dict_get k u) as [v|] eqn:G.
  - symmetry. apply find_has_key_unique.
    + now rewrite KV.
    + now apply dict_get_in_values in G.
    + apply dict_get_in in G. destruct (K k v G) as [-> _]. reflexivity.
  - symmetry. apply find_has_key_none. intros v Hv E.
    apply dict_get_none_keys in G. apply G. rewrite <- KV, <- E.
    now apply in_map.
Qed.

Lemma unique_ok_nil : unique_ok [].
Proof. split; [constructor|]. intros k v []. Qed.

Lemma save_rows_perm (c : dict entry) :
  Permutation (save_rows c) (dict_values (save_unique (dict_values c) [])).
Proof. apply sorted_rows_perm. Qed.

Lemma save_rows_find (c : dict entry) (k : string) :
  find (has_key k) (save_rows c)
  = if truthy k then find (has_key k) (dict_values c) else None.
Proof.
  pose proof (save_unique_ok (dict_values c) [] unique_ok_nil) as U.
  rewrite <- (find_has_key_perm k _ _
                (eq_ind_r (@NoDup string) (proj1 U) (unique_keys_values _ U))
                (Permutation_sym (save_rows_perm c))).
  rewrite <- dict_get_find_values by assumption.
  rewrite save_unique_get. reflexivity.
Qed.

Lemma save_rows_nodup (c : dict entry) : NoDup (map dedup_key (save_rows c)).
Proof.
  pose proof (save_unique_ok (dict_values c) [] unique_ok_nil) as U.
  eapply Permutation_NoDup.
  - apply Permutation_map. symmetry. apply save_rows_perm.
  - rewrite unique_keys_values by assumption. exact (proj1 U).
Qed.

Lemma save_rows_in (c : dict entry) (e : entry) :
  In e (save_rows c) -> In e (dict_values c) /\ dedup_key e <> "".
Proof.
  intros H.
  assert (F : find (has_key (dedup_key e)) (save_rows c) = Some e).
  { apply find_has_key_unique; auto. apply save_rows_nodup. }
  rewrite save_rows_find in F.
  destruct (truthy (dedup_key e)) eqn:T; [|discriminate].
  split; [|now apply truthy_true]. now apply find_some in F.
Qed.

Lemma write_rows_ok (fmt : entry -> result (list string)) (es : list entry) :
  (forall e, In e es -> exists row, fmt e = Ok row) ->
  exists rows, mapM fmt es = Ok rows /\ write_rows fmt es = (rows, Ok tt).
Proof.
  induction es as [|e r IH]; intros H; simpl.
  - now exists [].
  - destruct (H e (or_introl eq_refl)) as [row Hrow]. rewrite Hrow. simpl.
    destruct IH as [rows [H1 H2]]; [intros x Hx; apply H; now right|].
    rewrite H1, H2. simpl. now exists (row :: rows).
Qed.

Lemma save_table_ok (sch : schema) (c : dict entry) :
  all_finite (save_rows c) ->
  exists rows,
    mapM (format_row (_current_fieldnames sch)) (save_rows c) = Ok rows
    /\ save_table sch c = (_current_fieldnames sch :: rows, Ok tt).
Proof.
  intros H. unfold save_table.
  destruct (write_rows_ok (format_row (_current_fieldnames sch)) (save_rows c))
    as [rows [H1 H2]].
  - intros e He. apply format_row_finite. now apply H.
  - exists rows. now rewrite H2.
Qed.


(** ** Adding or updating a record *)

Lemma cache_save_data (w : world) : cache (fst (save_data w)) = cache w.
Proof.
  unfold save_data. destruct (save_table (CURRENT_SCHEMA w) (cache w)).
  reflexivity.
Qed.

Lemma schema_save_data (w : world) :
  CURRENT_SCHEMA (fst (save_data w)) = CURRENT_SCHEMA w.
Proof.
  unfold save_data. destruct (save_table (CURRENT_SCHEMA w) (cache w)).
  reflexivity.
Qed.

Lemma deleted_save_data (w : world) :
  deleted_file (fst (save_data w)) = deleted_file w.
Proof.
  unfold save_data. destruct (save_table (CURRENT_SCHEMA w) (cache w)).
  reflexivity.
Qed.

(** C4, amended.  After [update_country] with a name and a slug that are
    not blank, under a schema with slugs, [_find] on the name and [_find]
    on the slug return the same object, the record just entered; every key
    other than these two is bound as before, so another record stays
    reachable under each of its keys that the new record did not take. *)
Theorem update_country_dual_key
    (w : world) (name_in ppp_in rank_in slug_in date_in region_in : string)
    (p : spec_float) :
  has_slug (CURRENT_SCHEMA w) = true ->
  strip name_in <> "" ->
  strip slug_in <> "" ->
  _clean_number (PStr (strip ppp_in)) = Ok p ->
  let w' := fst (update_country name_in ppp_in rank_in slug_in date_in region_in w) in
  exists e,
    _find (cache w') name_in = Some e
    /\ _find (cache w') slug_in = Some e
    /\ oid e = next_id w
    /\ name e = strip name_in
    /\ slug e = strip slug_in
    /\ ppp e = p
    /\ (forall k, k <> _norm name_in -> k <> _norm slug_in ->
                  dict_get k (cache w') = dict_get k (cache w)).
Proof.
  intros Hs Hn Hl Hp w'. subst w'. unfold update_country.
  rewrite Hp, Hs. rewrite cache_save_data. cbn [cache set_next_id set_cache].
  eexists. split; [|split; [|split; [|split; [|split; [|split]]]]].
  - apply find_direct. apply index_entry_get_in.
    apply make_index_keys_in. left. split; [assumption|].
    symmetry. apply norm_strip.
  - apply find_direct. apply index_entry_get_in.
    apply make_index_keys_in. right. split; [assumption|].
    symmetry. apply norm_strip.
  - reflexivity.
  - reflexivity.
  - reflexivity.
  - reflexivity.
  - intros k N1 N2. apply index_entry_get_out.
    rewrite make_index_keys_in, !norm_strip. tauto.
Qed.

(** ** Deleting a record *)

Lemma pop_all_cons_out (ks : list string) (k0 : string) (v0 : entry) (r : dict entry) :
  ~ In k0 ks -> pop_all ks ((k0, v0) :: r) = (k0, v0) :: pop_all ks r.
Proof.
  unfold pop_all. revert r.
  induction ks as [|k ks IH]; intros r H; simpl; [reflexivity|].
  assert (E : String.eqb k0 k = false).
  { apply String.eqb_neq. intros ->. apply H. now left. }
  rewrite E. apply IH. intros H1. apply H. now right.
Qed.

Lemma keys_of_object_subset (e : entry) (c : dict entry) (k : string) :
  In k (keys_of_object e c) -> In k (dict_keys c).
Proof.
  unfold keys_of_object, dict_keys. rewrite !in_map_iff.
  intros [kv [H1 H2]]. apply filter_In in H2. exists kv. tauto.
Qed.

(** Popping every key bound to the object [e] leaves exactly the bindings
    of the other objects, in their order. *)
Lemma pop_all_keys_of_object (e : entry) (c : dict entry) :
  wf_dict c ->
  pop_all (keys_of_object e c) c = filter (fun kv => negb (is_ (snd kv) e)) c.
Proof.
  unfold wf_dict. induction c as [|[k0 v0] r IH]; intros W; [reflexivity|].
  inversion W as [|? ? Hn W']; subst.
  unfold keys_of_object. cbn [filter snd].
  destruct (is_ v0 e) eqn:E; cbn [negb map fst].
  - unfold pop_all. cbn [fold_left dict_pop]. rewrite String.eqb_refl.
    apply (IH W').
  - fold (keys_of_object e r). rewrite pop_all_cons_out.
    + f_equal. apply (IH W').
    + intros H. apply Hn. now apply keys_of_object_subset in H.
Qed.


Lemma cache_delete_entry (q_in : string) (w : world) (e : entry) :
  _find (cache w) (strip q_in) = Some e ->
  cache (fst (delete_entry q_in w))
  = pop_all (keys_of_object e (cache w)) (cache w).
Proof.
  intros He. unfold delete_entry. rewrite He.
  unfold append_deleted. cbn [CURRENT_SCHEMA set_cache deleted_file].
  destruct (append_table _ _ _ _) as [[f o] [u|x]]; [|reflexivity].
  match goal with
  | |- context [save_data ?w0] =>
      pose proof (cache_save_data w0) as Hs;
      destruct (save_data w0) as [w3 [u'|x]]
  end; cbn [fst] in *; rewrite Hs; reflexivity.
Qed.


(** ** Restoring from the archive *)

Lemma merge_loop_acc (items : list entry) :
  forall c rs ks,
    merge_loop items c rs ks
    = (cache_after items c, rs ++ restored_after items c, ks ++ kept_after items c).
Proof.
  unfold cache_after, restored_after, kept_after.
  induction items as [|e r IH]; intros c rs ks; simpl.
  - now rewrite !List.app_nil_r.
  - destruct (restore_conflict c e).
    + rewrite (IH c rs (ks ++ [e])), (IH c [] [e]). simpl.
      now rewrite <- List.app_assoc.
    + rewrite (IH _ (rs ++ [name e]) ks), (IH _ [name e] []). simpl.
      now rewrite <- List.app_assoc.
Qed.

Lemma merge_after_cons (e : entry) (r : list entry) (c : dict entry) :
  (restore_conflict c e = true ->
     cache_after (e :: r) c = cache_after r c
     /\ kept_after (e :: r) c = e :: kept_after r c
     /\ restored_after (e :: r) c = restored_after r c)
  /\ (restore_conflict c e = false ->
      let c1 := index_entry (_make_index_keys (name e) (slug e)) e c in
      cache_after (e :: r) c = cache_after r c1
      /\ kept_after (e :: r) c = kept_after r c1
      /\ restored_after (e :: r) c = name e :: restored_after r c1).
Proof.
  unfold cache_after at 1 3, kept_after at 1 3, restored_after at 1 3.
  simpl. split; intros H; rewrite H; rewrite merge_loop_acc; simpl; auto.
Qed.









Lemma wf_cache_after (items : list entry) :
  forall c, wf_dict c -> wf_dict (cache_after items c).
Proof.
  induction items as [|e r IH]; intros c W; [exact W|].
  destruct (merge_after_cons e r c) as [H1 H2].
  destruct (restore_conflict c e) eqn:E.
  - destruct (H1 eq_refl) as [-> _]. now apply IH.
  - destruct (H2 eq_refl) as [-> _]. apply IH. now apply wf_index_entry.
Qed.

Lemma in_values_get (c : dict entry) (v : entry) :
  wf_dict c -> In v (dict_values c) -> exists k, dict_get k c = Some v.
Proof.
  intros W H. unfold dict_values in H. apply in_map_iff in H.
  destruct H as [[k u] [<- H]]. exists k. now apply in_dict_get.
Qed.



Lemma cache_after_values (items : list entry) :
  forall c v, In v (dict_values (cache_after items c)) ->
              In v (dict_values c) \/ In v items.
Proof.
  induction items as [|e r IH]; intros c v H; [now left|].
  destruct (merge_after_cons e r c) as [H1 H2].
  destruct (restore_conflict c e) eqn:E.
  - destruct (H1 eq_refl) as [Ec _]. rewrite Ec in H.
    destruct (IH _ _ H); [now left|right; now right].
  - destruct (H2 eq_refl) as [Ec _]. rewrite Ec in H.
    destruct (IH _ _ H) as [G|G]; [|right; now right].
    clear - G. unfold index_entry in G.
    revert c G. induction (_make_index_keys (name e) (slug e)) as [|k ks IHk];
      intros c G; simpl in G; [now left|].
    destruct (IHk _ G) as [G'|G']; [|now right].
    clear - G'. induction c as [|[k0 v0] c IHc]; simpl in G'.
    + destruct G' as [<-|[]]. right. now left.
    + destruct (String.eqb k0 k); simpl in G'.
      * destruct G' as [<-|G']; [right; now left|left; now right].
      * destruct G' as [<-|G']; [left; now left|].
        destruct (IHc G') as [H|H]; [left; now right|now right].
Qed.

(** The items [load_deleted] returns are new objects, numbered in order. *)
Lemma load_deleted_rows_oids (cia : bool) (fields : list string) (rows : list (list string)) :
  forall nid items nid',
    load_deleted_rows cia fields rows nid = Ok (items, nid') ->
    map oid items = seq nid (List.length items).
Proof.
  induction rows as [|row r IH]; intros nid items nid' H; simpl in H.
  - now inversion H.
  - destruct cia.
    + destruct (_clean_number _) as [p|x]; simpl in H; [|discriminate].
      destruct (load_deleted_rows true fields r (S nid)) as [[its n]|x] eqn:E;
        simpl in H; [|discriminate].
      inversion H; subst. simpl. f_equal. eapply IH. eassumption.
    + destruct (_clean_number _) as [p|x]; simpl in H; [|discriminate].
      destruct (load_deleted_rows false fields r (S nid)) as [[its n]|x] eqn:E;
        simpl in H; [|discriminate].
      inversion H; subst. simpl. f_equal. eapply IH. eassumption.
Qed.


Lemma merge_deleted_back_unfold (w : world) (items : list entry) (nid : nat) :
  load_deleted (deleted_file w) (next_id w) = Ok (items, nid) ->
  merge_deleted_back w
  = let w0 := set_next_id nid w in
    if is_nil items then (w0, Ok None)
    else
      let w1 := set_cache (cache_after items (cache w)) w0 in
      match save_data w1 with
      | (w2, Raise x) => (w2, Raise x)
      | (w2, Ok _) =>
          match rewrite_deleted (kept_after items (cache w)) w2 with
          | (w3, Raise x) => (w3, Raise x)
          | (w3, Ok _) => (w3, Ok (Some (restored_after items (cache w))))
          end
      end.
Proof.
  intros H. unfold merge_deleted_back. rewrite H. cbn zeta.
  destruct (is_nil items); [reflexivity|].
  cbn [cache set_next_id]. rewrite merge_loop_acc. reflexivity.
Qed.

Lemma cache_merge_deleted_back (w : world) (items : list entry) (nid : nat) :
  load_deleted (deleted_file w) (next_id w) = Ok (items, nid) ->
  cache (fst (merge_deleted_back w)) = cache_after items (cache w).
Proof.
  intros H. rewrite (merge_deleted_back_unfold w items nid H). cbn zeta.
  destruct items as [|e r]; [reflexivity|]. cbn [is_nil].
  match goal with
  | |- context [save_data ?w0] =>
      pose proof (cache_save_data w0) as Hs;
      destruct (save_data w0) as [w2 [u|x]]
  end; cbn [fst] in Hs; [|exact Hs].
  unfold rewrite_deleted.
  destruct (rewrite_table _ _) as [t [u'|x]]; cbn [fst]; exact Hs.
Qed.


(** ** Binary64: format and exact integers *)

Lemma digits2_size (p : positive) : digits2_pos p = Pos.size p.
Proof. induction p; simpl; congruence. Qed.

Lemma digits2_log2 (p : positive) : Zpos (digits2_pos p) = Z.log2 (Zpos p) + 1.
Proof.
  rewrite digits2_size. destruct p; simpl; try lia.
Qed.

Lemma pow2_xO (p : positive) : 2 ^ Zpos p~0 = 2 ^ Zpos p * 2 ^ Zpos p.
Proof. rewrite <- Z.pow_add_r by lia. f_equal. lia. Qed.

Lemma pow2_xI (p : positive) : 2 ^ Zpos p~1 = 2 * (2 ^ Zpos p * 2 ^ Zpos p).
Proof.
  rewrite <- Z.pow_add_r by lia. rewrite <- Z.pow_succ_r by lia. f_equal. lia.
Qed.

Lemma shr_1_even (b : Z) (s : bool) :
  shr_1 (Build_shr_record (2 * b) false s) = Build_shr_record b false s.
Proof. destruct b; reflexivity. Qed.

Lemma iter_shr_exact (p : positive) :
  forall a,
    iter_pos shr_1 p (Build_shr_record (a * 2 ^ Zpos p) false false)
    = Build_shr_record a false false.
Proof.
  induction p as [p IH|p IH|]; intros a; cbn [iter_pos].
  - rewrite pow2_xI.
    replace (a * (2 * (2 ^ Zpos p * 2 ^ Zpos p)))
      with (2 * ((a * 2 ^ Zpos p) * 2 ^ Zpos p)) by ring.
    rewrite shr_1_even. now rewrite !IH.
  - rewrite pow2_xO.
    replace (a * (2 ^ Zpos p * 2 ^ Zpos p))
      with ((a * 2 ^ Zpos p) * 2 ^ Zpos p) by ring.
    now rewrite !IH.
  - replace (a * 2 ^ 1) with (2 * a) by (change (2^1) with 2; ring).
    apply shr_1_even.
Qed.

Lemma shr_1_m (mrs : shr_record) :
  0 <= shr_m mrs -> shr_m (shr_1 mrs) = Z.div2 (shr_m mrs).
Proof.
  destruct mrs as [m r s]. simpl. destruct m as [|[q|q|]|q]; simpl; try reflexivity; lia.
Qed.

Lemma iter_shr_m (p : positive) :
  forall mrs, 0 <= shr_m mrs ->
    0 <= shr_m (iter_pos shr_1 p mrs)
    /\ shr_m (iter_pos shr_1 p mrs) = Z.shiftr (shr_m mrs) (Zpos p).
Proof.
  assert (D : forall mrs, 0 <= shr_m mrs -> 0 <= shr_m (shr_1 mrs)).
  { intros mrs H. rewrite shr_1_m by assumption. rewrite Z.div2_div.
    apply Z.div_pos; lia. }
  induction p as [p IH|p IH|]; intros mrs H; cbn [iter_pos].
  - destruct (IH (shr_1 mrs) (D mrs H)) as [P1 E1].
    destruct (IH _ P1) as [P2 E2]. split; [exact P2|].
    rewrite E2, E1, shr_1_m, Z.div2_spec, !Z.shiftr_shiftr by lia.
    f_equal. lia.
  - destruct (IH mrs H) as [P1 E1].
    destruct (IH _ P1) as [P2 E2]. split; [exact P2|].
    rewrite E2, E1, !Z.shiftr_shiftr by lia. f_equal. lia.
  - split; [now apply D|]. rewrite shr_1_m by assumption. apply Z.div2_spec.
Qed.

Lemma iter_shr_nonpos (p : positive) :
  forall mrs, shr_m mrs <= 0 -> shr_m (iter_pos shr_1 p mrs) <= 0.
Proof.
  assert (D : forall mrs, shr_m mrs <= 0 -> shr_m (shr_1 mrs) <= 0).
  { intros [m r s]. simpl. destruct m as [|[q|q|]|[q|q|]]; simpl; lia. }
  induction p as [p IH|p IH|]; intros mrs H; cbn [iter_pos]; auto.
Qed.

Lemma fexp_ge (d : Z) : d - 53 <= fexp prec emax d.
Proof. unfold fexp, prec. lia. Qed.

Lemma binary_round_aux_in_format (s : bool) (mx ex : Z) (lx : location) :
  in_format (binary_round_aux prec emax s mx ex lx).
Proof.
  unfold binary_round_aux.
  destruct (shr_fexp prec emax mx ex lx) as [mrs' e'].
  generalize (round_nearest_even (shr_m mrs') (loc_of_shr_record mrs')).
  intros m1.
  destruct (shr_fexp prec emax m1 e' loc_Exact) as [mrs'' e''] eqn:E2.
  destruct (shr_m mrs'') as [|p|p] eqn:Em; try exact I.
  destruct (Z.leb e'' (emax - prec)) eqn:El; [|exact I].
  apply Z.leb_le in El. split; [|unfold emax, prec in El; lia].
  unfold shr_fexp, shr in E2. cbn [shr_record_of_loc] in E2.
  pose proof (fexp_ge (Zdigits2 m1 + e')) as F.
  destruct (fexp prec emax (Zdigits2 m1 + e') - e') as [|q|q] eqn:En.
  - inversion E2; subst. simpl in Em. subst m1. cbn [Zdigits2] in *. lia.
  - inversion E2; subst. clear E2.
    destruct (Z_le_gt_dec 0 m1) as [Hm|Hm].
    + destruct (iter_shr_m q (Build_shr_record m1 false false) Hm) as [_ E].
      rewrite Em in E. simpl in E.
      assert (Hpos : 0 < m1).
      { destruct (Z.eq_dec m1 0) as [->|]; [|lia]. rewrite Z.shiftr_0_l in E. lia. }
      rewrite digits2_log2, E, Z.log2_shiftr by assumption.
      destruct m1 as [|m1|m1]; try lia. cbn [Zdigits2] in *.
      rewrite digits2_log2 in *. lia.
    + pose proof (iter_shr_nonpos q (Build_shr_record m1 false false)) as N.
      simpl in N. rewrite Em in N. lia.
  - inversion E2; subst. simpl in Em. subst m1. cbn [Zdigits2] in *. lia.
Qed.

Lemma dec2float_in_format (neg : bool) (m e10 : Z) : in_format (dec2float neg m e10).
Proof.
  unfold dec2float. destruct m as [|p|p]; simpl; auto.
  destruct (0 <=? e10).
  - unfold binary_round. destruct (shl_align _ _ _) as [mz ez].
    apply binary_round_aux_in_format.
  - destruct (SFdiv_core_binary _ _ _ _ _ _) as [[q e] l].
    apply binary_round_aux_in_format.
Qed.

Lemma pos_iter_xO (n k : positive) : Zpos (Pos.iter xO n k) = Zpos n * 2 ^ Zpos k.
Proof.
  induction k as [|k IH] using Pos.peano_ind.
  - simpl. lia.
  - rewrite Pos.iter_succ, Pos2Z.inj_xO, IH, Pos2Z.inj_succ, Z.pow_succ_r by lia.
    ring.
Qed.

Lemma binary_round_exact (s : bool) (N a : positive) (j : Z) :
  Zpos N = Zpos a * 2 ^ j ->
  0 <= j ->
  Zpos (digits2_pos a) <= 53 ->
  Zpos (digits2_pos a) + j <= 1024 ->
  exists m e,
    binary_round prec emax s N 0 = S754_finite s m e
    /\ Z.shiftl (Zpos m) e = Zpos N.
Proof.
  intros HN Hj Ha Hd.
  assert (Hdig : Zpos (digits2_pos N) = Zpos (digits2_pos a) + j).
  { rewrite !digits2_log2, HN, Z.log2_mul_pow2 by lia. lia. }
  unfold binary_round, shl_align.
  set (d := Zpos (digits2_pos N)) in *.
  assert (Hf : fexp prec emax (d + 0) = d - 53).
  { unfold fexp, emin, prec, emax. pose proof (Pos2Z.is_pos (digits2_pos a)). lia. }
  rewrite Hf.
  destruct (d - 53 - 0) as [|k|k] eqn:Ek.
  - (* exactly 53 digits *)
    unfold binary_round_aux, shr_fexp, shr. cbn [Zdigits2 shr_record_of_loc].
    fold d. rewrite Hf, Ek. cbn [shr_m loc_of_shr_record round_nearest_even Zdigits2].
    fold d. rewrite Hf, Ek. cbn [shr_m].
    exists N, 0. split; [reflexivity | apply Z.shiftl_0_r].
  - (* more than 53 digits: the low bits are zero *)
    unfold binary_round_aux, shr_fexp, shr. cbn [Zdigits2 shr_record_of_loc].
    fold d. rewrite Hf, Ek.
    assert (Hjk : Zpos k <= j) by lia.
    assert (HM : Zpos N = (Zpos a * 2 ^ (j - Zpos k)) * 2 ^ Zpos k).
    { rewrite HN, <- Z.mul_assoc, <- Z.pow_add_r by lia. do 2 f_equal. lia. }
    rewrite HM, iter_shr_exact.
    cbn [shr_m loc_of_shr_record round_nearest_even].
    assert (HMpos : 0 < Zpos a * 2 ^ (j - Zpos k)).
    { apply Z.mul_pos_pos; [lia|]. apply Z.pow_pos_nonneg; lia. }
    destruct (Zpos a * 2 ^ (j - Zpos k)) as [|M|M] eqn:EM; try lia.
    assert (HdM : Zpos (digits2_pos M) = 53).
    { rewrite digits2_log2, <- EM, Z.log2_mul_pow2 by lia.
      rewrite digits2_log2 in Hdig. lia. }
    cbn [Zdigits2]. rewrite HdM.
    assert (Hf2 : fexp prec emax (53 + (0 + Zpos k)) - (0 + Zpos k) = 0).
    { unfold fexp, emin, prec, emax. lia. }
    rewrite Hf2. cbn [shr_m].
    assert (Hle : (0 + Zpos k <=? emax - prec) = true).
    { apply Z.leb_le. unfold emax, prec. lia. }
    rewrite Hle. exists M, (0 + Zpos k). split; [reflexivity|].
    rewrite Z.shiftl_mul_pow2 by lia. rewrite Z.add_0_l. lia.
  - (* fewer than 53 digits: the mantissa is shifted left *)
    unfold binary_round_aux, shr_fexp, shr. cbn [Zdigits2 shr_record_of_loc].
    assert (HdM : Zpos (digits2_pos (Pos.iter xO N k)) = 53).
    { rewrite digits2_log2, pos_iter_xO, Z.log2_mul_pow2 by lia.
      unfold d in Ek. rewrite digits2_log2 in Ek. lia. }
    rewrite HdM.
    assert (Hf2 : fexp prec emax (53 + (d - 53)) - (d - 53) = 0).
    { replace (53 + (d - 53)) with (d + 0) by lia. rewrite Hf. lia. }
    rewrite Hf2. cbn [shr_m loc_of_shr_record round_nearest_even Zdigits2].
    rewrite HdM, Hf2. cbn [shr_m].
    assert (Hle : (d - 53 <=? emax - prec) = true).
    { apply Z.leb_le. unfold emax, prec. lia. }
    rewrite Hle. exists (Pos.iter xO N k), (d - 53). split; [reflexivity|].
    assert (Ed : d - 53 = - Zpos k) by lia. rewrite Ed.
    rewrite Z.shiftl_opp_r, Z.shiftr_div_pow2, pos_iter_xO by lia.
    apply Z.div_mul. apply Z.pow_nonzero; lia.
Qed.

Lemma Z2F_pos (s : bool) (r : Z) (N : positive) :
  Z.abs r = Zpos N -> Z2F r = binary_round prec emax (r <? 0) N 0.
Proof.
  intros H. unfold Z2F, dec2float. rewrite H.
  change (0 <=? 0) with true. cbn iota.
  change (Z.to_pos (10 ^ 0)) with 1%positive. now rewrite Pos.mul_1_r.
Qed.

(** The integer part of a float in the format is a float itself. *)
Lemma int_of_float_Z2F (f : spec_float) (r : Z) :
  in_format f -> int_of_float f = Ok r -> int_of_float (Z2F r) = Ok r.
Proof.
  intros Hf Hr. destruct f as [s|s| |s m e]; simpl in Hr; try discriminate.
  - inversion Hr. reflexivity.
  - inversion Hr as [Hr']. clear Hr. destruct Hf as [Hm He].
    set (M := Z.shiftl (Zpos m) e) in *.
    assert (HM : 0 <= M) by (apply Z.shiftl_nonneg; lia).
    destruct (Z.eq_dec M 0) as [E0|N0].
    { rewrite E0. destruct s; reflexivity. }
    assert (Habs : Z.abs (cond_Zopp s M) = M) by (destruct s; simpl; lia).
    destruct M as [|N|N] eqn:EM; try lia.
    assert (Hsign : (cond_Zopp s (Zpos N) <? 0) = s).
    { destruct s; simpl; [apply Z.ltb_lt | apply Z.ltb_ge]; lia. }
    rewrite (Z2F_pos s _ N Habs), Hsign.
    assert (Hex : exists (a : positive) (j : Z),
               Zpos N = Zpos a * 2 ^ j /\ 0 <= j
               /\ Zpos (digits2_pos a) <= 53
               /\ Zpos (digits2_pos a) + j <= 1024).
    { destruct (Z_le_gt_dec 0 e) as [Hpos|Hneg].
      - exists m, e. rewrite <- EM. unfold M.
        rewrite Z.shiftl_mul_pow2 by assumption. repeat split; lia.
      - exists N, 0. rewrite Z.mul_1_r. repeat split; try lia.
        + rewrite digits2_log2 in *. rewrite <- EM. unfold M.
          rewrite <- (Z.opp_involutive e), Z.shiftl_opp_r.
          rewrite Z.log2_shiftr by lia. lia.
        + rewrite digits2_log2 in *. rewrite <- EM. unfold M.
          rewrite <- (Z.opp_involutive e), Z.shiftl_opp_r.
          rewrite Z.log2_shiftr by lia. lia. }
    destruct Hex as [a [j [H1 [H2 [H3 H4]]]]].
    destruct (binary_round_exact s N a j H1 H2 H3 H4) as [m' [e' [Hb Hs]]].
    rewrite Hb. simpl. now rewrite Hs.
Qed.

Local Open Scope string_scope.

(** *** Printing an int and reading it back *)

Lemma rstrip_no_space (sp : ascii -> bool) (s : string) :
  forall_str (fun c => negb (sp c)) s = true -> rstrip_by sp s = s.
Proof.
  induction s as [|c r IH]; [reflexivity|]. simpl forall_str.
  intros H. apply andb_true_iff in H. destruct H as [Hc Hr].
  rewrite rstrip_cons, (IH Hr). apply negb_true_iff in Hc. rewrite Hc.
  now destruct r.
Qed.

Lemma strip_by_no_space (sp : ascii -> bool) (s : string) :
  forall_str (fun c => negb (sp c)) s = true -> strip_by sp s = s.
Proof.
  intros H. unfold strip_by. rewrite (rstrip_no_space sp s H).
  destruct s as [|c r]; [reflexivity|]. simpl in *.
  apply andb_true_iff in H. destruct H as [Hc _].
  apply negb_true_iff in Hc. now rewrite Hc.
Qed.

Lemma forall_str_impl (P Q : ascii -> bool) (s : string) :
  (forall c, P c = true -> Q c = true) ->
  forall_str P s = true -> forall_str Q s = true.
Proof.
  intros I. induction s as [|c r IH]; simpl; [auto|].
  rewrite !andb_true_iff. intros [H1 H2]. auto.
Qed.

Lemma digits_all_digit (u : Decimal.uint) :
  forall_str is_digit (DecimalString.NilEmpty.string_of_uint u) = true.
Proof. induction u; simpl; auto. Qed.

Lemma scan_digits_print (u : Decimal.uint) :
  scan_digits (DecimalString.NilEmpty.string_of_uint u) = (u, "").
Proof.
  induction u; cbn [DecimalString.NilEmpty.string_of_uint scan_digits];
    try reflexivity;
    match goal with
    | |- context [digit_of_char ?c] =>
        let d := eval vm_compute in (digit_of_char c) in
        change (digit_of_char c) with d
    end; cbn iota; rewrite IHu; reflexivity.
Qed.

Lemma digit_not_space (c : ascii) :
  is_digit c = true -> py_isspace c = false /\ float_isspace c = false.
Proof.
  unfold is_digit, py_isspace, float_isspace. generalize (code c). intros n H.
  apply andb_true_iff in H. destruct H as [H1 H2].
  apply Z.leb_le in H1. apply Z.leb_le in H2.
  split; zbool.
Qed.

Lemma digits_no_space (sp : ascii -> bool) (u : Decimal.uint) :
  (forall c, is_digit c = true -> sp c = false) ->
  forall_str (fun c => negb (sp c)) (DecimalString.NilEmpty.string_of_uint u) = true.
Proof.
  intros H. apply (forall_str_impl is_digit); [|apply digits_all_digit].
  intros c Hc. now rewrite (H c Hc).
Qed.

Lemma float_of_string_uint (neg : bool) (u : Decimal.uint) :
  u <> Decimal.Nil ->
  float_of_string
    ((if neg then "-" else "") ++ DecimalString.NilEmpty.string_of_uint u)
  = Ok (dec2float neg (Z.of_uint u) 0).
Proof.
  intros Hu. unfold float_of_string.
  rewrite strip_by_no_space.
  2:{ destruct neg; cbn [append forall_str]; [change (negb (float_isspace "-")) with true; cbn [andb]|];
      apply digits_no_space; intros c Hc; apply digit_not_space; exact Hc. }
  destruct u; try contradiction;
    destruct neg;
    cbn [append DecimalString.NilEmpty.string_of_uint scan_sign];
    repeat match goal with
      | |- context [Ascii.eqb ?a ?b] =>
          let v := eval vm_compute in (Ascii.eqb a b) in
          change (Ascii.eqb a b) with v
      end; cbn iota; cbn [lower String.eqb];
    repeat match goal with
      | |- context [lower_char ?a] =>
          let v := eval vm_compute in (lower_char a) in
          change (lower_char a) with v
      end;
    repeat match goal with
      | |- context [Ascii.eqb ?a ?b] =>
          let v := eval vm_compute in (Ascii.eqb a b) in
          change (Ascii.eqb a b) with v
      end; cbn iota; cbn [orb];
    unfold scan_number, scan_digitpart;
    match goal with
    | |- context [digit_of_char ?c] =>
        let d := eval vm_compute in (digit_of_char c) in
        change (digit_of_char c) with d
    end; cbn iota; rewrite scan_digits_print; reflexivity.
Qed.

Lemma float_of_string_in_format (s : string) (f : spec_float) :
  float_of_string s = Ok f -> in_format f.
Proof.
  unfold float_of_string. destruct (scan_sign _) as [neg body].
  destruct (_ || _); [intros [= <-]; exact I|].
  destruct (String.eqb _ _); [intros [= <-]; exact I|].
  destruct (scan_number body) as [[m e10]|]; [|discriminate].
  intros [= <-]. apply dec2float_in_format.
Qed.

Lemma of_uint_to_uint (p : positive) : Z.of_uint (Pos.to_uint p) = Zpos p.
Proof. unfold Z.of_uint. now rewrite DecimalPos.Unsigned.of_to. Qed.

Lemma nilzero_to_uint (p : positive) :
  DecimalString.NilZero.string_of_uint (Pos.to_uint p)
  = DecimalString.NilEmpty.string_of_uint (Pos.to_uint p).
Proof.
  pose proof (DecimalPos.Unsigned.to_uint_nonnil p) as H.
  destruct (Pos.to_uint p); try reflexivity. contradiction.
Qed.

(** The text of an int: a sign and the digits of a numeral that is not
    empty. *)
Lemma str_of_int_form (n : Z) :
  exists (neg : bool) (u : Decimal.uint),
    u <> Decimal.Nil
    /\ str_of_int n
       = (if neg then "-" else "") ++ DecimalString.NilEmpty.string_of_uint u
    /\ fmt_grouped n
       = (if neg then "-" else "")
           ++ group3 (DecimalString.NilEmpty.string_of_uint u)
    /\ dec2float neg (Z.of_uint u) 0 = Z2F n.
Proof.
  destruct n as [|p|p].
  - exists false, (Decimal.D0 Decimal.Nil). repeat split; discriminate.
  - exists false, (Pos.to_uint p).
    split; [apply DecimalPos.Unsigned.to_uint_nonnil|].
    unfold str_of_int, fmt_grouped, str_of_int. cbn [Z.to_int Z.ltb Z.compare].
    cbn [DecimalString.NilZero.string_of_int].
    rewrite nilzero_to_uint, of_uint_to_uint. repeat split.
  - exists true, (Pos.to_uint p).
    split; [apply DecimalPos.Unsigned.to_uint_nonnil|].
    unfold str_of_int, fmt_grouped, str_of_int.
    cbn [Z.to_int Z.ltb Z.compare Z.abs].
    cbn [DecimalString.NilZero.string_of_int].
    rewrite nilzero_to_uint, of_uint_to_uint. repeat split.
Qed.

Lemma float_of_string_str_of_int (n : Z) :
  float_of_string (str_of_int n) = Ok (Z2F n).
Proof.
  destruct (str_of_int_form n) as [neg [u [Hu [Hs [_ Hv]]]]].
  rewrite Hs, <- Hv. now apply float_of_string_uint.
Qed.

Lemma filter_str_app (p : ascii -> bool) (a b : string) :
  filter_str p (a ++ b) = filter_str p a ++ filter_str p b.
Proof.
  induction a as [|c r IH]; simpl; [reflexivity|].
  destruct (p c); simpl; now rewrite IH.
Qed.

Lemma filter_str_all (p : ascii -> bool) (s : string) :
  forall_str p s = true -> filter_str p s = s.
Proof.
  induction s as [|c r IH]; simpl; [reflexivity|].
  intros H. apply andb_true_iff in H. destruct H as [-> Hr]. now rewrite IH.
Qed.

Lemma forall_str_app (p : ascii -> bool) (a b : string) :
  forall_str p (a ++ b) = forall_str p a && forall_str p b.
Proof.
  induction a as [|c r IH]; simpl; [reflexivity|].
  now rewrite IH, andb_assoc.
Qed.

Lemma group3_commas (s : string) :
  forall_str is_digit s = true ->
  remove_char "," (group3 s) = s
  /\ forall_str (fun c => is_digit c || Ascii.eqb c ",") (group3 s) = true
  /\ (s <> "" -> group3 s <> "").
Proof.
  unfold remove_char.
  induction s as [|c r IH]; [repeat split; auto|].
  intros H. cbn [forall_str] in H.
  apply andb_true_iff in H. destruct H as [Hc Hr].
  destruct (IH Hr) as [I1 [I2 _]].
  assert (Ec : Ascii.eqb c "," = false).
  { apply Ascii.eqb_neq. intros ->. discriminate. }
  set (b := Nat.eqb (String.length r mod 3) 0 && negb (Nat.eqb (String.length r) 0)).
  assert (G : group3 (String c r)
              = if b then String c (String "," (group3 r))
                else String c (group3 r)) by reflexivity.
  rewrite G. clear G.
  destruct b; cbn [filter_str forall_str]; rewrite Ec, Hc; cbn [negb orb andb];
    change (Ascii.eqb "," ",") with true; cbn [negb orb andb];
    try rewrite orb_true_r; cbn [andb];
    rewrite I1, I2; repeat split; discriminate.
Qed.

Lemma digits_nonempty (u : Decimal.uint) :
  u <> Decimal.Nil -> DecimalString.NilEmpty.string_of_uint u <> "".
Proof. destruct u; simpl; intros H; try discriminate. contradiction. Qed.

Lemma sign_forall (p : ascii -> bool) (neg : bool) (body : string) :
  p "-"%char = true -> forall_str p body = true ->
  forall_str p ((if neg then "-" else "") ++ body) = true.
Proof.
  intros Hm Hb. destruct neg; cbn [append forall_str]; [|exact Hb].
  now rewrite Hm, Hb.
Qed.

Lemma clean_number_int_text (neg : bool) (u : Decimal.uint) (body : string) :
  u <> Decimal.Nil ->
  remove_char "," body = DecimalString.NilEmpty.string_of_uint u ->
  forall_str (fun c => is_digit c || Ascii.eqb c ",") body = true ->
  clean_number_str ((if neg then "-" else "") ++ body)
  = Ok (dec2float neg (Z.of_uint u) 0).
Proof.
  intros Hu Hrem Hall. unfold clean_number_str.
  assert (Hstrip : strip ((if neg then "-" else "") ++ body)
                   = (if neg then "-" else "") ++ body).
  { apply strip_by_no_space. apply sign_forall; [reflexivity|].
    apply (forall_str_impl (fun c => is_digit c || Ascii.eqb c ","));
      [|exact Hall].
    intros c Hc. apply orb_true_iff in Hc. destruct Hc as [Hc|Hc].
    - apply negb_true_iff. now apply digit_not_space.
    - apply Ascii.eqb_eq in Hc. now subst c. }
  rewrite Hstrip.
  assert (Hre : amount_re ((if neg then "-" else "") ++ body) = true).
  { unfold amount_re. apply andb_true_iff. split.
    - destruct neg; [reflexivity|]. cbn [append]. apply truthy_true.
      intros E. rewrite E in Hrem. cbn in Hrem. symmetry in Hrem.
      now apply digits_nonempty in Hrem.
    - apply sign_forall; [reflexivity|].
      apply (forall_str_impl (fun c => is_digit c || Ascii.eqb c ","));
        [|exact Hall].
      intros c Hc. unfold amount_char. apply orb_true_iff in Hc.
      destruct Hc as [-> | ->]; [reflexivity|].
      now rewrite orb_true_r. }
  rewrite Hre.
  assert (Hs1 : remove_char "$" (remove_char " "
                  (remove_char "," ((if neg then "-" else "") ++ body)))
                = (if neg then "-" else "")
                    ++ DecimalString.NilEmpty.string_of_uint u).
  { unfold remove_char in *. rewrite filter_str_app, Hrem.
    assert (Hsg : filter_str (fun x => negb (Ascii.eqb x ","))
                    (if neg then "-" else "") = (if neg then "-" else ""))
      by (destruct neg; reflexivity).
    rewrite Hsg.
    assert (Hk : forall ch, is_digit ch = false -> ch <> "-"%char ->
              forall_str (fun x => negb (Ascii.eqb x ch))
                ((if neg then "-" else "")
                   ++ DecimalString.NilEmpty.string_of_uint u) = true).
    { intros ch Hd Hm. apply sign_forall.
      - apply negb_true_iff, Ascii.eqb_neq. congruence.
      - apply (forall_str_impl is_digit); [|apply digits_all_digit].
        intros c Hc. apply negb_true_iff, Ascii.eqb_neq. intros ->.
        congruence. }
    rewrite (filter_str_all _ _ (Hk " "%char eq_refl ltac:(discriminate))).
    now rewrite (filter_str_all _ _ (Hk "$"%char eq_refl ltac:(discriminate))). }
  rewrite Hs1, (float_of_string_uint neg u Hu). reflexivity.
Qed.

Lemma clean_number_str_of_int (n : Z) :
  clean_number_str (str_of_int n) = Ok (Z2F n).
Proof.
  destruct (str_of_int_form n) as [neg [u [Hu [Hs [_ Hv]]]]].
  rewrite Hs, <- Hv. apply clean_number_int_text; [exact Hu| |].
  - apply filter_str_all. apply (forall_str_impl is_digit).
    + intros c Hc. apply negb_true_iff, Ascii.eqb_neq. intros ->. discriminate.
    + apply digits_all_digit.
  - apply (forall_str_impl is_digit); [|apply digits_all_digit].
    intros c ->. reflexivity.
Qed.

Lemma clean_number_fmt_grouped (n : Z) :
  clean_number_str (fmt_grouped n) = Ok (Z2F n).
Proof.
  destruct (str_of_int_form n) as [neg [u [Hu [_ [Hg Hv]]]]].
  rewrite Hg, <- Hv.
  destruct (group3_commas _ (digits_all_digit u)) as [G1 [G2 _]].
  now apply clean_number_int_text.
Qed.

Lemma strip_str_of_int (n : Z) : strip (str_of_int n) = str_of_int n.
Proof.
  destruct (str_of_int_form n) as [neg [u [Hu [Hs _]]]]. rewrite Hs.
  apply strip_by_no_space. apply sign_forall; [reflexivity|].
  apply digits_no_space. intros c Hc. now apply digit_not_space.
Qed.

Lemma str_of_int_truthy (n : Z) : truthy (str_of_int n) = true.
Proof.
  destruct (str_of_int_form n) as [neg [u [Hu [Hs _]]]]. rewrite Hs.
  destruct neg; [reflexivity|]. cbn [append].
  apply truthy_true. now apply digits_nonempty.
Qed.

(** Writing a rank and reading it back gives the rank. *)
Lemma clean_int_written (t : option string) :
  _clean_int (Some (str_of_int (_clean_int t))) = _clean_int t.
Proof.
  unfold _clean_int at 1. cbn [str_of_cell].
  rewrite strip_str_of_int, float_of_string_str_of_int.
  unfold _clean_int.
  destruct (float_of_string (strip (str_of_cell t))) as [f|x] eqn:Ef;
    [|reflexivity].
  destruct (int_of_float f) as [n|x] eqn:En; [|reflexivity].
  now rewrite (int_of_float_Z2F f n (float_of_string_in_format _ _ Ef) En).
Qed.


Local Open Scope list_scope.

(** ** Load, save, reload *)

Lemma cia_row_cells (e : entry) :
  is_finite (ppp e) = true ->
  exists v,
    cia_row e = Ok [name e; slug e; v; date e; str_of_int (rank e); region e]
    /\ _clean_number (PStr v) = Ok (trunc_float (ppp e)).
Proof.
  unfold cia_row, trunc_float.
  destruct (ppp e) as [s|s| |s m x]; try discriminate; intros _; simpl.
  - exists "0". split; [reflexivity|]. apply (clean_number_str_of_int 0).
  - eexists. split; [reflexivity|]. apply clean_number_fmt_grouped.
Qed.

Lemma simple_row_cells (e : entry) :
  is_finite (ppp e) = true ->
  exists v,
    simple_row e = Ok [name e; v; str_of_int (rank e)]
    /\ _clean_number (PStr v) = Ok (trunc_float (ppp e)).
Proof.
  unfold simple_row, trunc_float.
  destruct (ppp e) as [s|s| |s m x]; try discriminate; intros _; simpl.
  - exists "0". split; [reflexivity|]. apply (clean_number_str_of_int 0).
  - eexists. split; [reflexivity|]. apply clean_number_str_of_int.
Qed.

Lemma get_or_cia (a b c d r g : string) :
  let row := [a; b; c; d; r; g] in
  get_or CIA_FIELDS row ["name"; "Name"] = a
  /\ get_or CIA_FIELDS row ["slug"; "Slug"] = b
  /\ get_or CIA_FIELDS row ["value"; "Value"] = c
  /\ get_or CIA_FIELDS row ["date_of_information"; "Date_of_information"] = d
  /\ get_or CIA_FIELDS row ["ranking"; "Ranking"] = r
  /\ get_or CIA_FIELDS row ["region"; "Region"] = g.
Proof.
  repeat split;
    [destruct a|destruct b|destruct c|destruct d|destruct r|destruct g];
    reflexivity.
Qed.

Lemma get_or_simple (a v r : string) :
  let row := [a; v; r] in
  get_or SIMPLE_FIELDS row ["country"; "Country"; "name"] = a
  /\ get_or SIMPLE_FIELDS row ["ppp"; "PPP"; "value"; "PPP (Int$)"] = v
  /\ get_or SIMPLE_FIELDS row ["rank"; "Rank"; "ranking"] = r.
Proof.
  repeat split; [destruct a|destruct v|destruct r]; reflexivity.
Qed.

Lemma reload_cia_rows (es : list entry) :
  forall rows c nid,
    all_finite es ->
    mapM cia_row es = Ok rows ->
    filter (fun row => negb (is_nil row)) rows = rows
    /\ load_cia_rows CIA_FIELDS rows c nid
       = Ok (reload_fold true es c nid, (nid + List.length es)%nat).
Proof.
  induction es as [|e r IH]; intros rows c nid Hf Hm.
  - inversion Hm; subst. split; [reflexivity|]. simpl. now rewrite Nat.add_0_r.
  - destruct (cia_row_cells e (Hf e (or_introl eq_refl))) as [v [Hrow Hv]].
    cbn [mapM] in Hm. rewrite Hrow in Hm. cbn [bind] in Hm.
    destruct (mapM cia_row r) as [rows'|x] eqn:Er; [|discriminate].
    inversion Hm; subst. clear Hm.
    destruct (IH rows' (index_entry (index_keys e) (reloaded true e nid) c) (S nid))
      as [I1 I2]; [intros x Hx; apply Hf; now right | reflexivity |].
    split; [cbn [filter is_nil negb]; now rewrite I1|].
    cbn [load_cia_rows].
    destruct (get_or_cia (name e) (slug e) v (date e) (str_of_int (rank e)) (region e))
      as [G1 [G2 [G3 [G4 [G5 G6]]]]].
    cbn zeta in G1, G2, G3, G4, G5, G6.
    rewrite G1, G2, G3, G4, G5, G6, Hv. cbn [bind].
    replace (nid + List.length (e :: r))%nat with (S nid + List.length r)%nat
      by (simpl; lia).
    exact I2.
Qed.

Lemma reload_simple_rows (es : list entry) :
  forall rows c nid,
    all_finite es ->
    (forall e, In e es -> name e <> "" /\ slug e = "") ->
    mapM simple_row es = Ok rows ->
    filter (fun row => negb (is_nil row)) rows = rows
    /\ load_simple_rows SIMPLE_FIELDS rows c nid
       = Ok (reload_fold false es c nid, (nid + List.length es)%nat).
Proof.
  induction es as [|e r IH]; intros rows c nid Hf Hn Hm.
  - inversion Hm; subst. split; [reflexivity|]. simpl. now rewrite Nat.add_0_r.
  - destruct (simple_row_cells e (Hf e (or_introl eq_refl))) as [v [Hrow Hv]].
    cbn [mapM] in Hm. rewrite Hrow in Hm. cbn [bind] in Hm.
    destruct (mapM simple_row r) as [rows'|x] eqn:Er; [|discriminate].
    inversion Hm; subst. clear Hm.
    destruct (IH rows' (index_entry (index_keys e) (reloaded false e nid) c) (S nid))
      as [I1 I2];
      [intros x Hx; apply Hf; now right
      |intros x Hx; apply Hn; now right | reflexivity |].
    split; [cbn [filter is_nil negb]; now rewrite I1|].
    cbn [load_simple_rows].
    destruct (get_or_simple (name e) v (str_of_int (rank e))) as [G1 [G2 G3]].
    cbn zeta in G1, G2, G3.
    rewrite G1, G2, G3, Hv. cbn [bind].
    destruct (Hn e (or_introl eq_refl)) as [Hne Hsl].
    assert (Hk : index_keys e = [_norm (name e)]).
    { unfold index_keys, _make_index_keys. rewrite Hsl.
      apply truthy_true in Hne. now rewrite Hne. }
    replace (nid + List.length (e :: r))%nat with (S nid + List.length r)%nat
      by (simpl; lia).
    cbn [reload_fold]. rewrite Hk in *. exact I2.
Qed.

Lemma reload_fold_out (cia : bool) (es : list entry) (k : string) :
  (forall e, In e es -> ~ In k (index_keys e)) ->
  forall c nid, dict_get k (reload_fold cia es c nid) = dict_get k c.
Proof.
  induction es as [|e r IH]; intros H c nid; [reflexivity|].
  cbn [reload_fold]. rewrite IH by (intros x Hx; apply H; now right).
  apply index_entry_get_out. apply H. now left.
Qed.

Lemma reload_fold_in (cia : bool) (es : list entry) (k : string) (e : entry) :
  (forall e', In e' es -> In k (index_keys e') -> e' = e) ->
  In k (index_keys e) ->
  forall c nid,
    In e es \/ (exists i, dict_get k c = Some (reloaded cia e i)) ->
    exists i, dict_get k (reload_fold cia es c nid) = Some (reloaded cia e i).
Proof.
  intros Hu Hk. induction es as [|e0 r IH]; intros c nid H.
  - destruct H as [[]|H]. exact H.
  - cbn [reload_fold].
    assert (Hu' : forall e', In e' r -> In k (index_keys e') -> e' = e)
      by (intros e' He'; apply Hu; now right).
    destruct (in_dec string_dec k (index_keys e0)) as [Hin|Hout].
    + assert (e0 = e) by (apply Hu; [now left|assumption]). subst e0.
      apply (IH Hu'). right. exists nid. now apply index_entry_get_in.
    + apply (IH Hu'). destruct H as [[-> | H] | [i H]].
      * contradiction.
      * now left.
      * right. exists i. now rewrite index_entry_get_out.
Qed.

Lemma dict_set_values (k : string) (e v : entry) (c : dict entry) :
  In v (dict_values (dict_set k e c)) -> In v (dict_values c) \/ v = e.
Proof.
  induction c as [|[k0 v0] c IH]; simpl.
  - intros [<-|[]]. now right.
  - destruct (String.eqb k0 k); simpl.
    + intros [<-|H]; [now right|left; now right].
    + intros [<-|H]; [left; now left|].
      destruct (IH H) as [G|G]; [left; now right|now right].
Qed.

Lemma index_entry_values (ks : list string) (e v : entry) (c : dict entry) :
  In v (dict_values (index_entry ks e c)) -> In v (dict_values c) \/ v = e.
Proof.
  unfold index_entry. revert c.
  induction ks as [|k ks IH]; intros c H; simpl in H; [now left|].
  destruct (IH _ H) as [G|G]; [|now right].
  now apply dict_set_values in G.
Qed.

Lemma load_cia_rows_inv (fields : list string) (rows : list (list string)) :
  forall c nid c' nid',
    load_cia_rows fields rows c nid = Ok (c', nid') ->
    wf_dict c -> (forall v, In v (dict_values c) -> shaped false v) ->
    wf_dict c' /\ (forall v, In v (dict_values c') -> shaped false v).
Proof.
  induction rows as [|row r IH]; intros c nid c' nid' H W S.
  - inversion H; subst. now split.
  - cbn [load_cia_rows] in H.
    destruct (_clean_number _) as [p|x]; cbn [bind] in H; [|discriminate].
    apply IH in H; [exact H|now apply wf_index_entry|].
    intros v Hv. apply index_entry_values in Hv. destruct Hv as [Hv | ->]; [auto|].
    unfold shaped. cbn [name slug rank]. rewrite !strip_idem.
    repeat split; [eexists; reflexivity | discriminate].
Qed.

Lemma load_simple_rows_inv (fields : list string) (rows : list (list string)) :
  forall c nid c' nid',
    load_simple_rows fields rows c nid = Ok (c', nid') ->
    wf_dict c -> (forall v, In v (dict_values c) -> shaped true v) ->
    wf_dict c' /\ (forall v, In v (dict_values c') -> shaped true v).
Proof.
  induction rows as [|row r IH]; intros c nid c' nid' H W S.
  - inversion H; subst. now split.
  - cbn [load_simple_rows] in H.
    destruct (_clean_number _) as [p|x]; cbn [bind] in H; [|discriminate].
    apply IH in H; [exact H|now apply wf_dict_set|].
    intros v Hv. apply dict_set_values in Hv. destruct Hv as [Hv | ->]; [auto|].
    unfold shaped. cbn [name slug rank]. rewrite !strip_idem.
    repeat split; eexists; reflexivity.
Qed.

Lemma norm_stripped_nonempty (s : string) :
  strip s = s -> s <> "" -> _norm s <> "".
Proof.
  intros H N E. apply norm_empty_iff in E. congruence.
Qed.

Lemma dedup_key_in_keys (e : entry) :
  strip (name e) = name e -> strip (slug e) = slug e ->
  (exists k, In k (index_keys e)) ->
  In (dedup_key e) (index_keys e) /\ dedup_key e <> "".
Proof.
  intros Hn Hs [k Hk]. unfold index_keys in *. unfold dedup_key, or_str.
  destruct (string_dec (name e) "") as [E|E].
  - rewrite E in *. change (truthy (_norm "")) with false. cbn iota.
    apply make_index_keys_in in Hk. destruct Hk as [[Hk _]|[Hk _]]; [congruence|].
    split; [|now apply norm_stripped_nonempty].
    apply make_index_keys_in. right. now split.
  - pose proof (norm_stripped_nonempty _ Hn E) as N.
    apply truthy_true in N. rewrite N.
    split; [|now apply truthy_true].
    apply make_index_keys_in. left. now split.
Qed.

Section Reload.

Variable c1 : dict entry.
Variable simple : bool.
Hypothesis c1_wf : wf_dict c1.
Hypothesis c1_keyed : keyed_ok c1.
Hypothesis c1_shaped : forall v, In v (dict_values c1) -> shaped simple v.

Lemma value_keys (v : entry) :
  In v (dict_values c1) ->
  (exists k, In k (index_keys v))
  /\ forall k, In k (index_keys v) -> dict_get k c1 = Some v.
Proof.
  intros Hv. destruct (in_values_get c1 v c1_wf Hv) as [k Hk].
  destruct (c1_keyed k v Hk) as [H1 H2]. split; [now exists k|exact H2].
Qed.

Lemma value_in_save_rows (v : entry) :
  In v (dict_values c1) -> In v (save_rows c1).
Proof.
  intros Hv. destruct (value_keys v Hv) as [Hex Hall].
  destruct (c1_shaped v Hv) as [Sn [Ss _]].
  destruct (dedup_key_in_keys v Sn Ss Hex) as [Hin Hne].
  pose proof (save_rows_find c1 (dedup_key v)) as F.
  apply truthy_true in Hne. rewrite Hne in F.
  destruct (find (has_key (dedup_key v)) (dict_values c1)) as [v'|] eqn:F'.
  - destruct (find_some _ _ F') as [Hv' Hk']. unfold has_key in Hk'.
    apply String.eqb_eq in Hk'.
    destruct (value_keys v' Hv') as [Hex' Hall'].
    destruct (c1_shaped v' Hv') as [Sn' [Ss' _]].
    destruct (dedup_key_in_keys v' Sn' Ss' Hex') as [Hin' _].
    rewrite Hk' in Hin'.
    assert (E : Some v' = Some v).
    { rewrite <- (Hall' _ Hin'), <- (Hall _ Hin). reflexivity. }
    inversion E; subst. now apply find_some in F.
  - exfalso. apply (find_none _ _ F') in Hv. unfold has_key in Hv.
    now rewrite String.eqb_refl in Hv.
Qed.

Lemma reload_lookup (cia : bool) (nid : nat) (k : string) :
  option_map triple (dict_get k (reload_fold cia (save_rows c1) [] nid))
  = option_map truncated (dict_get k c1).
Proof.
  destruct (dict_get k c1) as [v|] eqn:G.
  - destruct (c1_keyed k v G) as [Hk Hall].
    assert (Hv : In v (dict_values c1)) by (eapply dict_get_in_values; eassumption).
    destruct (reload_fold_in cia (save_rows c1) k v) with (c := @nil (string * entry)) (nid := nid)
      as [i Hi].
    + intros e' He' Hk'. apply save_rows_in in He'. destruct He' as [He' _].
      destruct (value_keys e' He') as [_ Hall'].
      apply Hall' in Hk'. congruence.
    + exact Hk.
    + left. now apply value_in_save_rows.
    + rewrite Hi. cbn [option_map]. f_equal.
      destruct (c1_shaped v Hv) as [Sn [_ [[t Ht] _]]].
      unfold triple, truncated, reloaded.
      destruct cia; cbn [name ppp rank]; rewrite Sn, Ht, clean_int_written;
        reflexivity.
  - rewrite reload_fold_out; [reflexivity|].
    intros e He Hk. apply save_rows_in in He. destruct He as [He _].
    destruct (value_keys e He) as [_ Hall]. apply Hall in Hk. congruence.
Qed.

End Reload.

Lemma load_data_inv (t : table) (sch : schema) (nid : nat)
    (c : dict entry) (sch' : schema) (nid' : nat) :
  load_data (Some t) sch nid = Ok (c, sch', nid') ->
  exists cia : bool,
    sch' = (if cia then cia_schema else default_schema)
    /\ wf_dict c
    /\ forall v, In v (dict_values c) -> shaped (negb cia) v.
Proof.
  unfold load_data. destruct (cia_like (csv_fieldnames t)).
  - destruct (load_cia_rows _ _ _ _) as [[c0 n0]|x] eqn:E; cbn [bind];
      [|discriminate].
    intros [= <- <- <-]. exists true. split; [reflexivity|].
    eapply load_cia_rows_inv; [exact E|constructor|intros v []].
  - destruct (load_simple_rows _ _ _ _) as [[c0 n0]|x] eqn:E; cbn [bind];
      [|discriminate].
    intros [= <- <- <-]. exists false. split; [reflexivity|].
    eapply load_simple_rows_inv; [exact E|constructor|intros v []].
Qed.

(** C3, amended.  Take a file in one of the two layouts that loads, into a
    store where every record is bound under each of its own name and slug
    keys and under no other key (no blank name without slug, no record
    displaced from a key by another row), and where every [ppp] is finite.
    Then saving succeeds, the file saved loads again under the same schema,
    and the store read back has the same keys, each bound to a record with
    the same name and rank and with the [ppp] truncated to an integer. *)
Theorem load_save_reload
    (t0 : table) (sch0 : schema) (nid0 : nat)
    (c1 : dict entry) (sch1 : schema) (nid1 : nat) :
  load_data (Some t0) sch0 nid0 = Ok (c1, sch1, nid1) ->
  keyed_ok c1 ->
  all_finite (dict_values c1) ->
  exists rows c2 nid2,
    save_table sch1 c1 = (_current_fieldnames sch1 :: rows, Ok tt)
    /\ load_data (Some (_current_fieldnames sch1 :: rows)) sch1 nid1
       = Ok (c2, sch1, nid2)
    /\ forall k, option_map triple (dict_get k c2)
                 = option_map truncated (dict_get k c1).
Proof.
  intros Hload Hkeyed Hfin.
  destruct (load_data_inv _ _ _ _ _ _ Hload) as [cia [Hsch [W S]]].
  assert (HfinR : all_finite (save_rows c1)).
  { intros e He. apply Hfin. now apply save_rows_in in He. }
  destruct (save_table_ok sch1 c1 HfinR) as [rows [Hm Hst]].
  exists rows, (reload_fold cia (save_rows c1) [] nid1),
    (nid1 + List.length (save_rows c1))%nat.
  split; [exact Hst|]. split.
  - subst sch1. destruct cia.
    + change (_current_fieldnames cia_schema) with CIA_FIELDS in *.
      change (format_row CIA_FIELDS) with cia_row in Hm.
      destruct (reload_cia_rows _ rows [] nid1 HfinR Hm) as [Hnil Hrows].
      unfold load_data. cbn [csv_fieldnames csv_rows].
      change (cia_like CIA_FIELDS) with true. cbn iota.
      rewrite Hnil, Hrows. reflexivity.
    + change (_current_fieldnames default_schema) with SIMPLE_FIELDS in *.
      change (format_row SIMPLE_FIELDS) with simple_row in Hm.
      assert (Hns : forall e, In e (save_rows c1) -> name e <> "" /\ slug e = "").
      { intros e He. apply save_rows_in in He. destruct He as [He _].
        destruct (S e He) as [_ [_ [_ Hsl]]]. specialize (Hsl eq_refl).
        split; [|exact Hsl].
        destruct (value_keys c1 W Hkeyed e He) as [[k Hk] _].
        unfold index_keys in Hk. apply make_index_keys_in in Hk.
        rewrite Hsl in Hk. destruct Hk as [[Hk _]|[Hk _]]; congruence. }
      destruct (reload_simple_rows _ rows [] nid1 HfinR Hns Hm) as [Hnil Hrows].
      unfold load_data. cbn [csv_fieldnames csv_rows].
      change (cia_like SIMPLE_FIELDS) with false. cbn iota.
      rewrite Hnil, Hrows. reflexivity.
  - intros k. apply (reload_lookup c1 (negb cia) W Hkeyed S).
Qed.

Lemma tolerant_store_keyed : keyed_ok tolerant_store.
Proof.
  intros k v H. unfold tolerant_store in H. cbn [dict_get] in H.
  repeat match type of H with
    | (if String.eqb ?a k then _ else _) = _ =>
        destruct (String.eqb_spec a k) as [<-|_];
        [inversion H; subst v; split;
         [vm_compute; left; reflexivity
         |intros k' Hk'; vm_compute in Hk'; destruct Hk' as [<-|[]];
          reflexivity]|]
    end.
  discriminate.
Qed.

(** ** The cache stays a dict, and the order of a set of keys is immaterial *)

(** [_make_index_keys] returns a set; whichever of its two keys is assigned
    first, the cache has the same values in the same order and the same
    bindings. *)
Lemma index_order_irrelevant (k1 k2 : string) (e : entry) (c : dict entry) :
  dict_values (dict_set k2 e (dict_set k1 e c))
  = dict_values (dict_set k1 e (dict_set k2 e c))
  /\ forall k, dict_get k (dict_set k2 e (dict_set k1 e c))
               = dict_get k (dict_set k1 e (dict_set k2 e c)).
Proof.
  split.
  - induction c as [|[k0 v0] r IH]; cbn [dict_set].
    + destruct (string_dec k1 k2) as [->|N].
      * rewrite String.eqb_refl. reflexivity.
      * assert (E : String.eqb k2 k1 = false)
          by (apply String.eqb_neq; congruence).
        assert (E' : String.eqb k1 k2 = false) by now apply String.eqb_neq.
        rewrite E, E'. reflexivity.
    + destruct (string_dec k0 k1) as [E1|N1];
        destruct (string_dec k0 k2) as [E2|N2].
      * subst k1 k2. rewrite String.eqb_refl. cbn [dict_set].
        rewrite String.eqb_refl. reflexivity.
      * subst k1.
        assert (E : String.eqb k0 k2 = false) by now apply String.eqb_neq.
        rewrite String.eqb_refl, E. cbn [dict_set].
        rewrite String.eqb_refl, E. reflexivity.
      * subst k2.
        assert (E : String.eqb k0 k1 = false) by now apply String.eqb_neq.
        rewrite String.eqb_refl, E. cbn [dict_set].
        rewrite String.eqb_refl, E. reflexivity.
      * assert (E1 : String.eqb k0 k1 = false) by now apply String.eqb_neq.
        assert (E2 : String.eqb k0 k2 = false) by now apply String.eqb_neq.
        rewrite E1, E2. cbn [dict_set]. rewrite E1, E2.
        cbn [dict_values map snd].
        unfold dict_values in IH. now rewrite IH.
  - intros k.
    destruct (string_dec k k2) as [->|N2].
    + rewrite dict_get_set_same.
      destruct (string_dec k2 k1) as [->|N1].
      * now rewrite dict_get_set_same.
      * rewrite dict_get_set_other by assumption.
        now rewrite dict_get_set_same.
    + rewrite dict_get_set_other by assumption.
      destruct (string_dec k k1) as [->|N1].
      * now rewrite !dict_get_set_same.
      * now rewrite !dict_get_set_other by assumption.
Qed.

Lemma start_wf (file deleted : option table) (w : world) :
  start file deleted = Ok w -> wf_dict (cache w).
Proof.
  unfold start. destruct file as [t|].
  - destruct (load_data (Some t) default_schema 0) as [[[c s] n]|x] eqn:E;
      cbn [bind]; [|discriminate].
    intros [= <-]. cbn [cache].
    destruct (load_data_inv _ _ _ _ _ _ E) as [_ [_ [W _]]]. exact W.
  - cbn [load_data bind]. intros [= <-]. constructor.
Qed.

Lemma update_country_wf (a b c d e f : string) (w : world) :
  wf_dict (cache w) -> wf_dict (cache (fst (update_country a b c d e f w))).
Proof.
  intros W. unfold update_country.
  destruct (_clean_number _) as [p|x]; [|exact W].
  rewrite cache_save_data. cbn [cache set_next_id set_cache].
  now apply wf_index_entry.
Qed.

Lemma delete_entry_wf (q : string) (w : world) :
  wf_dict (cache w) -> wf_dict (cache (fst (delete_entry q w))).
Proof.
  intros W. destruct (_find (cache w) (strip q)) as [e|] eqn:F.
  - rewrite (cache_delete_entry _ _ _ F), pop_all_keys_of_object by assumption.
    now apply wf_dict_filter.
  - unfold delete_entry. now rewrite F.
Qed.

Lemma merge_deleted_back_wf (w : world) :
  wf_dict (cache w) -> wf_dict (cache (fst (merge_deleted_back w))).
Proof.
  intros W.
  destruct (load_deleted (deleted_file w) (next_id w)) as [[items nid]|x] eqn:L.
  - rewrite (cache_merge_deleted_back _ _ _ L). now apply wf_cache_after.
  - unfold merge_deleted_back. now rewrite L.
Qed.

(** ** Object identities *)

Lemma ids_ok_weaken (c : dict entry) (n m : nat) :
  (n <= m)%nat -> ids_ok c n -> ids_ok c m.
Proof.
  intros L [H1 H2]. split; [|exact H2]. intros v Hv. specialize (H1 v Hv). lia.
Qed.

Lemma ids_ok_add (c c' : dict entry) (e : entry) (n : nat) :
  (forall v, In v (dict_values c') -> In v (dict_values c) \/ v = e) ->
  oid e = n -> ids_ok c n -> ids_ok c' (S n).
Proof.
  intros Hsub L [H1 H2]. split.
  - intros v Hv. destruct (Hsub v Hv) as [G | ->]; [|lia].
    specialize (H1 v G). lia.
  - intros v1 v2 Hv1 Hv2 E.
    destruct (Hsub v1 Hv1) as [G1 | ->]; destruct (Hsub v2 Hv2) as [G2 | ->];
      auto.
    + specialize (H1 v1 G1). lia.
    + specialize (H1 v2 G2). lia.
Qed.

Lemma ids_ok_sub (c c' : dict entry) (n : nat) :
  (forall v, In v (dict_values c') -> In v (dict_values c)) ->
  ids_ok c n -> ids_ok c' n.
Proof.
  intros Hsub [H1 H2]. split; auto.
Qed.

Lemma load_cia_rows_ids (fields : list string) (rows : list (list string)) :
  forall c nid c' nid',
    load_cia_rows fields rows c nid = Ok (c', nid') ->
    ids_ok c nid -> (nid <= nid')%nat /\ ids_ok c' nid'.
Proof.
  induction rows as [|row r IH]; intros c nid c' nid' H I.
  - inversion H; subst. split; [lia|exact I].
  - cbn [load_cia_rows] in H.
    destruct (_clean_number _) as [p|x]; cbn [bind] in H; [|discriminate].
    apply IH in H.
    + destruct H as [L I']. split; [lia|exact I'].
    + eapply (ids_ok_add c);
        [intros v Hv; apply index_entry_values in Hv; exact Hv
        |reflexivity|exact I].
Qed.

Lemma load_simple_rows_ids (fields : list string) (rows : list (list string)) :
  forall c nid c' nid',
    load_simple_rows fields rows c nid = Ok (c', nid') ->
    ids_ok c nid -> (nid <= nid')%nat /\ ids_ok c' nid'.
Proof.
  induction rows as [|row r IH]; intros c nid c' nid' H I.
  - inversion H; subst. split; [lia|exact I].
  - cbn [load_simple_rows] in H.
    destruct (_clean_number _) as [p|x]; cbn [bind] in H; [|discriminate].
    apply IH in H.
    + destruct H as [L I']. split; [lia|exact I'].
    + eapply (ids_ok_add c);
        [intros v Hv; apply dict_set_values in Hv; exact Hv
        |reflexivity|exact I].
Qed.

Lemma ids_ok_nil (n : nat) : ids_ok [] n.
Proof. split; [intros v []|intros v1 v2 []]. Qed.

(** The process starts with distinct objects. *)
Lemma start_ids (file deleted : option table) (w : world) :
  start file deleted = Ok w -> ids_ok (cache w) (next_id w).
Proof.
  unfold start, load_data. destruct file as [t|].
  - destruct (cia_like (csv_fieldnames t)).
    + destruct (load_cia_rows _ _ _ _) as [[c n]|x] eqn:E; cbn [bind];
        [|discriminate].
      intros [= <-]. cbn [cache next_id].
      now apply load_cia_rows_ids in E; [destruct E|apply ids_ok_nil].
    + destruct (load_simple_rows _ _ _ _) as [[c n]|x] eqn:E; cbn [bind];
        [|discriminate].
      intros [= <-]. cbn [cache next_id].
      now apply load_simple_rows_ids in E; [destruct E|apply ids_ok_nil].
  - cbn [bind]. intros [= <-]. apply ids_ok_nil.
Qed.

Lemma next_id_save_data (w : world) : next_id (fst (save_data w)) = next_id w.
Proof.
  unfold save_data. destruct (save_table (CURRENT_SCHEMA w) (cache w)).
  reflexivity.
Qed.

(** [update_country] creates one new object. *)
Lemma update_country_ids (a b c d e f : string) (w : world) :
  ids_ok (cache w) (next_id w) ->
  let w' := fst (update_country a b c d e f w) in
  ids_ok (cache w') (next_id w').
Proof.
  intros I. unfold update_country.
  destruct (_clean_number _) as [p|x]; [|exact I]. cbn zeta.
  rewrite cache_save_data, next_id_save_data.
  cbn [cache next_id set_next_id set_cache].
  eapply (ids_ok_add (cache w));
    [intros v Hv; apply index_entry_values in Hv; exact Hv
    |reflexivity|exact I].
Qed.

Lemma next_id_delete_entry (q : string) (w : world) :
  next_id (fst (delete_entry q w)) = next_id w.
Proof.
  unfold delete_entry. destruct (_find (cache w) (strip q)); [|reflexivity].
  unfold append_deleted. cbn [CURRENT_SCHEMA set_cache deleted_file].
  destruct (append_table _ _ _ _) as [[fl o] [u|x]]; [|reflexivity].
  match goal with
  | |- context [save_data ?w0] =>
      pose proof (next_id_save_data w0) as Hs;
      destruct (save_data w0) as [w3 [u'|x]]
  end; cbn [fst] in *; rewrite Hs; reflexivity.
Qed.

(** [delete_entry] creates no object. *)
Lemma delete_entry_ids (q : string) (w : world) :
  wf_dict (cache w) -> ids_ok (cache w) (next_id w) ->
  let w' := fst (delete_entry q w) in
  ids_ok (cache w') (next_id w').
Proof.
  intros W I. cbn zeta. rewrite next_id_delete_entry.
  destruct (_find (cache w) (strip q)) as [e|] eqn:F.
  - rewrite (cache_delete_entry _ _ _ F), pop_all_keys_of_object by assumption.
    eapply ids_ok_sub; [|exact I]. intros v Hv.
    unfold dict_values in *. apply in_map_iff in Hv.
    destruct Hv as [kv [<- Hkv]]. apply filter_In in Hkv.
    apply in_map. tauto.
  - unfold delete_entry. now rewrite F.
Qed.

Lemma load_deleted_rows_next (cia : bool) (fields : list string) (rows : list (list string)) :
  forall nid items nid',
    load_deleted_rows cia fields rows nid = Ok (items, nid') ->
    nid' = (nid + List.length items)%nat.
Proof.
  induction rows as [|row r IH]; intros nid items nid' H; simpl in H.
  - inversion H; subst. simpl. lia.
  - destruct cia.
    + destruct (_clean_number _) as [p|x]; simpl in H; [|discriminate].
      destruct (load_deleted_rows true fields r (S nid)) as [[its n]|x] eqn:E;
        simpl in H; [|discriminate].
      inversion H; subst. apply IH in E. simpl. lia.
    + destruct (_clean_number _) as [p|x]; simpl in H; [|discriminate].
      destruct (load_deleted_rows false fields r (S nid)) as [[its n]|x] eqn:E;
        simpl in H; [|discriminate].
      inversion H; subst. apply IH in E. simpl. lia.
Qed.

Lemma load_deleted_ids (file : option table) (nid : nat) (items : list entry) (nid' : nat) :
  load_deleted file nid = Ok (items, nid') ->
  map oid items = seq nid (List.length items)
  /\ nid' = (nid + List.length items)%nat.
Proof.
  destruct file as [t|]; simpl; intros H.
  - split; [eapply load_deleted_rows_oids | eapply load_deleted_rows_next];
      eassumption.
  - inversion H; subst. simpl. split; [reflexivity|lia].
Qed.

Lemma next_id_merge_deleted_back (w : world) (items : list entry) (nid : nat) :
  load_deleted (deleted_file w) (next_id w) = Ok (items, nid) ->
  next_id (fst (merge_deleted_back w)) = nid.
Proof.
  intros H. rewrite (merge_deleted_back_unfold w items nid H). cbn zeta.
  destruct items as [|e r]; [reflexivity|]. cbn [is_nil].
  match goal with
  | |- context [save_data ?w0] =>
      pose proof (next_id_save_data w0) as Hs;
      destruct (save_data w0) as [w2 [u|x]]
  end; cbn [fst] in Hs; [|exact Hs].
  unfold rewrite_deleted.
  destruct (rewrite_table _ _) as [t [u'|x]]; cbn [fst]; exact Hs.
Qed.

(** [merge_deleted_back] creates one object per archived row, and the
    objects of the cache stay distinct. *)
Lemma merge_deleted_back_ids (w : world) :
  ids_ok (cache w) (next_id w) ->
  let w' := fst (merge_deleted_back w) in
  ids_ok (cache w') (next_id w').
Proof.
  intros [I1 I2]. cbn zeta.
  destruct (load_deleted (deleted_file w) (next_id w)) as [[items nid]|x] eqn:L.
  - rewrite (cache_merge_deleted_back _ _ _ L), (next_id_merge_deleted_back _ _ _ L).
    destruct (load_deleted_ids _ _ _ _ L) as [Ho Hn].
    assert (Hi : forall v, In v items ->
                   (next_id w <= oid v < nid)%nat).
    { intros v Hv. apply (in_map oid) in Hv. rewrite Ho in Hv.
      apply in_seq in Hv. lia. }
    assert (Hinj : forall v1 v2, In v1 items -> In v2 items ->
                     oid v1 = oid v2 -> v1 = v2).
    { assert (N : NoDup (map oid items)) by (rewrite Ho; apply seq_NoDup).
      clear - N. induction items as [|x r IH]; intros v1 v2 H1 H2 E;
        [destruct H1|].
      simpl in N. inversion N as [|? ? Hn N']; subst.
      destruct H1 as [<-|H1]; destruct H2 as [<-|H2]; auto.
      - exfalso. apply Hn. rewrite E. now apply in_map.
      - exfalso. apply Hn. rewrite <- E. now apply in_map. }
    split.
    + intros v Hv. apply cache_after_values in Hv. destruct Hv as [Hv|Hv].
      * specialize (I1 v Hv). lia.
      * specialize (Hi v Hv). lia.
    + intros v1 v2 Hv1 Hv2 E.
      apply cache_after_values in Hv1. apply cache_after_values in Hv2.
      destruct Hv1 as [Hv1|Hv1]; destruct Hv2 as [Hv2|Hv2]; auto.
      * specialize (I1 v1 Hv1). specialize (Hi v2 Hv2). lia.
      * specialize (I1 v2 Hv2). specialize (Hi v1 Hv1). lia.
  - unfold merge_deleted_back. rewrite L. split; assumption.
Qed.

(** * Further properties *)

(** ** Normalisation and lookup *)

Lemma lower_char_idem (c : ascii) : lower_char (lower_char c) = lower_char c.
Proof. ascii_cases c; reflexivity. Qed.

Lemma lower_char_space (c : ascii) : py_isspace (lower_char c) = py_isspace c.
Proof. ascii_cases c; reflexivity. Qed.

Lemma lower_idem (s : string) : lower (lower s) = lower s.
Proof.
  induction s as [|c r IH]; simpl; [reflexivity|].
  now rewrite lower_char_idem, IH.
Qed.

Lemma lower_lstrip (s : string) :
  lower (lstrip_by py_isspace s) = lstrip_by py_isspace (lower s).
Proof.
  induction s as [|c r IH]; simpl; [reflexivity|].
  rewrite lower_char_space. destruct (py_isspace c); [exact IH|reflexivity].
Qed.

Lemma lower_rstrip (s : string) :
  lower (rstrip_by py_isspace s) = rstrip_by py_isspace (lower s).
Proof.
  induction s as [|c r IH]; [reflexivity|].
  cbn [lower]. rewrite !rstrip_cons, <- IH, lower_char_space.
  destruct (rstrip_by py_isspace r); [|reflexivity].
  now destruct (py_isspace c).
Qed.

Lemma lower_strip (s : string) : lower (strip s) = strip (lower s).
Proof.
  unfold strip, strip_by. now rewrite lower_lstrip, lower_rstrip.
Qed.

Lemma norm_idem (s : string) : _norm (_norm s) = _norm s.
Proof.
  unfold _norm. now rewrite <- lower_strip, lower_idem, strip_idem.
Qed.

Lemma norm_lower (s : string) : _norm (lower s) = _norm s.
Proof. unfold _norm. now rewrite <- lower_strip, lower_idem. Qed.

(** X1.  [_find] looks at its query only through [_norm]: the query in
    lower case, the query without the blanks around it, and the normalised
    query all find what the query finds. *)
Theorem find_ignores_case_and_blanks (c : dict entry) (q : string) :
  _find c (lower q) = _find c q
  /\ _find c (strip q) = _find c q
  /\ _find c (_norm q) = _find c q.
Proof.
  unfold _find. now rewrite norm_lower, norm_strip, norm_idem.
Qed.

(** X2.  The keys [_make_index_keys] returns are normalised and distinct,
    there are at most two of them, and there is none exactly when the name
    and the slug are both empty. *)
Theorem make_index_keys_shape (n s : string) :
  NoDup (_make_index_keys n s)
  /\ (forall k, In k (_make_index_keys n s) -> _norm k = k)
  /\ (List.length (_make_index_keys n s) <= 2)%nat
  /\ (_make_index_keys n s = [] <-> n = "" /\ s = "").
Proof.
  split; [|split; [|split]].
  - unfold _make_index_keys.
    destruct (truthy n); destruct (truthy s); cbn [andb];
      try (repeat constructor; simpl; tauto).
    unfold str_in. cbn [existsb]. rewrite orb_false_r.
    destruct (String.eqb_spec (_norm s) (_norm n)) as [E|N]; cbn [negb].
    + repeat constructor. simpl. tauto.
    + destruct (key_order _ _);
        (constructor; [|repeat constructor; simpl; tauto]);
        simpl; intros [H|[]]; congruence.
  - intros k Hk. apply make_index_keys_in in Hk.
    destruct Hk as [[_ ->]|[_ ->]]; apply norm_idem.
  - unfold _make_index_keys.
    destruct (truthy n); destruct (truthy s && _); cbn [app];
      try destruct (key_order _ _); simpl; lia.
  - unfold _make_index_keys. destruct n as [|a n]; destruct s as [|b s];
      cbn [truthy andb].
    + tauto.
    + cbn [str_in existsb negb app]. split; [discriminate|].
      intros [_ H]. discriminate.
    + split; [discriminate|]. intros [H _]. discriminate.
    + split; [|intros [H _]; discriminate].
      destruct (negb _); [destruct (key_order _ _)|]; discriminate.
Qed.

(** ** More on the numeric normaliser *)

Lemma round_nearest_even_nonneg (m : Z) (l : location) :
  0 <= m -> 0 <= round_nearest_even m l.
Proof.
  intros H. unfold round_nearest_even.
  destruct l as [|[| |]]; try destruct (Z.even m); lia.
Qed.

Lemma shr_fexp_nonneg (m e : Z) (l : location) :
  0 <= m -> 0 <= shr_m (fst (shr_fexp prec emax m e l)).
Proof.
  intros H. unfold shr_fexp, shr.
  assert (E : shr_m (shr_record_of_loc m l) = m)
    by (destruct l as [|[| |]]; reflexivity).
  destruct (fexp prec emax (Zdigits2 m + e) - e) as [|p|p]; cbn [fst];
    try (rewrite E; exact H).
  apply iter_shr_m. now rewrite E.
Qed.

Lemma binary_round_aux_not_nan (s : bool) (mx ex : Z) (lx : location) :
  0 <= mx -> binary_round_aux prec emax s mx ex lx <> S754_nan.
Proof.
  intros H. unfold binary_round_aux.
  pose proof (shr_fexp_nonneg mx ex lx H) as H1.
  destruct (shr_fexp prec emax mx ex lx) as [mrs' e']. cbn [fst] in H1.
  pose proof (round_nearest_even_nonneg _ (loc_of_shr_record mrs') H1) as H2.
  pose proof (shr_fexp_nonneg _ e' loc_Exact H2) as H3.
  destruct (shr_fexp prec emax _ e' loc_Exact) as [mrs'' e'']. cbn [fst] in H3.
  destruct (shr_m mrs'') as [|p|p]; try discriminate; [|lia].
  destruct (Z.leb e'' (emax - prec)); discriminate.
Qed.

Lemma dec2float_not_nan (neg : bool) (m e10 : Z) : dec2float neg m e10 <> S754_nan.
Proof.
  unfold dec2float. destruct m as [|p|p]; try discriminate.
  destruct (0 <=? e10)%Z eqn:Ee.
  - unfold binary_round. destruct (shl_align _ _ _) as [mz ez].
    apply binary_round_aux_not_nan. lia.
  - unfold SFdiv_core_binary.
    set (m' := match _ - _ with Z0 => Zpos p | Zpos _ => _ | Zneg _ => 0 end).
    assert (Hm : 0 <= m').
    { subst m'. destruct (_ - _); try lia. apply Z.shiftl_nonneg. lia. }
    assert (Hq : 0 <= fst (Z.div_eucl m' (10 ^ (- e10)))).
    { change (fst (Z.div_eucl m' (10 ^ (- e10)))) with (m' / 10 ^ (- e10)).
      apply Z.leb_gt in Ee.
      apply Z.div_pos; [exact Hm|]. apply Z.pow_pos_nonneg; lia. }
    destruct (Z.div_eucl m' (10 ^ (- e10))) as [q r]. cbn [fst] in Hq.
    now apply binary_round_aux_not_nan.
Qed.

Lemma float_of_string_raises (s : string) (x : exn) :
  float_of_string s = Raise x -> x = ValueError.
Proof.
  unfold float_of_string. destruct (scan_sign _) as [neg body].
  destruct (_ || _); [discriminate|].
  destruct (String.eqb _ _); [discriminate|].
  destruct (scan_number body) as [[m e]|]; [discriminate|].
  now intros [= <-].
Qed.

Lemma amount_char_lower (c : ascii) :
  amount_char c = true ->
  lower_char c <> "n"%char /\ lower_char c <> "i"%char.
Proof. ascii_cases c; vm_compute; intros H; split; congruence. Qed.

Lemma keep_char_amount (c : ascii) : keep_char c = true -> amount_char c = true.
Proof.
  unfold keep_char, amount_char. intros H.
  repeat (apply orb_true_iff in H; destruct H as [H|H]);
    rewrite H; repeat rewrite orb_true_r; reflexivity.
Qed.

Lemma forall_str_lstrip (p sp : ascii -> bool) (s : string) :
  forall_str p s = true -> forall_str p (lstrip_by sp s) = true.
Proof.
  induction s as [|c r IH]; simpl; [auto|].
  intros H. destruct (sp c); [|exact H].
  apply andb_true_iff in H. now apply IH.
Qed.

Lemma forall_str_rstrip (p sp : ascii -> bool) (s : string) :
  forall_str p s = true -> forall_str p (rstrip_by sp s) = true.
Proof.
  induction s as [|c r IH]; [auto|].
  cbn [forall_str]. intros H. apply andb_true_iff in H. destruct H as [Hc Hr].
  rewrite rstrip_cons. specialize (IH Hr).
  destruct (rstrip_by sp r) as [|c' r'].
  - destruct (sp c); simpl; [reflexivity|]. now rewrite Hc.
  - cbn [forall_str] in *. now rewrite Hc, IH.
Qed.

Lemma forall_str_filter (p q : ascii -> bool) (s : string) :
  forall_str p s = true -> forall_str p (filter_str q s) = true.
Proof.
  induction s as [|c r IH]; simpl; [auto|].
  intros H. apply andb_true_iff in H. destruct H as [Hc Hr].
  destruct (q c); simpl; [rewrite Hc|]; auto.
Qed.

Lemma forall_str_filter_self (q : ascii -> bool) (s : string) :
  forall_str q (filter_str q s) = true.
Proof.
  induction s as [|c r IH]; simpl; [reflexivity|].
  destruct (q c) eqn:E; simpl; [rewrite E|]; auto.
Qed.

(** On text made of the characters of an amount, [float] gives a number
    that is not NaN, or raises [ValueError]. *)
Lemma float_of_amount_text (t : string) :
  forall_str amount_char t = true ->
  (exists f, float_of_string t = Ok f /\ f <> S754_nan /\ in_format f)
  \/ float_of_string t = Raise ValueError.
Proof.
  intros H.
  destruct (float_of_string t) as [f|x] eqn:E.
  - left. exists f. split; [reflexivity|].
    split; [|now apply (float_of_string_in_format t)].
    unfold float_of_string in E.
    assert (Hb : forall_str amount_char (strip_by float_isspace t) = true)
      by (apply forall_str_lstrip, forall_str_rstrip, H).
    destruct (scan_sign (strip_by float_isspace t)) as [neg body] eqn:Es.
    assert (Hbody : forall_str amount_char body = true).
    { unfold scan_sign in Es.
      destruct (strip_by float_isspace t) as [|c r]; [now inversion Es; subst|].
      cbn [forall_str] in Hb. apply andb_true_iff in Hb. destruct Hb as [Hc Hr].
      destruct (Ascii.eqb c "-"); [now inversion Es; subst|].
      destruct (Ascii.eqb c "+"); inversion Es; subst; auto.
      cbn [forall_str]. now rewrite Hc, Hr. }
    assert (Hlow : forall w, String.eqb (lower body) w = true ->
                     w = ""
                     \/ exists c r, w = String (lower_char c) r
                                    /\ amount_char c = true).
    { intros w Hw. apply String.eqb_eq in Hw. subst w.
      destruct body as [|c r]; [now left|].
      right. exists c, (lower r). cbn [forall_str] in Hbody.
      apply andb_true_iff in Hbody. split; [reflexivity|tauto]. }
    assert (Hno : forall w, (w = "inf" \/ w = "infinity" \/ w = "nan") ->
                     String.eqb (lower body) w = false).
    { intros w Hw. destruct (String.eqb (lower body) w) eqn:Ew; [|reflexivity].
      exfalso. apply Hlow in Ew. destruct Ew as [Ew|[c [r [Ew Hc]]]].
      - destruct Hw as [Hw|[Hw|Hw]]; rewrite Hw in Ew; discriminate.
      - apply amount_char_lower in Hc. destruct Hc as [Hn Hi].
        destruct Hw as [Hw|[Hw|Hw]]; rewrite Hw in Ew; inversion Ew; congruence. }
    rewrite !Hno in E by tauto. cbn [orb] in E.
    destruct (scan_number body) as [[m e10]|]; [|discriminate].
    inversion E; subst. apply dec2float_not_nan.
  - right. now rewrite (float_of_string_raises t x E).
Qed.

Lemma clean_fallback_cases (s : string) :
  (exists f, clean_fallback s = Ok f /\ f <> S754_nan /\ in_format f)
  \/ clean_fallback s = Raise ValueError.
Proof.
  unfold clean_fallback. destruct (truthy (filter_str keep_char s)).
  - apply float_of_amount_text.
    apply (forall_str_impl keep_char); [exact keep_char_amount|].
    apply forall_str_filter_self.
  - left. exists (S754_zero false). repeat split; discriminate.
Qed.

(** X3.  On any text [_clean_number] returns a float that is not NaN and
    lies within binary64, or it raises [ValueError]; it raises nothing
    else. *)
Theorem clean_number_text_outcome (s : string) :
  (exists f, _clean_number (PStr s) = Ok f /\ f <> S754_nan /\ in_format f)
  \/ _clean_number (PStr s) = Raise ValueError.
Proof.
  cbn [_clean_number]. unfold clean_number_str.
  destruct (amount_re (strip s)) eqn:Ere; [|apply clean_fallback_cases].
  set (s1 := remove_char "$" (remove_char " " (remove_char "," (strip s)))).
  assert (H1 : forall_str amount_char s1 = true).
  { unfold amount_re in Ere. apply andb_true_iff in Ere. destruct Ere as [_ Ha].
    subst s1. unfold remove_char. now repeat apply forall_str_filter. }
  destruct (float_of_amount_text s1 H1) as [[f [E [N F]]]|E]; rewrite E.
  - left. now exists f.
  - apply clean_fallback_cases.
Qed.

Lemma int_of_Z2F (n : Z) : Z.abs n <= 2 ^ 53 -> int_of_float (Z2F n) = Ok n.
Proof.
  intros Hn. destruct (Z.eq_dec n 0) as [->|N0]; [reflexivity|].
  destruct (Z.abs n) as [|N|N] eqn:EN; try lia.
  rewrite (Z2F_pos (n <? 0)%Z n N EN).
  assert (Hex : exists (a : positive) (j : Z),
             Zpos N = Zpos a * 2 ^ j /\ 0 <= j
             /\ Zpos (digits2_pos a) <= 53
             /\ Zpos (digits2_pos a) + j <= 1024).
  { destruct (Z.eq_dec (Zpos N) (2 ^ 53)) as [E|NE].
    - exists 1%positive, 53. rewrite E. repeat split; cbn; lia.
    - exists N, 0. rewrite Z.mul_1_r.
      assert (Hd : Zpos (digits2_pos N) <= 53).
      { rewrite digits2_log2.
        assert (Z.log2 (Zpos N) < 53); [|lia].
        apply Z.log2_lt_pow2; lia. }
      repeat split; lia. }
  destruct Hex as [a [j [H1 [H2 [H3 H4]]]]].
  destruct (binary_round_exact (n <? 0)%Z N a j H1 H2 H3 H4) as [m [e [Hb Hs]]].
  rewrite Hb. cbn [int_of_float]. rewrite Hs. f_equal.
  destruct (n <? 0)%Z eqn:Es; cbn [cond_Zopp];
    [apply Z.ltb_lt in Es | apply Z.ltb_ge in Es]; lia.
Qed.

(** X4.  An int of magnitude up to 2^53 survives being written and read:
    [_clean_int] reads its decimal text back as the int, and [_clean_number]
    reads both the plain text that [save_data] writes under the simple
    header and the comma-grouped text written under the CIA header (and
    printed by [_print_entry]) as the float whose [int] is that int.  The
    bound is sharp: 2^53 + 1 is read back as 2^53. *)
Theorem written_int_read_back (n : Z) :
  Z.abs n <= 2 ^ 53 ->
  _clean_int (Some (str_of_int n)) = n
  /\ _clean_number (PStr (str_of_int n)) = Ok (Z2F n)
  /\ _clean_number (PStr (fmt_grouped n)) = Ok (Z2F n)
  /\ int_of_float (Z2F n) = Ok n
  /\ _clean_int (Some (str_of_int (2 ^ 53 + 1))) = 2 ^ 53.
Proof.
  intros Hn. pose proof (int_of_Z2F n Hn) as Hi.
  split; [|split; [|split; [|split]]].
  - unfold _clean_int. cbn [str_of_cell].
    now rewrite strip_str_of_int, float_of_string_str_of_int, Hi.
  - cbn [_clean_number]. apply clean_number_str_of_int.
  - cbn [_clean_number]. apply clean_number_fmt_grouped.
  - exact Hi.
  - vm_compute. reflexivity.
Qed.

(** X5.  The int [_clean_int] returns is stable under writing: for any
    cell, it is written as a text that is not empty, has no blanks around
    it, and is read back by [_clean_int] as the same int, however large. *)
Theorem clean_int_stable (t : option string) :
  _clean_int (Some (str_of_int (_clean_int t))) = _clean_int t
  /\ strip (str_of_int (_clean_int t)) = str_of_int (_clean_int t)
  /\ str_of_int (_clean_int t) <> "".
Proof.
  split; [apply clean_int_written|]. split; [apply strip_str_of_int|].
  apply truthy_true, str_of_int_truthy.
Qed.

(** ** Loading and saving *)

Lemma store_ok_nil : store_ok [].
Proof. split; [constructor|]. intros k v H. discriminate. Qed.

Lemma store_ok_set (k : string) (e : entry) (c : dict entry) :
  store_ok c -> binding_ok k e -> entry_ok e -> store_ok (dict_set k e c).
Proof.
  intros [W H] B E. split; [now apply wf_dict_set|].
  intros k' v G. destruct (string_dec k' k) as [->|N].
  - rewrite dict_get_set_same in G. inversion G; subst. now split.
  - rewrite dict_get_set_other in G by assumption. now apply H.
Qed.

Lemma store_ok_index (ks : list string) (e : entry) :
  forall c, store_ok c -> (forall k, In k ks -> binding_ok k e) -> entry_ok e ->
            store_ok (index_entry ks e c).
Proof.
  induction ks as [|k ks IH]; intros c S B E; [exact S|].
  cbn [index_entry fold_left]. apply IH; [|intros k' Hk'; apply B; now right|exact E].
  apply store_ok_set; [exact S| apply B; now left | exact E].
Qed.

Lemma index_keys_binding (n s : string) (e : entry) (k : string) :
  name e = strip n -> slug e = strip s ->
  In k (_make_index_keys n s) -> binding_ok k e.
Proof.
  intros Hn Hs Hk. apply make_index_keys_in in Hk. unfold binding_ok.
  rewrite Hn, Hs, !norm_strip. destruct Hk as [[_ ->]|[_ ->]]; auto.
Qed.

Lemma clean_number_str_sound (s : string) (p : spec_float) :
  _clean_number (PStr s) = Ok p -> sound_number p.
Proof.
  intros H.
  destruct (clean_number_text_outcome s) as [[f [E S]]|E]; [|congruence].
  assert (f = p) by congruence. subst. exact S.
Qed.

Lemma clean_number_str_raise (s : string) (x : exn) :
  _clean_number (PStr s) = Raise x -> x = ValueError.
Proof.
  intros H.
  destruct (clean_number_text_outcome s) as [[f [E S]]|E]; congruence.
Qed.

Lemma load_cia_rows_ok (fields : list string) (rows : list (list string)) :
  forall c nid,
    store_ok c ->
    (exists c' nid', load_cia_rows fields rows c nid = Ok (c', nid') /\ store_ok c')
    \/ load_cia_rows fields rows c nid = Raise ValueError.
Proof.
  induction rows as [|row r IH]; intros c nid S.
  - left. now exists c, nid.
  - cbn [load_cia_rows].
    destruct (_clean_number _) as [p|x] eqn:E; cbn [bind].
    + apply IH. apply store_ok_index; [exact S| |].
      * intros k Hk. eapply index_keys_binding; [| |exact Hk]; reflexivity.
      * unfold entry_ok. cbn [name slug date region ppp rank].
        rewrite !strip_idem, clean_int_written.
        pose proof (clean_number_str_sound _ _ E) as Sp.
        repeat (split; [reflexivity|]). split; [exact Sp|reflexivity].
    + right. f_equal. now apply clean_number_str_raise in E.
Qed.

Lemma load_simple_rows_ok (fields : list string) (rows : list (list string)) :
  forall c nid,
    store_ok c ->
    (exists c' nid', load_simple_rows fields rows c nid = Ok (c', nid') /\ store_ok c')
    \/ load_simple_rows fields rows c nid = Raise ValueError.
Proof.
  induction rows as [|row r IH]; intros c nid S.
  - left. now exists c, nid.
  - cbn [load_simple_rows].
    destruct (_clean_number _) as [p|x] eqn:E; cbn [bind].
    + apply IH. apply store_ok_set; [exact S| |].
      * left. cbn [name]. now rewrite norm_strip.
      * unfold entry_ok. cbn [name slug date region ppp rank].
        rewrite !strip_idem, clean_int_written.
        pose proof (clean_number_str_sound _ _ E) as Sp.
        repeat (split; [reflexivity|]). split; [exact Sp|reflexivity].
    + right. f_equal. now apply clean_number_str_raise in E.
Qed.

Lemma load_data_store_ok (file : option table) (sch : schema) (nid : nat)
    (c : dict entry) (sch' : schema) (nid' : nat) :
  load_data file sch nid = Ok (c, sch', nid') ->
  store_ok c
  /\ sch' = match file with
            | Some t => if cia_like (csv_fieldnames t) then cia_schema
                        else default_schema
            | None => sch
            end.
Proof.
  destruct file as [t|]; cbn [load_data].
  - destruct (cia_like (csv_fieldnames t)).
    + destruct (load_cia_rows_ok (csv_fieldnames t) (csv_rows t) [] nid store_ok_nil)
        as [[c0 [n0 [E S]]]|E]; rewrite E; cbn [bind]; [|discriminate].
      now intros [= <- <- <-].
    + destruct (load_simple_rows_ok (csv_fieldnames t) (csv_rows t) [] nid store_ok_nil)
        as [[c0 [n0 [E S]]]|E]; rewrite E; cbn [bind]; [|discriminate].
      now intros [= <- <- <-].
  - intros [= <- <- <-]. split; [apply store_ok_nil|reflexivity].
Qed.


Lemma find_matches (c : dict entry) (q : string) (v : entry) :
  store_ok c -> _find c q = Some v ->
  _norm (name v) = _norm q \/ _norm (slug v) = _norm q.
Proof.
  intros [W H] F.
  unfold _find in F. destruct (dict_get (_norm q) c) as [v'|] eqn:G.
  - inversion F; subst v'. destruct (H _ _ G) as [[B|B] _]; auto.
  - apply find_some in F. destruct F as [_ F]. unfold find_match in F.
    apply orb_true_iff in F. destruct F as [F|F]; apply String.eqb_eq in F; auto.
Qed.

(** X8.  In a cache as the program keeps it, [_find] is sound: the record
    it returns for a query is a record of the cache that has the query, up
    to case and surrounding blanks, as its name or as its slug. *)
Theorem find_sound (c : dict entry) (q : string) (v : entry) :
  store_ok c -> _find c q = Some v ->
  In v (dict_values c)
  /\ (_norm (name v) = _norm q \/ _norm (slug v) = _norm q).
Proof.
  intros S F. split; [eapply find_in_values; exact F|].
  now apply (find_matches c).
Qed.

Lemma format_row_ok_finite (fields : list string) (e : entry) (row : list string) :
  format_row fields e = Ok row -> is_finite (ppp e) = true.
Proof.
  unfold format_row, cia_row, simple_row.
  destruct (ppp e) as [s|s| |s m x]; try reflexivity;
    destruct (strings_eqb fields CIA_FIELDS); cbn; discriminate.
Qed.

Lemma format_row_not_finite (fields : list string) (e : entry) :
  is_finite (ppp e) = false ->
  exists x, int_of_float (ppp e) = Raise x /\ format_row fields e = Raise x.
Proof.
  unfold format_row, cia_row, simple_row.
  destruct (ppp e) as [s|s| |s m x]; try discriminate; intros _;
    destruct (strings_eqb fields CIA_FIELDS); eexists; split; reflexivity.
Qed.

Lemma write_rows_status (fmt : entry -> result (list string)) (es : list entry) :
  snd (write_rows fmt es) = Ok tt ->
  forall e, In e es -> exists row, fmt e = Ok row.
Proof.
  induction es as [|a r IH]; intros H e He; [destruct He|].
  cbn [write_rows] in H. destruct (fmt a) as [row|x] eqn:Ea; [|discriminate].
  destruct (write_rows fmt r) as [rows st]. cbn [snd] in *.
  destruct He as [<-|He]; [now exists row|now apply IH].
Qed.

Lemma write_rows_stops (fmt : entry -> result (list string))
    (pre : list entry) (e : entry) (post : list entry)
    (rows : list (list string)) (x : exn) :
  mapM fmt pre = Ok rows -> fmt e = Raise x ->
  write_rows fmt (pre ++ e :: post) = (rows, Raise x).
Proof.
  revert rows. induction pre as [|a r IH]; intros rows Hm He.
  - inversion Hm; subst. cbn [app write_rows]. now rewrite He.
  - cbn [mapM] in Hm. cbn [app write_rows].
    destruct (fmt a) as [row|y]; cbn [bind] in Hm; [|discriminate].
    destruct (mapM fmt r) as [rows'|y]; cbn [bind] in Hm; [|discriminate].
    inversion Hm; subst. now rewrite (IH rows' eq_refl He).
Qed.

(** X9.  [save_data] succeeds exactly when every record it writes has a
    finite [ppp].  Otherwise it stops at the first record it cannot write,
    with the exception [int] raises on that [ppp], and the file, already
    opened for writing, is left with the header and the rows before that
    record only: the records sorted after it are no longer in the file. *)
Theorem save_data_stops_at_infinite (w : world) :
  (snd (save_data w) = Ok tt <-> all_finite (save_rows (cache w)))
  /\ forall pre e post,
       save_rows (cache w) = pre ++ e :: post ->
       all_finite pre -> is_finite (ppp e) = false ->
       exists rows x,
         mapM (format_row (_current_fieldnames (CURRENT_SCHEMA w))) pre = Ok rows
         /\ int_of_float (ppp e) = Raise x
         /\ save_data w
            = (set_data_file
                 (Some (_current_fieldnames (CURRENT_SCHEMA w) :: rows)) w,
               Raise x).
Proof.
  split; [split|].
  - intros H e He. unfold save_data, save_table in H.
    destruct (write_rows _ _) as [rows st] eqn:Ew. cbn [snd] in H. subst st.
    destruct (write_rows_status _ _ (f_equal snd Ew) e He) as [row Hrow].
    now apply format_row_ok_finite in Hrow.
  - intros H. unfold save_data.
    destruct (save_table_ok (CURRENT_SCHEMA w) (cache w) H) as [rows [_ E]].
    now rewrite E.
  - intros pre e post Hs Hpre He.
    destruct (write_rows_ok (format_row (_current_fieldnames (CURRENT_SCHEMA w))) pre)
      as [rows [Hm _]].
    { intros a Ha. apply format_row_finite. now apply Hpre. }
    destruct (format_row_not_finite (_current_fieldnames (CURRENT_SCHEMA w)) e He)
      as [x [Hi Hx]].
    exists rows, x. split; [exact Hm|]. split; [exact Hi|].
    unfold save_data, save_table.
    now rewrite Hs, (write_rows_stops _ pre e post rows x Hm Hx).
Qed.

(** ** Showing and comparing records *)

(** X10.  What is entered is what is shown: after [update_country] with a
    name that is not blank and a [ppp] text that reads as a float with an
    integer part, [show_country] on the name, in any case and with blanks
    around it, prints the record just entered, whether or not the save
    that ends [update_country] succeeded. *)
Theorem update_then_show
    (w : world) (name_in ppp_in rank_in slug_in date_in region_in q : string)
    (p : spec_float) (n : Z) :
  strip name_in <> "" ->
  _clean_number (PStr (strip ppp_in)) = Ok p ->
  int_of_float p = Ok n ->
  _norm q = _norm name_in ->
  let w' := fst (update_country name_in ppp_in rank_in slug_in date_in region_in w) in
  let sch := CURRENT_SCHEMA w in
  CURRENT_SCHEMA w' = sch
  /\ show_country (CURRENT_SCHEMA w') (cache w') q
     = Ok ([""; "--- Entry ---"; ("Name   : " ++ strip name_in)%string]
           ++ (if has_slug sch then [("Slug   : " ++ strip slug_in)%string] else [])
           ++ [("PPP    : " ++ fmt_grouped n)%string;
               ("Rank   : " ++ str_of_int (_clean_int (Some (strip rank_in))))%string]
           ++ (if has_date sch then [("Date   : " ++ strip date_in)%string] else [])
           ++ (if has_region sch then [("Region : " ++ strip region_in)%string] else [])
           ++ [""]).
Proof.
  intros Hn Hp Hi Hq w' sch. subst w' sch. unfold update_country.
  rewrite Hp, schema_save_data, cache_save_data.
  cbn [cache CURRENT_SCHEMA set_next_id set_cache].
  split; [reflexivity|].
  unfold show_country.
  rewrite (find_direct _ (strip q)
             {| oid := next_id w; name := strip name_in; ppp := p;
                rank := _clean_int (Some (strip rank_in));
                slug := if has_slug (CURRENT_SCHEMA w) then strip slug_in else "";
                date := if has_date (CURRENT_SCHEMA w) then strip date_in else "";
                region := if has_region (CURRENT_SCHEMA w) then strip region_in else "" |}).
  - unfold _print_entry. cbn [ppp name slug rank date region]. rewrite Hi.
    cbn [bind].
    destruct (has_slug (CURRENT_SCHEMA w)), (has_date (CURRENT_SCHEMA w)),
      (has_region (CURRENT_SCHEMA w)); reflexivity.
  - apply index_entry_get_in. apply make_index_keys_in. left.
    split; [exact Hn|]. now rewrite !norm_strip.
Qed.

Lemma SFcompare_antisym (a b : spec_float) :
  SFcompare b a = option_map CompOpp (SFcompare a b).
Proof.
  destruct a as [s1|s1| |s1 m1 e1], b as [s2|s2| |s2 m2 e2];
    try reflexivity; try (destruct s1; reflexivity);
    try (destruct s2; reflexivity);
    try (destruct s1, s2; reflexivity).
  cbn [SFcompare option_map].
  change (PosDef.Pos.compare_cont Eq m2 m1) with (Pos.compare m2 m1).
  change (PosDef.Pos.compare_cont Eq m1 m2) with (Pos.compare m1 m2).
  destruct s1, s2; try reflexivity;
    rewrite (Z.compare_antisym e1 e2), (Pos.compare_antisym m1 m2);
    destruct (e1 ?= e2)%Z; try reflexivity;
    destruct (m1 ?= m2)%positive; reflexivity.
Qed.

Lemma SFltb_asym (a b : spec_float) : SFltb a b = true -> SFltb b a = false.
Proof.
  unfold SFltb. rewrite (SFcompare_antisym a b).
  destruct (SFcompare a b) as [[| |]|]; cbn; congruence.
Qed.

Lemma compare_verdict_swap (A B : entry) :
  compare_verdict B A = compare_verdict A B.
Proof.
  unfold compare_verdict, fgt, flt.
  destruct (SFltb (ppp B) (ppp A)) eqn:E1.
  - now rewrite (SFltb_asym _ _ E1).
  - reflexivity.
Qed.

(** X11.  The verdict of [compare_two] does not depend on the order in
    which the two countries are given: with the queries exchanged the
    report has its two description lines exchanged and is otherwise the
    same, and the answer that a country was not found is the same. *)
Theorem compare_two_symmetric (c : dict entry) (a b : string) (out : list string) :
  compare_two c a b = Ok out ->
  compare_two c b a = Ok (swap_report out).
Proof.
  unfold compare_two.
  destruct (_find c (strip a)) as [A|], (_find c (strip b)) as [B|];
    try (intros [= <-]; reflexivity).
  destruct (compare_line A) as [la|x]; cbn [bind]; [|discriminate].
  destruct (compare_line B) as [lb|x]; cbn [bind]; [|discriminate].
  intros [= <-]. cbn [swap_report]. now rewrite compare_verdict_swap.
Qed.

Lemma int_of_sound (f : spec_float) (x : exn) :
  sound_number f -> int_of_float f = Raise x ->
  x = OverflowError /\ is_finite f = false.
Proof.
  intros [N _] H. destruct f as [s|s| |s m e]; try discriminate.
  - now inversion H.
  - now destruct N.
Qed.

Lemma int_of_finite (f : spec_float) :
  is_finite f = true -> exists n, int_of_float f = Ok n.
Proof.
  destruct f as [s|s| |s m e]; try discriminate; intros _; eexists; reflexivity.
Qed.

Lemma store_ok_value (c : dict entry) (v : entry) :
  store_ok c -> In v (dict_values c) -> entry_ok v.
Proof.
  intros [W H] Hv. destruct (in_values_get c v W Hv) as [k Hk].
  now apply (H k v).
Qed.

(** X12.  In a cache as the program keeps it, the two displays can fail in
    one way only: [show_country] and [compare_two] raise nothing but
    [OverflowError], and only for a record whose [ppp] is infinite; when
    every [ppp] in the cache is finite they print their report. *)
Theorem display_raises_only_overflow
    (sch : schema) (c : dict entry) (q a b : string) :
  store_ok c ->
  (forall x, show_country sch c q = Raise x ->
     x = OverflowError
     /\ exists e, _find c (strip q) = Some e /\ is_finite (ppp e) = false)
  /\ (forall x, compare_two c a b = Raise x ->
        x = OverflowError
        /\ exists e, In e (dict_values c) /\ is_finite (ppp e) = false)
  /\ (all_finite (dict_values c) ->
      (exists out, show_country sch c q = Ok out)
      /\ (exists out, compare_two c a b = Ok out)).
Proof.
  intros S. split; [|split].
  - intros x. unfold show_country.
    destruct (_find c (strip q)) as [e|] eqn:F; [|discriminate].
    pose proof (store_ok_value c e S (find_in_values _ _ _ F)) as [_ [_ [_ [_ [Sp _]]]]].
    unfold _print_entry.
    destruct (int_of_float (ppp e)) as [n|y] eqn:Ei; cbn [bind]; [discriminate|].
    intros [= <-]. destruct (int_of_sound _ _ Sp Ei) as [-> Hf].
    split; [reflexivity|]. now exists e.
  - intros x. unfold compare_two.
    destruct (_find c (strip a)) as [A|] eqn:FA; [|discriminate].
    destruct (_find c (strip b)) as [B|] eqn:FB; [|discriminate].
    pose proof (find_in_values _ _ _ FA) as HA.
    pose proof (find_in_values _ _ _ FB) as HB.
    pose proof (store_ok_value c A S HA) as [_ [_ [_ [_ [SA _]]]]].
    pose proof (store_ok_value c B S HB) as [_ [_ [_ [_ [SB _]]]]].
    unfold compare_line.
    destruct (int_of_float (ppp A)) as [n|y] eqn:EA; cbn [bind].
    + destruct (int_of_float (ppp B)) as [m|y] eqn:EB; cbn [bind]; [discriminate|].
      intros [= <-]. destruct (int_of_sound _ _ SB EB) as [-> Hf].
      split; [reflexivity|]. now exists B.
    + intros [= <-]. destruct (int_of_sound _ _ SA EA) as [-> Hf].
      split; [reflexivity|]. now exists A.
  - intros Hfin. split.
    + unfold show_country.
      destruct (_find c (strip q)) as [e|] eqn:F; [|eexists; reflexivity].
      destruct (int_of_finite _ (Hfin e (find_in_values _ _ _ F))) as [n Hn].
      unfold _print_entry. rewrite Hn. eexists. reflexivity.
    + unfold compare_two.
      destruct (_find c (strip a)) as [A|] eqn:FA; [|eexists; reflexivity].
      destruct (_find c (strip b)) as [B|] eqn:FB; [|eexists; reflexivity].
      destruct (int_of_finite _ (Hfin A (find_in_values _ _ _ FA))) as [n Hn].
      destruct (int_of_finite _ (Hfin B (find_in_values _ _ _ FB))) as [m Hm].
      unfold compare_line. rewrite Hn, Hm. eexists. reflexivity.
Qed.

(** ** What every run of the menu keeps *)

Lemma own_keys_binding (e : entry) (k : string) :
  In k (index_keys e) -> binding_ok k e.
Proof.
  unfold index_keys. intros Hk. apply make_index_keys_in in Hk.
  unfold binding_ok. destruct Hk as [[_ ->]|[_ ->]]; auto.
Qed.

Lemma strip_flag (flag : bool) (s : string) :
  strip (if flag then strip s else "") = (if flag then strip s else "").
Proof. destruct flag; [apply strip_idem|reflexivity]. Qed.

Lemma update_country_store_ok (a b c d e f : string) (w : world) :
  store_ok (cache w) -> store_ok (cache (fst (update_country a b c d e f w))).
Proof.
  intros S. unfold update_country.
  destruct (_clean_number _) as [p|x] eqn:Ep; [|exact S].
  rewrite cache_save_data. cbn [cache set_next_id set_cache].
  apply store_ok_index;
    [exact S|intros k Hk; apply own_keys_binding; exact Hk|].
  unfold entry_ok. cbn [name slug date region ppp rank].
  rewrite strip_idem, !strip_flag, clean_int_written.
  pose proof (clean_number_str_sound _ _ Ep) as Sp.
  repeat (split; [reflexivity|]). split; [exact Sp|reflexivity].
Qed.

Lemma store_ok_filter (P : entry -> bool) (c : dict entry) :
  store_ok c -> store_ok (filter (fun kv => P (snd kv)) c).
Proof.
  intros [W H]. split; [now apply wf_dict_filter|].
  intros k v G. rewrite (dict_get_filter_wf P k c W) in G.
  destruct (dict_get k c) as [u|] eqn:E; [|discriminate].
  destruct (P u); [|discriminate]. inversion G; subst. now apply H.
Qed.

Lemma delete_entry_store_ok (q : string) (w : world) :
  store_ok (cache w) -> store_ok (cache (fst (delete_entry q w))).
Proof.
  intros S. destruct (_find (cache w) (strip q)) as [e|] eqn:F.
  - rewrite (cache_delete_entry _ _ _ F), pop_all_keys_of_object by apply S.
    now apply (store_ok_filter (fun v => negb (is_ v e))).
  - unfold delete_entry. now rewrite F.
Qed.

Lemma clean_number_cell_sound (o : option string) (p : spec_float) :
  _clean_number (match o with
                 | Some s => PStr s
                 | None => PNone
                 end) = Ok p ->
  sound_number p.
Proof.
  destruct o as [s|]; [apply clean_number_str_sound|].
  apply (clean_number_str_sound "").
Qed.

Lemma load_deleted_rows_entries (cia : bool) (fields : list string)
    (rows : list (list string)) :
  forall nid items nid',
    load_deleted_rows cia fields rows nid = Ok (items, nid') ->
    forall e, In e items -> entry_ok e.
Proof.
  induction rows as [|row r IH]; intros nid items nid' H e He;
    cbn [load_deleted_rows] in H.
  - inversion H; subst. destruct He.
  - destruct cia.
    + destruct (_clean_number _) as [p|x] eqn:Ep; cbn [bind] in H; [|discriminate].
      destruct (load_deleted_rows true fields r (S nid)) as [[its n]|x] eqn:E;
        cbn [bind] in H; [|discriminate].
      inversion H; subst. destruct He as [<-|He]; [|eapply IH; eassumption].
      unfold entry_ok. cbn [name slug date region ppp rank].
      rewrite !strip_idem, clean_int_written.
      pose proof (clean_number_cell_sound _ _ Ep) as Sp.
      repeat (split; [reflexivity|]). split; [exact Sp|reflexivity].
    + destruct (_clean_number _) as [p|x] eqn:Ep; cbn [bind] in H; [|discriminate].
      destruct (load_deleted_rows false fields r (S nid)) as [[its n]|x] eqn:E;
        cbn [bind] in H; [|discriminate].
      inversion H; subst. destruct He as [<-|He]; [|eapply IH; eassumption].
      unfold entry_ok. cbn [name slug date region ppp rank].
      rewrite !strip_idem, clean_int_written.
      pose proof (clean_number_cell_sound _ _ Ep) as Sp.
      repeat (split; [reflexivity|]). split; [exact Sp|reflexivity].
Qed.

Lemma cache_after_store_ok (items : list entry) :
  forall c, store_ok c -> (forall e, In e items -> entry_ok e) ->
            store_ok (cache_after items c).
Proof.
  induction items as [|e r IH]; intros c S H; [exact S|].
  destruct (merge_after_cons e r c) as [H1 H2].
  destruct (restore_conflict c e) eqn:E.
  - destruct (H1 eq_refl) as [-> _]. apply IH; [exact S|].
    intros x Hx. apply H. now right.
  - destruct (H2 eq_refl) as [-> _]. apply IH.
    + apply store_ok_index; [exact S|apply own_keys_binding|].
      apply H. now left.
    + intros x Hx. apply H. now right.
Qed.

Lemma merge_deleted_back_store_ok (w : world) :
  store_ok (cache w) -> store_ok (cache (fst (merge_deleted_back w))).
Proof.
  intros S.
  destruct (load_deleted (deleted_file w) (next_id w)) as [[items nid]|x] eqn:L.
  - rewrite (cache_merge_deleted_back _ _ _ L).
    apply cache_after_store_ok; [exact S|].
    unfold load_deleted in L. destruct (deleted_file w) as [t|].
    + eapply load_deleted_rows_entries. exact L.
    + inversion L; subst. intros e [].
  - unfold merge_deleted_back. now rewrite L.
Qed.

Lemma schema_update_country (a b c d e f : string) (w : world) :
  CURRENT_SCHEMA (fst (update_country a b c d e f w)) = CURRENT_SCHEMA w.
Proof.
  unfold update_country. destruct (_clean_number _) as [p|x]; [|reflexivity].
  now rewrite schema_save_data.
Qed.

Lemma schema_delete_entry (q : string) (w : world) :
  CURRENT_SCHEMA (fst (delete_entry q w)) = CURRENT_SCHEMA w.
Proof.
  unfold delete_entry. destruct (_find _ _) as [e|]; [|reflexivity].
  unfold append_deleted. cbn [CURRENT_SCHEMA set_cache deleted_file].
  destruct (append_table _ _ _ _) as [[f o] [u|x]]; [|reflexivity].
  match goal with
  | |- context [save_data ?w0] =>
      pose proof (schema_save_data w0) as Hs;
      destruct (save_data w0) as [w3 [u'|x]]
  end; cbn [fst] in *; rewrite Hs; reflexivity.
Qed.

Lemma schema_merge_deleted_back (w : world) :
  CURRENT_SCHEMA (fst (merge_deleted_back w)) = CURRENT_SCHEMA w.
Proof.
  destruct (load_deleted (deleted_file w) (next_id w)) as [[items nid]|x] eqn:L.
  - rewrite (merge_deleted_back_unfold w items nid L). cbn zeta.
    destruct items as [|e r]; [reflexivity|]. cbn [is_nil].
    match goal with
    | |- context [save_data ?w0] =>
        pose proof (schema_save_data w0) as Hs;
        destruct (save_data w0) as [w2 [u|x]]
    end; cbn [fst] in Hs; [|exact Hs].
    unfold rewrite_deleted.
    destruct (rewrite_table _ _) as [t [u'|x]]; cbn [fst]; exact Hs.
  - unfold merge_deleted_back. now rewrite L.
Qed.

Section Menu.

(** [Run] holds of the states a run passes through, [Stop] of the state a
    run is left in by an exception. *)
Variable Run Stop : world -> Prop.

Hypothesis run_stop : forall w, Run w -> Stop w.

Hypothesis run_update : forall a b c d e f w, Run w ->
  match update_country a b c d e f w with
  | (w', Ok _) => Run w'
  | (w', Raise _) => Stop w'
  end.

Hypothesis run_delete : forall q w, Run w ->
  match delete_entry q w with
  | (w', Ok _) => Run w'
  | (w', Raise _) => Stop w'
  end.

Hypothesis run_merge : forall w, Run w ->
  match merge_deleted_back w with
  | (w', Ok _) => Run w'
  | (w', Raise _) => Stop w'
  end.

Lemma menu_turn_inv (choice : string) (stdin : list string) (w : world) :
  Run w ->
  match menu_turn choice stdin w with
  | inl (rest, w') => Run w' /\ (List.length rest <= List.length stdin)%nat
  | inr (w', Crashed _) => Stop w'
  | inr (w', _) => Run w'
  end.
Proof.
  intros R. pose proof (run_stop w R) as St. unfold menu_turn.
  destruct (String.eqb choice "1").
  { destruct stdin as [|q rest]; [exact R|].
    destruct (show_country _ _ _); [split; [exact R|simpl; lia]|exact St]. }
  destruct (String.eqb choice "2").
  { destruct stdin as [|name_in [|ppp_in rest]]; try exact R.
    destruct (_clean_number _) as [p|x]; [|exact St].
    destruct rest as [|rank_in rest1]; [exact R|].
    assert (G : forall (flag : bool) (l : list string),
              match (if flag
                     then match l with
                          | x :: l' => Some (x, l')
                          | [] => None
                          end
                     else Some ("", l)) with
              | Some (_, l') => (List.length l' <= List.length l)%nat
              | None => True
              end).
    { intros [] [|x l]; simpl; auto. }
    pose proof (G (has_slug (CURRENT_SCHEMA w)) rest1) as G1.
    destruct (if has_slug (CURRENT_SCHEMA w) then _ else _)
      as [[slug_in rest2]|]; [|exact R].
    pose proof (G (has_date (CURRENT_SCHEMA w)) rest2) as G2.
    destruct (if has_date (CURRENT_SCHEMA w) then _ else _)
      as [[date_in rest3]|]; [|exact R].
    pose proof (G (has_region (CURRENT_SCHEMA w)) rest3) as G3.
    destruct (if has_region (CURRENT_SCHEMA w) then _ else _)
      as [[region_in rest4]|]; [|exact R].
    pose proof (run_update name_in ppp_in rank_in slug_in date_in region_in w R) as U.
    destruct (update_country _ _ _ _ _ _ w) as [w' [u|x]]; [|exact U].
    split; [exact U|]. simpl. lia. }
  destruct (String.eqb choice "3").
  { destruct stdin as [|a [|b rest]]; try exact R.
    destruct (compare_two _ _ _); [split; [exact R|simpl; lia]|exact St]. }
  destruct (String.eqb choice "4").
  { destruct stdin as [|line rest]; [exact R|].
    destruct (combined_ppp _ _); [split; [exact R|simpl; lia]|exact St]. }
  destruct (String.eqb choice "5").
  { destruct stdin as [|q rest]; [exact R|].
    pose proof (run_delete q w R) as D.
    destruct (delete_entry q w) as [w' [u|x]]; [|exact D].
    split; [exact D|simpl; lia]. }
  destruct (String.eqb choice "6").
  { pose proof (run_merge w R) as M.
    destruct (merge_deleted_back w) as [w' [u|x]]; [|exact M].
    split; [exact M|lia]. }
  destruct (String.eqb choice "7"); [exact R|].
  split; [exact R|lia].
Qed.

Lemma menu_loop_inv (fuel : nat) :
  forall stdin w, Run w ->
    match menu_loop fuel stdin w with
    | (w', Crashed _) => Stop w'
    | (w', _) => Run w'
    end.
Proof.
  induction fuel as [|fuel IH]; intros stdin w R; [exact R|].
  cbn [menu_loop]. destruct stdin as [|line rest]; [exact R|].
  pose proof (menu_turn_inv (strip line) rest w R) as T.
  destruct (menu_turn (strip line) rest w) as [[rest' w']|[w' st]].
  - apply IH. apply T.
  - exact T.
Qed.

End Menu.

Lemma menu_loop_fuel (f1 : nat) :
  forall f2 stdin w,
    (List.length stdin < f1)%nat -> (List.length stdin < f2)%nat ->
    menu_loop f1 stdin w = menu_loop f2 stdin w.
Proof.
  induction f1 as [|f1 IH]; intros f2 stdin w H1 H2; [lia|].
  destruct f2 as [|f2]; [lia|]. cbn [menu_loop].
  destruct stdin as [|line rest]; [reflexivity|]. cbn [List.length] in *.
  pose proof (menu_turn_inv (fun _ => True) (fun _ => True) (fun _ _ => I)) as T.
  specialize (T ltac:(intros; destruct (update_country _ _ _ _ _ _ _) as [? []]; exact I)).
  specialize (T ltac:(intros; destruct (delete_entry _ _) as [? []]; exact I)).
  specialize (T ltac:(intros; destruct (merge_deleted_back _) as [? []]; exact I)).
  specialize (T (strip line) rest w I).
  destruct (menu_turn (strip line) rest w) as [[rest' w']|r]; [|reflexivity].
  apply IH; lia.
Qed.

Lemma start_store_ok (file deleted : option table) (w0 : world) :
  start file deleted = Ok w0 ->
  store_ok (cache w0)
  /\ CURRENT_SCHEMA w0
     = match file with
       | Some t => if cia_like (csv_fieldnames t) then cia_schema
                   else default_schema
       | None => default_schema
       end
  /\ data_file w0 = file /\ deleted_file w0 = deleted.
Proof.
  unfold start.
  destruct (load_data file default_schema 0) as [[[c s] n]|y] eqn:El;
    cbn [bind]; [|discriminate].
  intros [= <-]. cbn [cache CURRENT_SCHEMA data_file deleted_file].
  destruct (load_data_store_ok _ _ _ _ _ _ El) as [S Hs].
  split; [exact S|]. split; [exact Hs|]. split; reflexivity.
Qed.

Lemma menu_loop_store_ok (fuel : nat) (stdin : list string) (w : world) :
  store_ok (cache w) ->
  store_ok (cache (fst (menu_loop fuel stdin w)))
  /\ CURRENT_SCHEMA (fst (menu_loop fuel stdin w)) = CURRENT_SCHEMA w.
Proof.
  intros S0.
  pose (Inv := fun w1 : world =>
                 store_ok (cache w1) /\ CURRENT_SCHEMA w1 = CURRENT_SCHEMA w).
  pose proof (menu_loop_inv Inv Inv (fun _ H => H)) as L.
  assert (U : forall a b c d e f w2, Inv w2 ->
            match update_country a b c d e f w2 with
            | (w', Ok _) => Inv w'
            | (w', Raise _) => Inv w'
            end).
  { intros a b c d e f w2 [I2 I3].
    pose proof (update_country_store_ok a b c d e f w2 I2) as P1.
    pose proof (schema_update_country a b c d e f w2) as P2.
    destruct (update_country a b c d e f w2) as [w' [u|y]]; cbn [fst] in *;
      split; congruence. }
  assert (D : forall q w2, Inv w2 ->
            match delete_entry q w2 with
            | (w', Ok _) => Inv w'
            | (w', Raise _) => Inv w'
            end).
  { intros q w2 [I2 I3].
    pose proof (delete_entry_store_ok q w2 I2) as P1.
    pose proof (schema_delete_entry q w2) as P2.
    destruct (delete_entry q w2) as [w' [u|y]]; cbn [fst] in *;
      split; congruence. }
  assert (M : forall w2, Inv w2 ->
            match merge_deleted_back w2 with
            | (w', Ok _) => Inv w'
            | (w', Raise _) => Inv w'
            end).
  { intros w2 [I2 I3].
    pose proof (merge_deleted_back_store_ok w2 I2) as P1.
    pose proof (schema_merge_deleted_back w2) as P2.
    destruct (merge_deleted_back w2) as [w' [u|y]]; cbn [fst] in *;
      split; congruence. }
  specialize (L U D M fuel stdin w (conj S0 eq_refl)).
  destruct (menu_loop fuel stdin w) as [w' [| |]]; exact L.
Qed.

(** X13.  Whatever is typed at the menu, the cache stays as [load_data]
    builds it: when [main] ends, by option 7, by the end of the input or
    by an exception, every key of the cache is the normalised name or slug
    of the record it is bound to, every record has trimmed text fields and
    a number that is not NaN, and the schema in force is still the one
    detected from the data file at the start.  The loop ends on every
    finite input: more fuel than there are lines changes nothing. *)
Theorem session_keeps_store_ok
    (file deleted : option table) (stdin : list string)
    (w : world) (st : exit_status) :
  main file deleted stdin = Some (w, st) ->
  store_ok (cache w)
  /\ CURRENT_SCHEMA w
     = match file with
       | Some t => if cia_like (csv_fieldnames t) then cia_schema
                   else default_schema
       | None => default_schema
       end
  /\ forall w0 fuel,
       start file deleted = Ok w0 -> (List.length stdin < fuel)%nat ->
       menu_loop fuel stdin w0 = (w, st).
Proof.
  unfold main. destruct (start file deleted) as [w0|x] eqn:Es; [|discriminate].
  intros [= H].
  change (menu_loop (S (List.length stdin)) stdin w0 = (w, st)) in H.
  destruct (start_store_ok file deleted w0 Es) as [S0 [Hs _]].
  destruct (menu_loop_store_ok (S (List.length stdin)) stdin w0 S0) as [L1 L2].
  rewrite H in L1, L2. cbn [fst] in L1, L2.
  split; [exact L1|]. split; [congruence|].
  intros w1 fuel E1 Hf. inversion E1; subst w1. rewrite <- H.
  apply menu_loop_fuel; lia.
Qed.

Lemma save_data_in_sync (w w' : world) (u : unit) :
  save_data w = (w', Ok u) -> in_sync w'.
Proof.
  unfold save_data.
  destruct (save_table (CURRENT_SCHEMA w) (cache w)) as [t st] eqn:E.
  intros [= <- ->]. exists t. cbn [CURRENT_SCHEMA cache data_file set_data_file].
  split; [|reflexivity]. rewrite E. now destruct u.
Qed.

Lemma update_country_in_sync (a b c d e f : string) (w w' : world) (u : unit) :
  update_country a b c d e f w = (w', Ok u) -> in_sync w'.
Proof.
  unfold update_country. destruct (_clean_number _) as [p|x]; [|discriminate].
  apply save_data_in_sync.
Qed.

Lemma delete_entry_in_sync (q : string) (w w' : world) (e : entry) :
  delete_entry q w = (w', Ok (Deleted e)) -> in_sync w'.
Proof.
  unfold delete_entry. destruct (_find _ _) as [e0|]; [|discriminate].
  destruct (append_deleted _ _) as [w2 [u|x]]; [|discriminate].
  destruct (save_data w2) as [w3 [u'|x]] eqn:Es; [|discriminate].
  intros [= <- _]. eapply save_data_in_sync. exact Es.
Qed.

Lemma delete_entry_not_found (q : string) (w w' : world) :
  delete_entry q w = (w', Ok NotFound) -> w' = w.
Proof.
  unfold delete_entry. destruct (_find _ _) as [e0|]; [|now intros [= <-]].
  destruct (append_deleted _ _) as [w2 [u|x]]; [|discriminate].
  destruct (save_data w2) as [w3 [u'|x]]; discriminate.
Qed.

Lemma merge_deleted_back_in_sync (w w' : world) (names : list string) :
  merge_deleted_back w = (w', Ok (Some names)) -> in_sync w'.
Proof.
  unfold merge_deleted_back.
  destruct (load_deleted _ _) as [[items nid]|x]; [|discriminate].
  destruct (is_nil items); [discriminate|].
  destruct (merge_loop _ _ _ _) as [[c' restored] keep].
  destruct (save_data _) as [w2 [u|x]] eqn:Es; [|discriminate].
  apply save_data_in_sync in Es.
  unfold rewrite_deleted. destruct (rewrite_table _ _) as [t [u'|x]]; [|discriminate].
  intros [= <- _]. exact Es.
Qed.

Lemma merge_deleted_back_nothing (w w' : world) :
  merge_deleted_back w = (w', Ok None) ->
  cache w' = cache w /\ CURRENT_SCHEMA w' = CURRENT_SCHEMA w
  /\ data_file w' = data_file w /\ deleted_file w' = deleted_file w.
Proof.
  unfold merge_deleted_back.
  destruct (load_deleted _ _) as [[items nid]|x]; [|discriminate].
  destruct (is_nil items); [now intros [= <-]|].
  destruct (merge_loop _ _ _ _) as [[c' restored] keep].
  destruct (save_data _) as [w2 [u|x]]; [|discriminate].
  destruct (rewrite_deleted _ _) as [w3 [u'|x]]; discriminate.
Qed.

Lemma menu_loop_in_sync (fuel : nat) (stdin : list string)
    (w0 w : world) (st : exit_status) :
  menu_loop fuel stdin w0 = (w, st) ->
  (forall x, st <> Crashed x) ->
  untouched w0 w \/ in_sync w.
Proof.
  intros H Hst.
  pose (Run := fun w1 : world => untouched w0 w1 \/ in_sync w1).
  pose proof (menu_loop_inv Run (fun _ => True) (fun _ _ => I)) as L.
  assert (U : forall a b c d e f w2, Run w2 ->
            match update_country a b c d e f w2 with
            | (w', Ok _) => Run w'
            | (w', Raise _) => True
            end).
  { intros a b c d e f w2 _.
    destruct (update_country a b c d e f w2) as [w' [u|y]] eqn:E; [|exact I].
    right. eapply update_country_in_sync. exact E. }
  assert (D : forall q w2, Run w2 ->
            match delete_entry q w2 with
            | (w', Ok _) => Run w'
            | (w', Raise _) => True
            end).
  { intros q w2 R2.
    destruct (delete_entry q w2) as [w' [[|e]|y]] eqn:E; [| |exact I].
    - apply delete_entry_not_found in E. now subst w'.
    - right. eapply delete_entry_in_sync. exact E. }
  assert (M : forall w2, Run w2 ->
            match merge_deleted_back w2 with
            | (w', Ok _) => Run w'
            | (w', Raise _) => True
            end).
  { intros w2 R2.
    destruct (merge_deleted_back w2) as [w' [[names|]|y]] eqn:E; [| |exact I].
    - right. eapply merge_deleted_back_in_sync. exact E.
    - destruct (merge_deleted_back_nothing _ _ E) as [E1 [E2 [E3 _]]].
      destruct R2 as [[R2 R3]|[t [R2 R3]]].
      + left. split; congruence.
      + right. exists t. rewrite E1, E2, E3. now split. }
  specialize (L U D M fuel stdin w0).
  rewrite H in L.
  assert (R0 : Run w0) by (left; split; reflexivity).
  specialize (L R0). destruct st as [|x|]; [exact L| |exact L].
  now destruct (Hst x).
Qed.

(** X14.  Memory and file agree whenever a run ends without an exception.
    When [main] ends by option 7 or by the end of the input, either the
    cache and the data file are both as they were when the program
    started, or the data file is exactly what [save_data] writes for the
    final cache, written without error. *)
Theorem session_file_in_sync
    (file deleted : option table) (stdin : list string)
    (w0 w : world) (st : exit_status) :
  start file deleted = Ok w0 ->
  main file deleted stdin = Some (w, st) ->
  (forall x, st <> Crashed x) ->
  untouched w0 w \/ in_sync w.
Proof.
  intros Es. unfold main. rewrite Es. intros [= H] Hst.
  change (menu_loop (S (List.length stdin)) stdin w0 = (w, st)) in H.
  destruct (menu_loop_in_sync _ _ _ _ _ H Hst) as [[U1 U2]|Hs].
  - left. now split.
  - right. exact Hs.
Qed.

(** ** Deleting and restoring *)







(** ** [reverse.py] *)

Lemma concat_cons (x : string) (xs : list string) :
  String.concat "" (x :: xs) = (x ++ String.concat "" xs)%string.
Proof.
  destruct xs as [|y ys]; cbn [String.concat].
  - induction x as [|c x IH]; cbn; [reflexivity|]. now rewrite <- IH.
  - reflexivity.
Qed.

Lemma append_nil_r (s : string) : (s ++ "")%string = s.
Proof. induction s as [|c s IH]; cbn; [reflexivity|now rewrite IH]. Qed.

Lemma append_assoc (a b c : string) : ((a ++ b) ++ c)%string = (a ++ (b ++ c))%string.
Proof. induction a as [|x a IH]; cbn; [reflexivity|now rewrite IH]. Qed.

Lemma concat_app (a b : list string) :
  String.concat "" (a ++ b) = (String.concat "" a ++ String.concat "" b)%string.
Proof.
  induction a as [|x a IH]; [reflexivity|].
  cbn [app]. now rewrite !concat_cons, IH, append_assoc.
Qed.

Lemma length_append (a b : string) :
  String.length (a ++ b) = (String.length a + String.length b)%nat.
Proof. induction a as [|x a IH]; cbn; [reflexivity|now rewrite IH]. Qed.

Lemma length_concat (ls : list string) :
  String.length (String.concat "" ls) = sum_nat (map String.length ls).
Proof.
  induction ls as [|l ls IH]; [reflexivity|].
  rewrite concat_cons, length_append, IH. reflexivity.
Qed.

Lemma sum_nat_app (a b : list nat) : sum_nat (a ++ b) = (sum_nat a + sum_nat b)%nat.
Proof.
  induction a as [|x a IH]; [reflexivity|].
  cbn [app]. unfold sum_nat in *. cbn [fold_right]. rewrite IH. lia.
Qed.

Lemma sum_nat_rev (a : list nat) : sum_nat (rev a) = sum_nat a.
Proof.
  induction a as [|x a IH]; [reflexivity|].
  cbn [rev]. rewrite sum_nat_app, IH. unfold sum_nat. cbn [fold_right]. lia.
Qed.

Lemma concat_readlines (s : string) : String.concat "" (readlines s) = s.
Proof.
  induction s as [|c r IH]; [reflexivity|].
  cbn [readlines]. destruct (Ascii.eqb c LF).
  - now rewrite concat_cons, IH.
  - destruct (readlines r) as [|l ls].
    + cbn in IH. now rewrite <- IH.
    + rewrite concat_cons in *. cbn [append]. now rewrite IH.
Qed.

Lemma readlines_head (c : ascii) (r : string) :
  exists l ls, readlines (String c r) = String c l :: ls.
Proof.
  cbn [readlines]. destruct (Ascii.eqb c LF); [now eexists; eexists|].
  destruct (readlines r); eexists; eexists; reflexivity.
Qed.

Lemma split_ws_nonempty (c : ascii) (r : string) :
  py_isspace c = false -> split_ws (String c r) <> [].
Proof.
  intros H. cbn [split_ws]. rewrite H. destruct r as [|c' r']; [discriminate|].
  destruct (py_isspace c'); [discriminate|].
  destruct (split_ws (String c' r')); discriminate.
Qed.

Lemma words_cons (c : ascii) (r : string) :
  words (String c r) = ((if starts_word c r then 1 else 0) + words r)%nat.
Proof.
  unfold words, starts_word. cbn [split_ws].
  destruct (py_isspace c) eqn:Ec; [reflexivity|]. cbn [negb andb].
  destruct r as [|c' r']; [reflexivity|].
  destruct (py_isspace c') eqn:Ec'; [reflexivity|].
  pose proof (split_ws_nonempty c' r' Ec') as N.
  destruct (split_ws (String c' r')); [congruence|reflexivity].
Qed.

Lemma sum_nat_cons (x : nat) (l : list nat) : sum_nat (x :: l) = (x + sum_nat l)%nat.
Proof. reflexivity. Qed.

Lemma words_lines (s : string) :
  sum_nat (map words (readlines s)) = words s.
Proof.
  induction s as [|c r IH]; [reflexivity|].
  cbn [readlines]. destruct (Ascii.eqb c LF) eqn:E.
  - apply Ascii.eqb_eq in E. subst c. cbn [map]. rewrite sum_nat_cons, IH.
    reflexivity.
  - destruct r as [|c' r'].
    + cbn [readlines map]. rewrite sum_nat_cons. unfold sum_nat.
      cbn [fold_right]. lia.
    + destruct (readlines_head c' r') as [l [ls Hl]]. rewrite Hl in *.
      cbn [map] in *. rewrite sum_nat_cons in *.
      rewrite (words_cons c (String c' l)), (words_cons c (String c' r')).
      change (starts_word c (String c' l)) with (starts_word c (String c' r')).
      lia.
Qed.

Lemma universal_newlines_no_cr (s : string) : no_cr (universal_newlines s) = true.
Proof.
  unfold no_cr.
  assert (G : forall n s, (String.length s <= n)%nat ->
            forall_str (fun c => negb (Ascii.eqb c CR)) (universal_newlines s) = true).
  { clear s. induction n as [|n IH]; intros s Hn.
    - destruct s; [reflexivity|cbn in Hn; lia].
    - destruct s as [|c r]; [reflexivity|]. cbn [String.length] in Hn.
      cbn [universal_newlines]. destruct (Ascii.eqb c CR) eqn:E.
      + destruct r as [|c' r']; [reflexivity|].
        cbn [String.length] in Hn.
        destruct (Ascii.eqb c' LF); cbn [forall_str];
          rewrite IH by (cbn [String.length]; lia); reflexivity.
      + cbn [forall_str]. rewrite E, IH by lia. reflexivity. }
  apply (G (String.length s)). lia.
Qed.

Lemma universal_newlines_id (s : string) :
  no_cr s = true -> universal_newlines s = s.
Proof.
  unfold no_cr. induction s as [|c r IH]; [reflexivity|].
  cbn [forall_str universal_newlines]. intros H.
  apply andb_true_iff in H. destruct H as [Hc Hr].
  apply negb_true_iff in Hc. rewrite Hc. now rewrite IH.
Qed.

Lemma readlines_line (l s : string) :
  is_line l = true -> readlines (l ++ s) = l :: readlines s.
Proof.
  induction l as [|c r IH]; [discriminate|].
  cbn [is_line append readlines]. destruct (Ascii.eqb c LF).
  - destruct r; [reflexivity|discriminate].
  - intros H. now rewrite (IH H).
Qed.

Lemma readlines_concat (ls : list string) :
  forallb is_line ls = true -> readlines (String.concat "" ls) = ls.
Proof.
  induction ls as [|l ls IH]; [reflexivity|].
  cbn [forallb]. intros H. apply andb_true_iff in H. destruct H as [Hl Hls].
  now rewrite concat_cons, (readlines_line l _ Hl), IH.
Qed.

Lemma readlines_complete (s : string) :
  complete_lines s = true -> forallb is_line (readlines s) = true.
Proof.
  induction s as [|c r IH]; [reflexivity|].
  cbn [complete_lines readlines]. destruct (Ascii.eqb c LF) eqn:E.
  - intros H. cbn [forallb is_line]. rewrite E.
    destruct r as [|c' r']; [reflexivity|]. cbn [truthy negb andb]. now apply IH.
  - destruct r as [|c' r']; [discriminate|]. intros H.
    destruct (readlines_head c' r') as [l [ls Hl]]. rewrite Hl in *.
    specialize (IH H). cbn [forallb is_line] in *. now rewrite E.
Qed.

Lemma forallb_rev {A : Type} (P : A -> bool) (l : list A) :
  forallb P l = true -> forallb P (rev l) = true.
Proof.
  rewrite !forallb_forall. intros H x Hx. apply H. now apply in_rev.
Qed.

Lemma complete_app (a b : string) :
  b <> "" -> complete_lines (a ++ b) = complete_lines b.
Proof.
  intros Hb. induction a as [|c a IH]; [reflexivity|].
  cbn [append complete_lines].
  destruct (a ++ b)%string as [|x y] eqn:E; [|exact IH].
  destruct a; cbn in E; [congruence|discriminate].
Qed.

Lemma is_line_complete (l : string) :
  is_line l = true -> complete_lines l = true.
Proof.
  induction l as [|c r IH]; [discriminate|].
  cbn [is_line complete_lines]. destruct (Ascii.eqb c LF).
  - destruct r; [reflexivity|discriminate].
  - intros H. destruct r as [|c' r']; [discriminate|]. now apply IH.
Qed.

Lemma complete_concat (ls : list string) :
  forallb is_line ls = true -> complete_lines (String.concat "" ls) = true.
Proof.
  induction ls as [|l ls IH]; [reflexivity|].
  cbn [forallb]. intros H. apply andb_true_iff in H. destruct H as [Hl Hls].
  rewrite concat_cons.
  destruct (String.concat "" ls) as [|x y] eqn:E.
  - rewrite append_nil_r. now apply is_line_complete.
  - rewrite complete_app by discriminate. now apply IH.
Qed.

Lemma no_cr_concat (ls : list string) :
  no_cr (String.concat "" ls) = forallb no_cr ls.
Proof.
  induction ls as [|l ls IH]; [reflexivity|].
  rewrite concat_cons. unfold no_cr in *. rewrite forall_str_app, IH.
  reflexivity.
Qed.

Lemma forallb_rev_eq {A : Type} (P : A -> bool) (l : list A) :
  forallb P (rev l) = forallb P l.
Proof.
  induction l as [|x l IH]; [reflexivity|].
  cbn [rev forallb]. rewrite forallb_app, IH. cbn [forallb].
  rewrite andb_true_r. apply andb_comm.
Qed.

(** X16.  The counts [reverse_file] prints are those of the whole text as
    read: the characters counted line by line are the length of the text,
    the words counted line by line are the words of the text, no word
    being split between lines; and the output file has as many characters
    as were read. *)
Theorem reverse_file_counts (input : string) :
  let t := universal_newlines input in
  let r := reverse_file input in
  char_count r = String.length t
  /\ String.length (output r) = String.length t
  /\ word_count r = List.length (split_ws t).
Proof.
  cbn zeta. unfold reverse_file. cbn [char_count output word_count].
  split; [|split].
  - now rewrite <- length_concat, concat_readlines.
  - rewrite length_concat, map_rev, sum_nat_rev, <- length_concat.
    now rewrite concat_readlines.
  - apply (words_lines (universal_newlines input)).
Qed.

(** X17.  Reversing twice gives the text back when every line is
    terminated: if the text read is empty or ends with a newline, the
    output of [reverse_file] on the output of [reverse_file] is the text
    read, and the two runs print the same counts. *)
Theorem reverse_file_twice (input : string) :
  complete_lines (universal_newlines input) = true ->
  let r := reverse_file input in
  let r2 := reverse_file (output r) in
  output r2 = universal_newlines input
  /\ readlines (universal_newlines (output r))
     = rev (readlines (universal_newlines input))
  /\ char_count r2 = char_count r
  /\ word_count r2 = word_count r.
Proof.
  intros H. cbn zeta. unfold reverse_file. cbn [char_count output word_count].
  set (t := universal_newlines input) in *.
  pose proof (readlines_complete t H) as Hl.
  assert (Hn : no_cr (String.concat "" (rev (readlines t))) = true).
  { rewrite no_cr_concat, forallb_rev_eq, <- no_cr_concat, concat_readlines.
    apply universal_newlines_no_cr. }
  rewrite (universal_newlines_id _ Hn).
  rewrite readlines_concat by now apply forallb_rev.
  rewrite rev_involutive, concat_readlines, !map_rev, !sum_nat_rev.
  repeat split.
Qed.

(** When the last line is not terminated it is written first and runs
    into the line that follows it: for the text of the lines [a] and [b],
    the second without a newline, the output is [ba] on one line, which
    has one word where the input had two, and reversing again does not
    give the text back. *)
Lemma reverse_file_unterminated :
  let input := String "a" (String LF "b") in
  output (reverse_file input) = String "b" (String "a" (String LF ""))
  /\ word_count (reverse_file input) = 2%nat
  /\ word_count (reverse_file (output (reverse_file input))) = 1%nat
  /\ output (reverse_file (output (reverse_file input))) <> input.
Proof. vm_compute. repeat split. discriminate. Qed.

(** ** How an update fails, and a header that is detected but not read *)




Lemma str_in_In (k : string) (l : list string) : str_in k l = true <-> In k l.
Proof.
  unfold str_in. rewrite existsb_exists. split.
  - intros [x [Hx E]]. apply String.eqb_eq in E. now subst.
  - intros H. exists k. split; [exact H|apply String.eqb_refl].
Qed.

Lemma row_get_absent (fields : list string) (key : string) :
  ~ In key fields -> forall row, row_get fields row key = None.
Proof.
  induction fields as [|f fs IH]; intros H row; [reflexivity|].
  cbn [row_get].
  destruct (str_in key fs) eqn:E.
  - apply str_in_In in E. exfalso. apply H. now right.
  - destruct (String.eqb_spec f key) as [->|N]; [|reflexivity].
    exfalso. apply H. now left.
Qed.

Lemma load_cia_rows_names (fields : list string) (rows : list (list string)) :
  ~ In "name" fields -> ~ In "Name" fields ->
  forall c nid c' nid',
    load_cia_rows fields rows c nid = Ok (c', nid') ->
    (forall v, In v (dict_values c) -> name v = "") ->
    forall v, In v (dict_values c') -> name v = "".
Proof.
  intros H1 H2. induction rows as [|row r IH]; intros c nid c' nid' H Hc.
  - inversion H; subst. exact Hc.
  - cbn [load_cia_rows] in H.
    destruct (_clean_number _) as [p|x]; cbn [bind] in H; [|discriminate].
    eapply IH; [exact H|].
    intros v Hv. apply index_entry_values in Hv. destruct Hv as [Hv | ->]; [auto|].
    cbn [name get_or]. now rewrite !row_get_absent.
Qed.

(** X19.  The CIA layout is detected on the header names in any case, but
    the cells are read under the exact names [name] and [Name] only: when
    a file is detected as CIA and has neither column, as with the header
    [NAME], it loads under the CIA schema and every record of the cache
    has a blank name, so that a query finds a record by its slug only,
    unless the query is blank. *)
Theorem cia_header_detected_not_read
    (t : table) (sch0 : schema) (nid0 : nat)
    (c : dict entry) (sch : schema) (nid : nat) :
  cia_like (csv_fieldnames t) = true ->
  ~ In "name" (csv_fieldnames t) ->
  ~ In "Name" (csv_fieldnames t) ->
  load_data (Some t) sch0 nid0 = Ok (c, sch, nid) ->
  sch = cia_schema
  /\ (forall v, In v (dict_values c) -> name v = "")
  /\ (forall q v, _find c q = Some v ->
        _norm q = _norm (slug v) \/ _norm q = "").
Proof.
  intros Hd H1 H2 Hl.
  pose proof (load_data_store_ok _ _ _ _ _ _ Hl) as [Sok _].
  unfold load_data in Hl. rewrite Hd in Hl.
  destruct (load_cia_rows _ _ _ _) as [[c0 n0]|x] eqn:E; cbn [bind] in Hl;
    [|discriminate].
  inversion Hl; subst. split; [reflexivity|].
  assert (Hn : forall v, In v (dict_values c) -> name v = "").
  { eapply load_cia_rows_names; [exact H1|exact H2|exact E|intros v []]. }
  split; [exact Hn|].
  intros q v F.
  pose proof (Hn v (find_in_values _ _ _ F)) as En.
  destruct (find_matches c q v Sok F) as [M|M]; [right|left; now symmetry].
  rewrite En in M. now rewrite <- M.
Qed.

(** ** Rows with the same name *)

Lemma load_simple_rows_app (fields : list string) (pre post : list (list string)) :
  forall c nid,
    load_simple_rows fields (pre ++ post) c nid
    = match load_simple_rows fields pre c nid with
      | Ok (c1, n1) => load_simple_rows fields post c1 n1
      | Raise x => Raise x
      end.
Proof.
  induction pre as [|row r IH]; intros c nid; [reflexivity|].
  cbn [app load_simple_rows].
  destruct (_clean_number _) as [p|x]; cbn [bind]; [apply IH|reflexivity].
Qed.

Lemma load_simple_rows_next (fields : list string) (rows : list (list string)) :
  forall c nid c' nid',
    load_simple_rows fields rows c nid = Ok (c', nid') ->
    nid' = (nid + List.length rows)%nat.
Proof.
  induction rows as [|row r IH]; intros c nid c' nid' H.
  - inversion H. cbn. lia.
  - cbn [load_simple_rows] in H.
    destruct (_clean_number _) as [p|x]; cbn [bind] in H; [|discriminate].
    apply IH in H. cbn [List.length]. lia.
Qed.

Lemma load_simple_rows_other (fields : list string) (rows : list (list string))
    (k : string) :
  (forall row, In row rows -> _norm (simple_name fields row) <> k) ->
  forall c nid c' nid',
    load_simple_rows fields rows c nid = Ok (c', nid') ->
    dict_get k c' = dict_get k c.
Proof.
  induction rows as [|row r IH]; intros Hk c nid c' nid' H.
  - now inversion H.
  - cbn [load_simple_rows] in H.
    destruct (_clean_number _) as [p|x]; cbn [bind] in H; [|discriminate].
    apply IH in H; [|intros x Hx; apply Hk; now right].
    rewrite H. apply dict_get_set_other.
    intros Ek. apply (Hk row (or_introl eq_refl)). now symmetry.
Qed.

(** X20.  When a simple-schema file has several rows with the same name,
    up to case and surrounding blanks, the last one wins: after
    [load_data], the key of that name is bound to the record built from
    the last such row, with its name trimmed, its [ppp] as [_clean_number]
    reads it and its rank as [_clean_int] reads it. *)
Theorem load_last_row_wins
    (t : table) (sch0 : schema) (nid0 : nat)
    (c : dict entry) (sch : schema) (nid : nat)
    (pre : list (list string)) (row : list string) (post : list (list string)) :
  cia_like (csv_fieldnames t) = false ->
  load_data (Some t) sch0 nid0 = Ok (c, sch, nid) ->
  csv_rows t = pre ++ row :: post ->
  (forall r, In r post ->
     _norm (simple_name (csv_fieldnames t) r)
     <> _norm (simple_name (csv_fieldnames t) row)) ->
  exists e,
    dict_get (_norm (simple_name (csv_fieldnames t) row)) c = Some e
    /\ _find c (simple_name (csv_fieldnames t) row) = Some e
    /\ oid e = (nid0 + List.length pre)%nat
    /\ name e = strip (simple_name (csv_fieldnames t) row)
    /\ _clean_number (PStr (simple_ppp (csv_fieldnames t) row)) = Ok (ppp e)
    /\ rank e = _clean_int (Some (simple_rank (csv_fieldnames t) row)).
Proof.
  intros Hd Hl Hr Hpost. unfold load_data in Hl. rewrite Hd, Hr in Hl.
  destruct (load_simple_rows _ _ _ _) as [[c0 n0]|x] eqn:E; cbn [bind] in Hl;
    [|discriminate].
  inversion Hl; subst c0 sch n0. clear Hl.
  rewrite load_simple_rows_app in E.
  destruct (load_simple_rows (csv_fieldnames t) pre [] nid0) as [[c1 n1]|x] eqn:E1;
    [|discriminate].
  apply load_simple_rows_next in E1. subst n1.
  cbn [load_simple_rows] in E.
  fold (simple_name (csv_fieldnames t) row) in E.
  fold (simple_ppp (csv_fieldnames t) row) in E.
  fold (simple_rank (csv_fieldnames t) row) in E.
  destruct (_clean_number (PStr (simple_ppp (csv_fieldnames t) row))) as [p|x] eqn:Ep;
    cbn [bind] in E; [|discriminate].
  apply (load_simple_rows_other _ _ _ Hpost) in E.
  rewrite dict_get_set_same in E.
  eexists. split; [exact E|]. split; [now apply find_direct|].
  repeat split.
Qed.

(** ** Starting again, and a record that cannot be archived *)




(** X22.  A record with an infinite [ppp] cannot be archived.  When the
    query finds such a record, [delete_entry] removes it from the cache
    and then raises on [int] of the [ppp] in [append_deleted], after the
    header of a new archive has been written and before the data file is
    saved: the record is in neither the cache nor the archive, an archive
    that was there is as it was, and the data file still has what it
    had. *)
Theorem delete_infinite_record (q : string) (w : world) (e : entry) :
  wf_dict (cache w) ->
  _find (cache w) (strip q) = Some e ->
  is_finite (ppp e) = false ->
  exists x,
    int_of_float (ppp e) = Raise x
    /\ delete_entry q w
       = (set_deleted_file
            (Some (match deleted_file w with
                   | Some t => t
                   | None => [_current_fieldnames (CURRENT_SCHEMA w)]
                   end))
            (match deleted_file w with
             | Some _ => deleted_open w
             | None => false
             end)
            (set_cache (filter (fun kv => negb (is_ (snd kv) e)) (cache w)) w),
          Raise x)
    /\ (forall k v,
          dict_get k (filter (fun kv => negb (is_ (snd kv) e)) (cache w)) = Some v ->
          is_ v e = false).
Proof.
  intros W F Hinf.
  destruct (format_row_not_finite (_current_fieldnames (CURRENT_SCHEMA w)) e Hinf)
    as [x [Hi Hx]].
  exists x. split; [exact Hi|]. split.
  - unfold delete_entry. rewrite F, pop_all_keys_of_object by exact W.
    unfold append_deleted, append_table.
    cbn [CURRENT_SCHEMA deleted_file deleted_open set_cache]. rewrite Hx.
    now destruct (deleted_file w).
  - intros k v G.
    rewrite (dict_get_filter_wf (fun v => negb (is_ v e)) k (cache w) W) in G.
    destruct (dict_get k (cache w)) as [u|]; [|discriminate].
    destruct (is_ u e) eqn:E; cbn in G; [discriminate|]. now inversion G; subst.
Qed.

End Run.

(* ================================================================== *)
(** * Runs

    The statements above hold for every run.  Those below are about one
    run, [name_first]: applications of the theorems to given files and
    lines, and runs that show what a statement leaves out. *)

#[local] Existing Instance name_first.

Lemma combined_skips_blank_queries_witness :
  combined_total store_AB (["A"] ++ "   " :: ["B"])
  = combined_total store_AB (["A"] ++ ["B"])
  /\ ~ In (strip "   ") (live_queries (["A"] ++ "   " :: ["B"])).
Proof.
  apply (combined_skips_blank_queries store_AB ["A"] ["B"] "   ").
  reflexivity.
Defined.

(** C7, counterexample.  With the records [A] and [B], the query [" C "] is
    reported missing as ["C"], not as the text that was given. *)
Lemma combined_missing_not_literal :
  combined_total store_AB ["A"; "B"; " C "] = (Z2F 350, ["A"; "B"], ["C"])
  /\ ["C"] <> [" C "].
Proof. split; [vm_compute; reflexivity | discriminate]. Qed.

Lemma combined_total_spec_witness :
  combined_total store_AB ["Zed"; " Q "] = (S754_zero false, [], ["Zed"; "Q"]).
Proof.
  apply (proj1 (proj2 (combined_total_spec store_AB ["Zed"; " Q "]))).
  intros q Hq. vm_compute in Hq.
  destruct Hq as [<-|[<-|[]]]; reflexivity.
Defined.

(** C10, counterexample.  The store loaded from [nameless_file] has a
    record with an empty slug and no empty key, yet the blank query finds
    the record with slug ["s"], which comes before it. *)
Lemma find_blank_not_first_empty_slug :
  start (Some nameless_file) None
    = Ok (mk_world nameless_store cia_schema (Some nameless_file) None 2 false)
  /\ In nameless_v1 (dict_values nameless_store)
  /\ slug nameless_v1 = ""
  /\ dict_get "" nameless_store = None
  /\ _find nameless_store "  " = Some nameless_v0
  /\ slug nameless_v0 = "s"
  /\ find (fun v => String.eqb (slug v) "") (dict_values nameless_store)
     = Some nameless_v1.
Proof. vm_compute. repeat split; auto. Qed.

Lemma find_blank_returns_record_witness :
  exists v,
    _find store_AB " " = Some v
    /\ In v (dict_values store_AB)
    /\ find (find_match "") (dict_values store_AB) = Some v
    /\ (_norm (name v) = "" \/ _norm (slug v) = "")
    /\ ((forall u, In u (dict_values store_AB) -> _norm (name u) <> "") ->
        find (fun u => String.eqb (_norm (slug u)) "") (dict_values store_AB)
        = Some v).
Proof.
  apply (find_blank_returns_record store_AB " ").
  - exists rec_A. split; [left; reflexivity | reflexivity].
  - reflexivity.
  - reflexivity.
Defined.

(** C2, counterexample.  ["$33,598,000,000,000"] is read as
    33598000000000, which is not the float 27700000000000. *)
Lemma clean_number_dollar_is_other_value :
  _clean_number (PStr "$33,598,000,000,000") = Ok (Z2F 33598000000000)
  /\ Z2F 33598000000000 <> Z2F 27700000000000.
Proof. vm_compute. split; [reflexivity | discriminate]. Qed.



(** C4, counterexample.  After France and Germany are entered with the same
    slug, the record of France is still in the store and has a slug, but
    the slug leads to the record of Germany. *)
Lemma orphaned_slug_after_update :
  cache world_france_germany
    = [("france", rec_france); ("france-x", rec_germany); ("germany", rec_germany)]
  /\ In rec_france (dict_values (cache world_france_germany))
  /\ slug rec_france <> ""
  /\ dict_get (_norm (slug rec_france)) (cache world_france_germany)
     = Some rec_germany
  /\ _find (cache world_france_germany) (slug rec_france) = Some rec_germany
  /\ rec_germany <> rec_france.
Proof.
  vm_compute. repeat split; auto; discriminate.
Qed.

Lemma update_country_dual_key_witness :
  exists e,
    _find (cache world_france) "France" = Some e
    /\ _find (cache world_france) "france-x" = Some e
    /\ oid e = 0%nat
    /\ name e = "France"
    /\ slug e = "france-x"
    /\ ppp e = Z2F 3636000000000
    /\ (forall k, k <> "france" -> k <> "france-x" ->
                  dict_get k (cache world_france) = None).
Proof.
  apply (update_country_dual_key empty_cia_world
           "France" "3,636,000,000,000" "10" "france-x" "2024" "Europe"
           (Z2F 3636000000000)).
  - reflexivity.
  - vm_compute. discriminate.
  - vm_compute. discriminate.
  - vm_compute. reflexivity.
Defined.




(** C3, counterexample.  Loading [blank_name_file] gives a store with the
    records of France and of the row without a name; [save_data] leaves
    the latter out, so the store read back has one record, not two. *)
Lemma roundtrip_drops_blank_name :
  exists c1 t c2,
    load_data (Some blank_name_file) default_schema 0 = Ok (c1, default_schema, 2%nat)
    /\ save_table default_schema c1 = (t, Ok tt)
    /\ load_data (Some t) default_schema 2 = Ok (c2, default_schema, 3%nat)
    /\ map truncated (dict_values c1)
       = [("France", Z2F 100, 1); ("", Z2F 7, 2)]
    /\ map triple (dict_values c2) = [("France", Z2F 100, 1)]
    /\ option_map truncated (dict_get "" c1) = Some ("", Z2F 7, 2)
    /\ option_map triple (dict_get "" c2) = None.
Proof.
  do 3 eexists.
  split; [vm_compute; reflexivity|].
  split; [vm_compute; reflexivity|].
  split; [vm_compute; reflexivity|].
  vm_compute. repeat split.
Qed.

(** The same loss under the CIA layout: of two rows with the same name the
    first keeps only its slug key, [save_data] deduplicates on the name and
    writes the second row alone, and the record under ["a"] is gone after the
    reload. *)
Lemma roundtrip_drops_displaced_record :
  exists c1 t c2,
    load_data (Some twin_file) default_schema 0 = Ok (c1, cia_schema, 2%nat)
    /\ save_table cia_schema c1 = (t, Ok tt)
    /\ load_data (Some t) cia_schema 2 = Ok (c2, cia_schema, 3%nat)
    /\ option_map truncated (dict_get "a" c1) = Some ("X", Z2F 100, 1)
    /\ option_map triple (dict_get "a" c2) = None.
Proof.
  do 3 eexists.
  split; [vm_compute; reflexivity|].
  split; [vm_compute; reflexivity|].
  split; [vm_compute; reflexivity|].
  vm_compute. repeat split.
Qed.

Lemma load_save_reload_witness :
  exists rows c2 nid2,
    save_table default_schema tolerant_store
      = (_current_fieldnames default_schema :: rows, Ok tt)
    /\ load_data (Some (_current_fieldnames default_schema :: rows))
         default_schema 3
       = Ok (c2, default_schema, nid2)
    /\ forall k, option_map triple (dict_get k c2)
                 = option_map truncated (dict_get k tolerant_store).
Proof.
  apply (load_save_reload tolerant_file default_schema 0
           tolerant_store default_schema 3).
  - vm_compute. reflexivity.
  - exact tolerant_store_keyed.
  - intros e He. vm_compute in He.
    destruct He as [<-|[<-|[<-|[]]]]; reflexivity.
Defined.

(** A non-finite total makes the report of [combined_ppp] raise: the text
    ["1e999"] is read as infinity, and [int] of it overflows. *)
Lemma combined_ppp_overflow :
  exists c,
    load_data (Some [SIMPLE_FIELDS; ["Huge"; "1e999"; "1"]]) default_schema 0
      = Ok (c, default_schema, 1%nat)
    /\ combined_ppp c "Huge" = Raise OverflowError.
Proof. eexists. split; vm_compute; reflexivity. Qed.

Lemma make_index_keys_shape_witness :
  _norm "france" = "france".
Proof.
  apply (proj1 (proj2 (make_index_keys_shape " France " "FR")) "france").
  vm_compute. left. reflexivity.
Defined.

Lemma written_int_read_back_witness :
  Z.abs (-27700000000000) <= 2 ^ 53
  /\ _clean_int (Some (str_of_int (-27700000000000))) = -27700000000000.
Proof.
  split; [vm_compute; discriminate|].
  apply (written_int_read_back (-27700000000000)). vm_compute. discriminate.
Defined.

Lemma find_sound_witness :
  In (mk_entry 0 "France" (Z2F 3636000000000) 10 "" "" "")
    (dict_values tolerant_store).
Proof.
  apply (find_sound tolerant_store " FRANCE "
           (mk_entry 0 "France" (Z2F 3636000000000) 10 "" "" "")).
  - apply (load_data_store_ok (Some tolerant_file) default_schema 0
             tolerant_store default_schema 3).
    vm_compute. reflexivity.
  - vm_compute. reflexivity.
Defined.

Lemma save_data_stops_at_infinite_witness :
  exists rows x,
    mapM (format_row (_current_fieldnames (CURRENT_SCHEMA world_huge))) [rec_A]
      = Ok rows
    /\ int_of_float (S754_infinity false) = Raise x
    /\ save_data world_huge
       = (set_data_file
            (Some (_current_fieldnames (CURRENT_SCHEMA world_huge) :: rows))
            world_huge,
          Raise x).
Proof.
  apply (proj2 (save_data_stops_at_infinite world_huge) [rec_A]
           (mk_entry 1 "Huge" (S754_infinity false) 2 "" "" "")
           [mk_entry 2 "B" (Z2F 250) 3 "" "" ""]).
  - vm_compute. reflexivity.
  - intros e [<-|[]]. reflexivity.
  - reflexivity.
Defined.

Lemma update_then_show_witness :
  CURRENT_SCHEMA world_france = cia_schema
  /\ show_country (CURRENT_SCHEMA world_france) (cache world_france) " FRANCE "
     = Ok [""; "--- Entry ---"; "Name   : France"; "Slug   : france-x";
           "PPP    : 3,636,000,000,000"; "Rank   : 10"; "Date   : 2024";
           "Region : Europe"; ""].
Proof.
  apply (update_then_show empty_cia_world
           "France" "3,636,000,000,000" "10" "france-x" "2024" "Europe"
           " FRANCE " (Z2F 3636000000000) 3636000000000).
  - vm_compute. discriminate.
  - vm_compute. reflexivity.
  - vm_compute. reflexivity.
  - vm_compute. reflexivity.
Defined.

Lemma compare_two_symmetric_witness :
  compare_two store_AB "b" "a"
  = Ok [""; "--- Comparison ---"; "B: PPP=250, Rank=2"; "A: PPP=100, Rank=1";
        "=> B has higher PPP."; ""].
Proof.
  apply (compare_two_symmetric store_AB "a" "b"
           [""; "--- Comparison ---"; "A: PPP=100, Rank=1"; "B: PPP=250, Rank=2";
            "=> B has higher PPP."; ""]).
  vm_compute. reflexivity.
Defined.

Lemma display_raises_only_overflow_witness :
  show_country default_schema store_huge " huge " = Raise OverflowError
  /\ OverflowError = OverflowError
  /\ exists e, _find store_huge (strip " huge ") = Some e
               /\ is_finite (ppp e) = false.
Proof.
  split; [vm_compute; reflexivity|].
  apply (proj1 (display_raises_only_overflow default_schema store_huge
                  " huge " "a" "b"
                  (proj1 (load_data_store_ok (Some huge_file) default_schema 0
                            store_huge default_schema 3 eq_refl)))).
  vm_compute. reflexivity.
Defined.

Lemma session_keeps_store_ok_witness :
  exists w,
    main (Some tolerant_file) None demo_input = Some (w, Quit)
    /\ store_ok (cache w).
Proof.
  eexists. split; [vm_compute; reflexivity|].
  eapply (session_keeps_store_ok (Some tolerant_file) None demo_input _ Quit).
  vm_compute. reflexivity.
Defined.

Lemma session_file_in_sync_witness :
  exists w,
    main (Some tolerant_file) None demo_input = Some (w, Quit)
    /\ (untouched (mk_world tolerant_store default_schema (Some tolerant_file) None 3 false) w
        \/ in_sync w).
Proof.
  eexists. split; [vm_compute; reflexivity|].
  eapply (session_file_in_sync (Some tolerant_file) None demo_input
            (mk_world tolerant_store default_schema (Some tolerant_file) None 3 false)
            _ Quit).
  - vm_compute. reflexivity.
  - vm_compute. reflexivity.
  - discriminate.
Defined.


Lemma reverse_file_twice_witness :
  output (reverse_file (output (reverse_file ("one two" ++ String CR (String LF "three" ++ String LF "")))))
  = ("one two" ++ String LF ("three" ++ String LF ""))%string.
Proof.
  apply (reverse_file_twice ("one two" ++ String CR (String LF "three" ++ String LF ""))).
  vm_compute. reflexivity.
Defined.


Lemma cia_header_detected_not_read_witness :
  cia_schema = cia_schema
  /\ (forall v,
        In v (dict_values [("fr", mk_entry 0 "" (Z2F 3636) 10 "fr" "2024" "Europe")]) ->
        name v = "")
  /\ (forall q v,
        _find [("fr", mk_entry 0 "" (Z2F 3636) 10 "fr" "2024" "Europe")] q = Some v ->
        _norm q = _norm (slug v) \/ _norm q = "").
Proof.
  apply (cia_header_detected_not_read capitals_file default_schema 0
           [("fr", mk_entry 0 "" (Z2F 3636) 10 "fr" "2024" "Europe")] cia_schema 1).
  - vm_compute. reflexivity.
  - vm_compute. intuition discriminate.
  - vm_compute. intuition discriminate.
  - vm_compute. reflexivity.
Defined.

Lemma load_last_row_wins_witness :
  exists e,
    dict_get (_norm (simple_name SIMPLE_FIELDS [" FRANCE"; "250"; "2"]))
      [("france", mk_entry 2 "FRANCE" (Z2F 250) 2 "" "" "");
       ("spain", mk_entry 1 "Spain" (Z2F 7) 3 "" "" "")] = Some e
    /\ _find [("france", mk_entry 2 "FRANCE" (Z2F 250) 2 "" "" "");
              ("spain", mk_entry 1 "Spain" (Z2F 7) 3 "" "" "")]
         (simple_name SIMPLE_FIELDS [" FRANCE"; "250"; "2"]) = Some e
    /\ oid e = (0 + 2)%nat
    /\ name e = strip (simple_name SIMPLE_FIELDS [" FRANCE"; "250"; "2"])
    /\ _clean_number (PStr (simple_ppp SIMPLE_FIELDS [" FRANCE"; "250"; "2"]))
       = Ok (ppp e)
    /\ rank e = _clean_int (Some (simple_rank SIMPLE_FIELDS [" FRANCE"; "250"; "2"])).
Proof.
  apply (load_last_row_wins twice_file default_schema 0
           [("france", mk_entry 2 "FRANCE" (Z2F 250) 2 "" "" "");
            ("spain", mk_entry 1 "Spain" (Z2F 7) 3 "" "" "")]
           default_schema 3
           [["France"; "100"; "1"]; ["Spain"; "7"; "3"]]
           [" FRANCE"; "250"; "2"] []).
  - vm_compute. reflexivity.
  - vm_compute. reflexivity.
  - vm_compute. reflexivity.
  - intros r [].
Defined.


Lemma delete_infinite_record_witness :
  exists x,
    int_of_float (S754_infinity false) = Raise x
    /\ delete_entry "huge" world_huge
       = (set_deleted_file (Some [SIMPLE_FIELDS]) false
            (set_cache
               (filter (fun kv => negb (is_ (snd kv)
                                          (mk_entry 1 "Huge" (S754_infinity false) 2 "" "" "")))
                  store_huge) world_huge),
          Raise x)
    /\ (forall k v,
          dict_get k
            (filter (fun kv => negb (is_ (snd kv)
                                       (mk_entry 1 "Huge" (S754_infinity false) 2 "" "" "")))
               store_huge) = Some v ->
          is_ v (mk_entry 1 "Huge" (S754_infinity false) 2 "" "" "") = false).
Proof.
  apply (delete_infinite_record "huge" world_huge
           (mk_entry 1 "Huge" (S754_infinity false) 2 "" "" "")).
  - repeat constructor; vm_compute; intuition discriminate.
  - vm_compute. reflexivity.
  - reflexivity.
Defined.
